(** * HydroMT model API: build/update orchestration, option validation,
      configuration tree and component setters.

    Shallow embedding of [hydromt/models/model_api.py] (class [Model]) and
    the properties of its natural-language specification.

    Conventions of the embedding:
    - a Python [dict] is an insertion-ordered association list with unique
      keys ([ODict]); assignment to an existing key keeps its position,
      assignment to a new key appends;
    - an exception is a value [exn] carrying its Python class and message;
      a method runs in a state-and-error monad whose state survives a raised
      exception, as the attributes of [self] do in Python;
    - the concrete model class (its constants, its attributes and its
      abstract read/write methods) is an instance of [ModelClass];
    - calls to the methods of the concrete class are recorded in a trace.

    What stands for the libraries around the class:
    - an [xr.Dataset] is the dictionary of its data variables, an array is
      its shape and an identifier of its numbers; coordinates and
      dimensions are left out;
    - the file system is a state with the parsed content of the
      configuration files in it; [os.path.isdir] and [os.makedirs] are
      parameters: [os.makedirs] may raise and only this is known of the
      two, that after it returned the path is a directory, and that it
      keeps the directories and the configuration files that are there;
    - the xarray assignment of an array to the maps may be refused
      (conflicting sizes of a dimension), which is a parameter too; arrays
      lie on the dimensions of the maps, so that an array of the shape of
      the maps is not refused;
    - a property of the class is evaluated when an attribute of its name
      is looked up, and what it does then is part of the lookup;
    - the option mapping is a mapping (the default [opt=None] is not one),
      and the methods of the class reach the model and the file system, not
      the option mapping of the caller. *)

From Stdlib Require Import String Ascii List Bool Arith Lia.
Import ListNotations.
Set Warnings "-register-all".
Open Scope string_scope.
Open Scope list_scope.

Notation "s1 +++ s2" := (String.append s1 s2) (at level 60, right associativity).

(** ** Python strings *)

Module Str.

(** [c in chars] for a one-character string [c]. *)
Fixpoint contains_char (c : ascii) (chars : string) : bool :=
  match chars with
  | EmptyString => false
  | String a rest => if Ascii.eqb a c then true else contains_char c rest
  end.

(** [s.lstrip(chars)] *)
Fixpoint lstrip (chars s : string) : string :=
  match s with
  | EmptyString => EmptyString
  | String c rest => if contains_char c chars then lstrip chars rest else s
  end.

(** [s.rstrip(chars)] *)
Fixpoint rstrip (chars s : string) : string :=
  match s with
  | EmptyString => EmptyString
  | String c rest =>
      match rstrip chars rest with
      | EmptyString => if contains_char c chars then EmptyString else String c EmptyString
      | String c' rest' => String c (String c' rest')
      end
  end.

(** [s.strip(chars)]: both ends are stripped. *)
Definition strip (chars s : string) : string := rstrip chars (lstrip chars s).

(** [s.split(sep)] for a one-character separator; never the empty list. *)
Fixpoint split (sep : ascii) (s : string) : list string :=
  match s with
  | EmptyString => [EmptyString]
  | String c rest =>
      if Ascii.eqb c sep then EmptyString :: split sep rest
      else match split sep rest with
           | [] => [String c EmptyString]
           | h :: t => String c h :: t
           end
  end.

(** every character of [s] satisfies [p] *)
Fixpoint all (p : ascii -> bool) (s : string) : bool :=
  match s with
  | EmptyString => true
  | String c rest => p c && all p rest
  end.

Definition head (s : string) : option ascii :=
  match s with
  | EmptyString => None
  | String c _ => Some c
  end.

Fixpoint last (s : string) : option ascii :=
  match s with
  | EmptyString => None
  | String c EmptyString => Some c
  | String _ rest => last rest
  end.

(** [p] fails on the character [o], when there is one *)
Definition not_at (p : ascii -> bool) (o : option ascii) : bool :=
  match o with
  | None => true
  | Some c => negb (p c)
  end.

(** the double-quote character, as a string *)
Definition dquote : string := String (ascii_of_nat 34) EmptyString.

Definition quoted (s : string) : string := dquote +++ s +++ dquote.

End Str.

(** ** Python dictionaries (insertion ordered) *)

Module ODict.

Section Ops.
Context {V : Type}.

(** [d.get(k)] *)
Fixpoint get (k : string) (d : list (string * V)) : option V :=
  match d with
  | [] => None
  | (k', v) :: rest => if String.eqb k' k then Some v else get k rest
  end.

(** [k in d] *)
Definition mem (k : string) (d : list (string * V)) : bool :=
  match get k d with
  | Some _ => true
  | None => false
  end.

(** [d[k] = v]: an existing key keeps its position, a new key is appended. *)
Fixpoint set (k : string) (v : V) (d : list (string * V)) : list (string * V) :=
  match d with
  | [] => [(k, v)]
  | (k', v') :: rest =>
      if String.eqb k' k then (k, v) :: rest else (k', v') :: set k v rest
  end.

(** [del d[k]] when present *)
Fixpoint remove (k : string) (d : list (string * V)) : list (string * V) :=
  match d with
  | [] => []
  | (k', v') :: rest =>
      if String.eqb k' k then rest else (k', v') :: remove k rest
  end.

(** [d.pop(k, default)]: the value and the dictionary afterwards *)
Definition pop (k : string) (default : V) (d : list (string * V)) : V * list (string * V) :=
  match get k d with
  | Some v => (v, remove k d)
  | None => (default, d)
  end.

(** [list(d.keys())] *)
Definition keys (d : list (string * V)) : list string := map fst d.

(** [d.update(other)] *)
Definition update (other d : list (string * V)) : list (string * V) :=
  fold_left (fun acc kv => set (fst kv) (snd kv) acc) other d.

(** a list of pairs that is a dictionary: no key twice *)
Definition wf (d : list (string * V)) : Prop := NoDup (keys d).

End Ops.

End ODict.

(** ** Values, component payloads, exceptions *)

(** Python values that travel through the option mapping and the
    configuration tree.  [VObj] stands for any other object. *)
Inductive value : Type :=
| VNone
| VBool (b : bool)
| VInt (n : nat)
| VStr (s : string)
| VPath (p : string)
| VList (l : list value)
| VDict (d : list (string * value))
| VObj (id : nat).

(** a [dict] of values: keyword arguments, the configuration tree *)
Definition dict : Type := list (string * value).

(** the option mapping: method identifier -> keyword arguments *)
Definition optmap : Type := list (string * dict).

Definition is_None (v : value) : bool :=
  match v with
  | VNone => true
  | _ => false
  end.

(** an array with its shape; [arr_id] identifies the numbers it holds *)
Record array : Type := mkArray { arr_shape : list nat; arr_id : nat }.

(** [xr.Dataset]: its data variables, by name *)
Definition dataset : Type := list (string * array).

(** What a component setter may receive. *)
Inductive data : Type :=
| DataArray (name : option string) (a : array)   (* xr.DataArray *)
| Dataset (data_vars : dataset)                  (* xr.Dataset *)
| NdArray (a : array)                            (* np.ndarray *)
| GeoDataFrame (g : nat)                         (* gpd.GeoDataFrame *)
| GeoSeries (g : nat)                            (* gpd.GeoSeries *)
| OtherData (v : value).

Inductive exn_class : Type :=
| ValueError
| IOError
| TypeError
| AttributeError
| IndexError
| DeprecationWarning
| NotImplementedError
| FileExistsError
| NotADirectoryError
| OtherError (id : nat).

Record exn : Type := mkExn { exn_cls : exn_class; exn_msg : string }.

Inductive result (A : Type) : Type :=
| Ok (a : A)
| Raise (e : exn).

Arguments Ok {A} a.
Arguments Raise {A} e.

Definition raises {A : Type} (r : result A) (c : exn_class) : Prop :=
  match r with
  | Ok _ => False
  | Raise e => exn_cls e = c
  end.

Definition is_ok {A : Type} (r : result A) : bool :=
  match r with
  | Ok _ => true
  | Raise _ => false
  end.

(** ** The model instance and its surroundings *)

Inductive level : Type := DEBUG | INFO | WARNING.

(** a record of [self.logger]; [LogParam method k v] is the debug record
    of [_run_log_method] for parameter [k] of [method] with value [v] *)
Inductive log_record : Type :=
| Log (lvl : level) (msg : string)
| LogParam (method k : string) (v : value).

(** The attributes of a [Model] instance that the methods below use. *)
Record Model : Type := mkModel {
  _root : option string;
  _read : bool;
  _write : bool;
  _config_fn : option string;
  _config : dict;
  _staticmaps : dataset;
  _staticgeoms : list (string * data);
  _forcing : list (string * array);
  _states : list (string * array);
  _results : list (string * array);
  logger : list log_record
}.

(** The file system: the paths under which directories were made and the
    configuration files that exist, with what [config.configread] parses
    from them.  Which paths are directories is for [os.path.isdir] to say,
    a parameter of the class below. *)
Record FS : Type := mkFS {
  dirs : list string;
  config_files : list (string * dict)
}.

Definition isfile (f : FS) (p : string) : bool := ODict.mem p (config_files f).

(** [config.configread(fn, abs_path=False)] on an existing file *)
Definition configread (f : FS) (fn : string) : dict :=
  match ODict.get fn (config_files f) with
  | Some d => d
  | None => []
  end.

(** [os.path.join(a, b)] (posix) *)
Definition join (a b : string) : string :=
  match b with
  | String "/" _ => b
  | _ =>
      match Str.last a with
      | None => b
      | Some "/"%char => a +++ b
      | Some _ => a +++ "/" +++ b
      end
  end.

Record World : Type := mkWorld { mdl : Model; fs : FS }.

(** ** State and error monad; the state survives an exception *)

Definition M (S A : Type) : Type := S -> result A * S.

Definition ret {S A : Type} (a : A) : M S A := fun s => (Ok a, s).

Definition raise {S A : Type} (c : exn_class) (msg : string) : M S A :=
  fun s => (Raise (mkExn c msg), s).

Definition bind {S A B : Type} (c : M S A) (k : A -> M S B) : M S B :=
  fun s =>
    match c s with
    | (Ok a, s') => k a s'
    | (Raise e, s') => (Raise e, s')
    end.

(** a result, as a computation that leaves the state alone *)
Definition lift_result {S A : Type} (r : result A) : M S A := fun s => (r, s).

Definition gets {S A : Type} (f : S -> A) : M S A := fun s => (Ok (f s), s).

Definition modify {S : Type} (f : S -> S) : M S unit := fun s => (Ok tt, f s).

(** a computation of a part of the state, run on the whole *)
Definition zoom {S T A : Type} (proj : T -> S) (inj : S -> T -> T) (c : M S A) : M T A :=
  fun t => let (r, s) := c (proj t) in (r, inj s t).

Declare Scope monad_scope.
Delimit Scope monad_scope with monad.
Notation "x <- c ;; k" := (bind c (fun x => k))
  (at level 61, c at next level, right associativity) : monad_scope.
Notation "c ;;; k" := (bind c (fun _ => k))
  (at level 61, right associativity) : monad_scope.
Open Scope monad_scope.

(** [for x in l: body(x)] *)
Fixpoint for_each {S A : Type} (l : list A) (body : A -> M S unit) : M S unit :=
  match l with
  | [] => ret tt
  | x :: rest => body x ;;; for_each rest body
  end.

(** [if b: c] *)
Definition when {S : Type} (b : bool) (c : M S unit) : M S unit :=
  if b then c else ret tt.

(** ** The concrete model class *)

(** Class constants of a concrete model, and the external helpers whose
    result the methods only pass on. *)
Class ModelConsts : Type := {
  _NAME : string;
  _DATADIR : string;
  _CONF : string;
  _FOLDERS : list string;
  abspath : string -> string;          (* os.path.abspath *)
  isdir : FS -> string -> bool;        (* os.path.isdir *)
  makedirs : string -> M FS unit;      (* os.makedirs; it may raise *)
  makedirs_isdir :
    forall p f f', makedirs p f = (Ok tt, f') -> isdir f' p = true;
  makedirs_keeps_dirs :
    forall p q f, isdir f q = true -> isdir (snd (makedirs p f)) q = true;
  makedirs_keeps_files :
    forall p f, config_files (snd (makedirs p f)) = config_files f;
  rio_shape : dataset -> list nat;     (* staticmaps.rio.shape *)
  bounds_geom : dataset -> nat;        (* the box of staticmaps.rio.bounds *)
  rio_attr : string -> dataset -> result value;   (* staticmaps.rio.<name> *)
  (* xarray refuses the assignment [staticmaps[name] = array] *)
  conflicts : dataset -> string -> array -> bool;
  same_shape_fits :
    forall sm n a, arr_shape a = rio_shape sm -> conflicts sm n a = false
}.

(** A callable attribute receives the positional and the keyword arguments;
    its signature lists each parameter with its default, if any. *)
Definition method_impl : Type := list value -> dict -> M World value.

(** What the class gives for a name: a method, a value, or a property, whose
    getter runs on the model at each lookup, may raise, and returns the
    attribute that the lookup gives. *)
Inductive attr : Type :=
| Callable (signature : list (string * option value)) (impl : method_impl)
| Data (v : value)
| Property (getter : World -> result attr * World).

(** [attrs name] is what the concrete class and the instance give for
    [name], the methods inherited from the base class included; the
    properties of the base class are looked up after it. *)
Class ModelClass : Type := {
  consts :: ModelConsts;
  attrs : string -> option attr
}.

(** ** Field updates of [self] *)

Definition with_root (r : option string) (rd wr : bool) (m : Model) : Model :=
  mkModel r rd wr (_config_fn m) (_config m) (_staticmaps m) (_staticgeoms m)
          (_forcing m) (_states m) (_results m) (logger m).

Definition with_config_fn (fn : option string) (m : Model) : Model :=
  mkModel (_root m) (_read m) (_write m) fn (_config m) (_staticmaps m)
          (_staticgeoms m) (_forcing m) (_states m) (_results m) (logger m).

Definition with_config (c : dict) (m : Model) : Model :=
  mkModel (_root m) (_read m) (_write m) (_config_fn m) c (_staticmaps m)
          (_staticgeoms m) (_forcing m) (_states m) (_results m) (logger m).

Definition with_staticmaps (d : dataset) (m : Model) : Model :=
  mkModel (_root m) (_read m) (_write m) (_config_fn m) (_config m) d
          (_staticgeoms m) (_forcing m) (_states m) (_results m) (logger m).

Definition with_staticgeoms (g : list (string * data)) (m : Model) : Model :=
  mkModel (_root m) (_read m) (_write m) (_config_fn m) (_config m)
          (_staticmaps m) g (_forcing m) (_states m) (_results m) (logger m).

Definition with_forcing (d : list (string * array)) (m : Model) : Model :=
  mkModel (_root m) (_read m) (_write m) (_config_fn m) (_config m)
          (_staticmaps m) (_staticgeoms m) d (_states m) (_results m) (logger m).

Definition with_states (d : list (string * array)) (m : Model) : Model :=
  mkModel (_root m) (_read m) (_write m) (_config_fn m) (_config m)
          (_staticmaps m) (_staticgeoms m) (_forcing m) d (_results m) (logger m).

Definition with_results (d : list (string * array)) (m : Model) : Model :=
  mkModel (_root m) (_read m) (_write m) (_config_fn m) (_config m)
          (_staticmaps m) (_staticgeoms m) (_forcing m) (_states m) d (logger m).

Definition with_logger (l : list log_record) (m : Model) : Model :=
  mkModel (_root m) (_read m) (_write m) (_config_fn m) (_config m)
          (_staticmaps m) (_staticgeoms m) (_forcing m) (_states m) (_results m) l.

(** a change of [self] inside the world *)
Definition on_model (f : Model -> Model) (w : World) : World :=
  mkWorld (f (mdl w)) (fs w).

(** a computation on the file system, run in the world *)
Definition in_fs {A : Type} (c : M FS A) : M World A :=
  zoom fs (fun f w => mkWorld (mdl w) f) c.

(** [self.logger.<lvl>(msg)] *)
Definition log (r : log_record) : M World unit :=
  modify (on_model (fun m => with_logger (logger m ++ [r]) m)).

(** [self.<field>] *)
Definition self {A : Type} (field : Model -> A) : M World A :=
  gets (fun w => field (mdl w)).

(** ** Root and mode, configuration *)

Section BaseMethods.
Context {C : ModelConsts}.

(** property [root] *)
Definition root : M World string :=
  r <- self _root ;;
  match r with
  | None => raise ValueError "Root unknown, use set_root method"
  | Some p => ret p
  end.

(** [set_root(root, mode)] *)
Definition set_root (root : option string) (mode : string) : M World unit :=
  if negb (existsb (String.eqb mode) ["r"; "r+"; "w"]) then
    raise ValueError ("mode " +++ Str.quoted mode +++ " unknown, select from "
                      +++ Str.quoted "r" +++ ", " +++ Str.quoted "r+" +++ " or "
                      +++ Str.quoted "w")
  else
    modify (on_model (with_root (option_map abspath root)
                                (String.prefix "r" mode)
                                (negb (String.eqb mode "r")))) ;;;
    match root with
    | None => ret tt
    | Some r =>
        wr <- self _write ;;
        if wr then
          for_each _FOLDERS (fun name =>
            let path := join (abspath r) name in
            f <- gets fs ;;
            if negb (isdir f path) then in_fs (makedirs path)
            else
              rd <- self _read ;;
              when (negb rd)
                (log (Log WARNING ("Model dir already exists and files might be overwritten: "
                                   +++ path +++ "."))))
        else
          f <- gets fs ;;
          if negb (isdir f (abspath r)) then
            raise IOError ("model root not found at " +++ Str.quoted (abspath r))
          else ret tt
    end.

(** [read_config(config_fn)] *)
Definition read_config (config_fn : option string) : M World unit :=
  when (match config_fn with Some _ => true | None => false end)
       (modify (on_model (with_config_fn config_fn))) ;;;
  rd <- self _read ;;
  cfdict <-
    (if negb rd then
       let fn_def := join (join _DATADIR _NAME) _CONF in
       f <- gets fs ;;
       if isfile f fn_def then
         log (Log DEBUG ("Default config read from " +++ fn_def)) ;;;
         ret (configread f fn_def)
       else ret []
     else
       r <- root ;;
       cfn <- self _config_fn ;;
       match cfn with
       | None => ret []
       | Some cfn =>
           let fn := join r cfn in
           f <- gets fs ;;
           if isfile f fn then
             log (Log DEBUG ("Model config read from " +++ fn)) ;;;
             ret (configread f fn)
           else ret []
       end) ;;
  modify (on_model (with_config cfdict)).

(** [not d] for a dictionary *)
Definition is_empty {V : Type} (d : list (string * V)) : bool :=
  match d with
  | [] => true
  | _ :: _ => false
  end.

(** property [config] *)
Definition config : M World dict :=
  c <- self _config ;;
  when (is_empty c) (read_config None) ;;;
  self _config.

(** the keys of [set_config] and [get_config]: one key with a dot in it is
    split at the dots *)
Definition split_keys (args : list string) : list string :=
  match args with
  | [k] => if Str.contains_char "."%char k then Str.split "."%char k ++ [] else args
  | _ => args
  end.

(** [(args[:-1], args[-1])], when [args] is not empty *)
Fixpoint init_last (args : list string) : option (list string * string) :=
  match args with
  | [] => None
  | k :: rest =>
      match init_last rest with
      | None => Some ([], k)
      | Some (i, l) => Some (k :: i, l)
      end
  end.

(** The walk of [set_config] down the tree: a missing level and a level that
    is not a dictionary become an empty dictionary; the last key is assigned. *)
Fixpoint set_branch (branch : dict) (keys : list string) (last : string) (v : value) : dict :=
  match keys with
  | [] => ODict.set last v branch
  | key :: rest =>
      let sub :=
        match ODict.get key branch with
        | Some (VDict d) => d
        | _ => []
        end in
      ODict.set key (VDict (set_branch sub rest last v)) branch
  end.

(** [set_config] called with the keys [keys] and the value [v].  The
    TypeError for fewer than two arguments is built and not raised in the
    source, so that without a key the method fails on the index of the
    last key. *)
Definition set_config (keys : list string) (v : value) : M World unit :=
  wr <- self _write ;;
  if negb wr then raise IOError "Model opened in read-only mode"
  else
    c <- config ;;
    when (is_empty c) (modify (on_model (with_config []))) ;;;
    match init_last (split_keys keys) with
    | None => raise IndexError "list index out of range"
    | Some (init, last) =>
        modify (on_model (fun m => with_config (set_branch (_config m) init last v) m))
    end.

(** [setup_config] called with the keyword arguments [cfdict] *)
Definition setup_config (cfdict : dict) : M World unit :=
  when (negb (is_empty cfdict)) (log (Log DEBUG "Setting model config options.")) ;;;
  for_each cfdict (fun kv => set_config [fst kv] (snd kv)).

(** The walk of [get_config]: a missing level reads as an empty dictionary,
    a level that is not a dictionary stops the walk with an empty one. *)
Fixpoint get_branch (branch : dict) (keys : list string) : dict :=
  match keys with
  | [] => branch
  | key :: rest =>
      match ODict.get key branch with
      | None => get_branch [] rest
      | Some (VDict d) => get_branch d rest
      | Some _ => []
      end
  end.

(** [get_config] called with the keys [keys] *)
Definition get_config (keys : list string) (fallback : value) (abs_path : bool) : M World value :=
  match init_last (split_keys keys) with
  | None => raise IndexError "list index out of range"
  | Some (init, last) =>
      c <- self _config ;;
      let v :=
        match ODict.get last (get_branch c init) with
        | Some v => v
        | None => fallback
        end in
      match abs_path, v with
      | true, VStr s =>
          if String.prefix "/" s then ret (VPath s)
          else r <- root ;; ret (VPath (abspath (join r s)))
      | _, _ => ret v
      end
  end.

(** ** Component setters *)

(** [data.rename_vars({old: new})] *)
Definition rename_vars (old new : string) (dv : dataset) : dataset :=
  map (fun kv => (if String.eqb (fst kv) old then new else fst kv, snd kv)) dv.

(** [data[[name]]]: the dataset with the one variable [name] *)
Definition select_var (name : string) (dv : dataset) : dataset :=
  filter (fun kv => String.eqb (fst kv) name) dv.

Definition in_list (k : string) (l : list string) : bool := existsb (String.eqb k) l.

Definition shape_eqb (s1 s2 : list nat) : bool :=
  if list_eq_dec Nat.eq_dec s1 s2 then true else false.

(** First part of [set_staticmaps]: the name and the payload after the
    checks on [name]. *)
Definition staticmaps_name (d : data) (name : option string) : result (data * option string) :=
  match name with
  | None =>
      match d with
      | DataArray (Some n) _ => Ok (d, Some n)
      | Dataset _ => Ok (d, None)
      | _ => Raise (mkExn ValueError "Setting a map requires a name")
      end
  | Some n =>
      match d with
      | Dataset dv =>
          let data_vars := ODict.keys dv in
          if Nat.eqb (length data_vars) 1 && negb (in_list n data_vars) then
            Ok (Dataset (rename_vars (hd "" data_vars) n dv), name)
          else if negb (in_list n data_vars) then
            Raise (mkExn ValueError "Name not found in DataSet")
          else Ok (Dataset (select_var n dv), name)
      | _ => Ok (d, name)
      end
  end.

(** [data.name = name; data = data.to_dataset()] for a DataArray *)
Definition as_dataset (d : data) (name : option string) : data :=
  match d, name with
  | DataArray _ a, Some n => Dataset [(n, a)]
  | d', _ => d'
  end.

(** the error of xarray for an array that does not fit the dataset *)
Definition conflicting_sizes : exn :=
  mkExn ValueError "conflicting sizes for dimension".

(** The body of the loop of [set_staticmaps] over the variables of the
    payload: an existing variable is overwritten in a writable mode only,
    and the assignment to the dataset raises when xarray refuses the
    array. *)
Definition store_map (kv : string * array) : M World unit :=
  let dvar := fst kv in
  sm <- self _staticmaps ;;
  (if ODict.mem dvar sm then
     wr <- self _write ;;
     if negb wr then
       raise IOError ("Cannot overwrite staticmap " +++ dvar +++ " in read-only mode")
     else
       rd <- self _read ;;
       when rd (log (Log WARNING ("Overwriting staticmap: " +++ dvar)))
   else ret tt) ;;;
  if conflicts sm dvar (snd kv) then lift_result (Raise conflicting_sizes)
  else
    modify (on_model (fun m => with_staticmaps (ODict.set dvar (snd kv) (_staticmaps m)) m)).

(** [set_staticmaps(data, name)] *)
Definition set_staticmaps (d : data) (name : option string) : M World unit :=
  dn <- lift_result (staticmaps_name d name) ;;
  let name := snd dn in
  let d := as_dataset (fst dn) name in
  sm <- self _staticmaps ;;
  if Nat.eqb (length sm) 0 then
    match d with
    | Dataset dv => modify (on_model (with_staticmaps dv))
    | _ => raise ValueError "First parameter map(s) should xarray.Dataset"
    end
  else
    d <-
      match d, name with
      | NdArray a, Some n =>
          if negb (shape_eqb (arr_shape a) (rio_shape sm)) then
            raise ValueError "Shape of data and staticmaps do not match"
          else ret (Dataset [(n, a)])
      | d', _ => ret d'
      end ;;
    match d with
    | Dataset dv => for_each dv store_map
    | _ => raise AttributeError "object has no attribute data_vars"
    end.

(** [isinstance(geom, GeoDataFrame)] or [isinstance(geom, GeoSeries)] *)
Definition is_geo (geom : data) : bool :=
  match geom with
  | GeoDataFrame _ | GeoSeries _ => true
  | _ => false
  end.

(** The assignment of [set_staticgeoms]: an existing geometry is
    overwritten in a writable mode only. *)
Definition store_geom (kv : string * data) : M World unit :=
  let name := fst kv in
  sg <- self _staticgeoms ;;
  (if ODict.mem name sg then
     wr <- self _write ;;
     if negb wr then
       raise IOError ("Cannot overwrite staticgeom " +++ name +++ " in read-only mode")
     else
       rd <- self _read ;;
       when rd (log (Log WARNING ("Overwriting staticgeom: " +++ name)))
   else ret tt) ;;;
  modify (on_model (fun m => with_staticgeoms (ODict.set name (snd kv) (_staticgeoms m)) m)).

(** [set_staticgeoms(geom, name)] *)
Definition set_staticgeoms (geom : data) (name : string) : M World unit :=
  if negb (is_geo geom) then
    raise ValueError
      "First parameter map(s) should be geopandas.GeoDataFrame or geopandas.GeoSeries"
  else store_geom (name, geom).

(** [set_forcing], [set_states] and [set_results] are the same method up to
    the attribute they fill and the words of their messages. *)
Inductive kind : Type := Forcing | States | Results.

Definition field (k : kind) : Model -> list (string * array) :=
  match k with
  | Forcing => _forcing
  | States => _states
  | Results => _results
  end.

Definition with_field (k : kind) : list (string * array) -> Model -> Model :=
  match k with
  | Forcing => with_forcing
  | States => with_states
  | Results => with_results
  end.

Definition cannot_replace (k : kind) (name : string) : string :=
  match k with
  | Forcing => "Cannot replace forcing " +++ name +++ " in read-only mode"
  | States => "Cannot replace state " +++ name +++ " in read-only mode"
  | Results => "Cannot replace results " +++ name +++ " in read-only mode"
  end.

Definition replacing (k : kind) (name : string) : string :=
  match k with
  | Forcing => "Replacing forcing: " +++ name
  | States => "Replacing state: " +++ name
  | Results => "Replacing result: " +++ name
  end.

(** The payload as a dictionary of named arrays. *)
Definition named_arrays (d : data) (name : option string) : result (list (string * array)) :=
  match d with
  | DataArray dname a =>
      match dname, name with
      | None, Some n => Ok [(n, a)]
      | Some dn, None => Ok [(dn, a)]
      | None, None => Raise (mkExn ValueError "Name required for forcing DataArray.")
      | Some _, Some n => Ok [(n, a)]
      end
  | Dataset dv => Ok dv
  | _ => Raise (mkExn ValueError "Data type not recognized")
  end.

(** The body of the loop of the three setters over the named arrays: an
    existing name is replaced in a writable mode only. *)
Definition store_array (k : kind) (kv : string * array) : M World unit :=
  let name := fst kv in
  cur <- self (field k) ;;
  (if ODict.mem name cur then
     wr <- self _write ;;
     if negb wr then raise IOError (cannot_replace k name)
     else log (Log WARNING (replacing k name))
   else ret tt) ;;;
  modify (on_model (fun m => with_field k (ODict.set name (snd kv) (field k m)) m)).

Definition set_arrays (k : kind) (d : data) (name : option string) : M World unit :=
  named <- lift_result (named_arrays d name) ;;
  for_each named (store_array k).

Definition set_forcing : data -> option string -> M World unit := set_arrays Forcing.
Definition set_states : data -> option string -> M World unit := set_arrays States.
Definition set_results : data -> option string -> M World unit := set_arrays Results.

End BaseMethods.

(** ** Method resolution, validation and dispatch *)

(** A call of a method of the concrete class, as it is dispatched. *)
Inductive event : Type :=
| EvCall (method : string) (args : list value) (kwargs : dict).

(** A run of [build] or [update]: the option mapping object that the caller
    passed (the methods work on that very object), the calls dispatched so
    far, and the model with its file system. *)
Record Run : Type := mkRun { opt : optmap; trace : list event; world : World }.

Definition in_world {A : Type} (c : M World A) : M Run A :=
  zoom world (fun w r => mkRun (opt r) (trace r) w) c.

Definition set_opt (o : optmap) : M Run unit :=
  modify (fun r => mkRun o (trace r) (world r)).

Definition record_call (e : event) : M Run unit :=
  modify (fun r => mkRun (opt r) (trace r ++ [e]) (world r)).

(** What a computation of a run does to the model; the calls it makes are
    not entered in a trace. *)
Definition quiet {A : Type} (c : M Run A) : M World A :=
  fun w => let (x, r) := c (mkRun [] [] w) in (x, world r).

(** [m = method.strip(digits)] *)
Definition canonical (method : string) : string := Str.strip "0123456789" method.

(** [list(enumerate(l))] *)
Definition enumerate {A : Type} (l : list A) : list (nat * A) :=
  combine (seq 0 (length l)) l.

(** [opt.pop(k, {})] on the caller's mapping *)
Definition pop_opt (k : string) : M Run dict :=
  o <- gets opt ;;
  set_opt (snd (ODict.pop k [] o)) ;;;
  ret (fst (ODict.pop k [] o)).

Section Orchestration.
Context {MC : ModelClass}.

(** A call [self.name(...)] of a method of the concrete class, for the
    names that the base class calls this way (read, write and the readers of
    the components), none of which is a property of the base class. *)
Definition call_attr (name : string) (args : list value) (kwargs : dict) : M Run value :=
  match attrs name with
  | None => raise AttributeError ("Model object has no attribute " +++ name)
  | Some (Data _) => raise TypeError "object is not callable"
  | Some (Callable _ impl) =>
      record_call (EvCall name args kwargs) ;;;
      in_world (impl args kwargs)
  | Some (Property getter) =>
      a <- in_world getter ;;
      match a with
      | Callable _ impl =>
          record_call (EvCall name args kwargs) ;;;
          in_world (impl args kwargs)
      | _ => raise TypeError "object is not callable"
      end
  end.

(** ** Lazy component properties and the region *)

(** property [staticmaps] *)
Definition staticmaps : M Run dataset :=
  sm <- in_world (self _staticmaps) ;;
  when (Nat.eqb (length sm) 0)
    (rd <- in_world (self _read) ;;
     if rd then call_attr "read_staticmaps" [] [] ;;; ret tt
     else in_world (log (Log WARNING "No staticmaps defined"))) ;;;
  in_world (self _staticmaps).

(** property [staticgeoms] *)
Definition staticgeoms : M Run (list (string * data)) :=
  sg <- in_world (self _staticgeoms) ;;
  when (is_empty sg)
    (rd <- in_world (self _read) ;;
     when rd (call_attr "read_staticgeoms" [] [] ;;; ret tt)) ;;;
  in_world (self _staticgeoms).

(** the reader that the lazy property of a collection calls *)
Definition reader (k : kind) : string :=
  match k with
  | Forcing => "read_forcing"
  | States => "read_states"
  | Results => "read_results"
  end.

(** The properties [forcing], [states] and [results]: the collection is read
    when it is empty and the model reads from disk. *)
Definition arrays (k : kind) : M Run (list (string * array)) :=
  cur <- in_world (self (field k)) ;;
  when (is_empty cur)
    (rd <- in_world (self _read) ;;
     when rd (call_attr (reader k) [] [] ;;; ret tt)) ;;;
  in_world (self (field k)).

Definition forcing : M Run (list (string * array)) := arrays Forcing.
Definition states : M Run (list (string * array)) := arrays States.
Definition results : M Run (list (string * array)) := arrays Results.

(** property [region]: the cached geometry, else the box of the maps *)
Definition region : M Run (option data) :=
  sg <- staticgeoms ;;
  match ODict.get "region" sg with
  | Some g => ret (Some g)
  | None =>
      sm <- staticmaps ;;
      if Nat.ltb 0 (length sm) then ret (Some (GeoDataFrame (bounds_geom sm)))
      else ret None
  end.

(** ** Attribute lookup *)

(** the properties that pass on an attribute of [staticmaps.rio] *)
Definition rio_properties : list string :=
  ["crs"; "dims"; "coords"; "res"; "transform"; "width"; "height"; "shape"; "bounds"].

(** The properties of the base class, each with what evaluating it does and
    the value it returns; [VObj 0] stands for a dataset, a dictionary of
    arrays or a geometry. *)
Definition base_property (name : string) : option (M World value) :=
  if String.eqb name "root" then Some (p <- root ;; ret (VStr p))
  else if String.eqb name "config" then Some (c <- config ;; ret (VDict c))
  else if String.eqb name "staticmaps" then Some (quiet staticmaps ;;; ret (VObj 0))
  else if String.eqb name "staticgeoms" then Some (quiet staticgeoms ;;; ret (VObj 0))
  else if String.eqb name "forcing" then Some (quiet forcing ;;; ret (VObj 0))
  else if String.eqb name "states" then Some (quiet states ;;; ret (VObj 0))
  else if String.eqb name "results" then Some (quiet results ;;; ret (VObj 0))
  else if String.eqb name "region" then
    Some (g <- quiet region ;; ret match g with Some _ => VObj 0 | None => VNone end)
  else if in_list name rio_properties then
    Some (sm <- quiet staticmaps ;; lift_result (rio_attr name sm))
  else None.

(** [getattr(self, name)]: what the class gives for the name, a property
    being evaluated; then the properties of the base class; else
    AttributeError. *)
Definition getattr (name : string) : M World attr :=
  match attrs name with
  | Some (Property getter) => getter
  | Some a => ret a
  | None =>
      match base_property name with
      | Some getter => v <- getter ;; ret (Data v)
      | None => raise AttributeError ("Model object has no attribute " +++ name)
      end
  end.

Definition is_attribute_error (e : exn) : bool :=
  match exn_cls e with
  | AttributeError => true
  | _ => false
  end.

(** [getattr(self, name, None)]: an AttributeError, also one that a property
    raises, gives [None]; any other error of a property goes through. *)
Definition getattr_or_none (name : string) : M World (option attr) :=
  fun w =>
    match getattr name w with
    | (Ok a, w') => (Ok (Some a), w')
    | (Raise e, w') => if is_attribute_error e then (Ok None, w') else (Raise e, w')
    end.

(** [callable(x)] for what a lookup gave *)
Definition callable (a : option attr) : bool :=
  match a with
  | Some (Callable _ _) => true
  | _ => false
  end.

(** [hasattr(self, name)]: the lookup once more *)
Definition hasattr (name : string) : M World bool :=
  a <- getattr_or_none name ;;
  ret match a with Some _ => true | None => false end.

(** the two errors of [_check_get_opt] for the key [method] *)
Definition use_full_name (method : string) : exn :=
  mkExn DeprecationWarning
    ("Use full name " +++ Str.quoted ("setup_" +++ method)
     +++ " instead of " +++ Str.quoted method).

Definition has_no_method (method : string) : exn :=
  mkExn ValueError ("Model " +++ _NAME +++ " has no method " +++ Str.quoted method).

(** The loop of [_check_get_opt] over the keys. *)
Fixpoint check_keys (methods : list string) : M World unit :=
  match methods with
  | [] => ret tt
  | method :: rest =>
      let m := canonical method in
      a <- getattr_or_none m ;;
      if negb (callable a) then
        known <- hasattr m ;;
        if negb known then
          short <- hasattr ("setup_" +++ m) ;;
          if short then lift_result (Raise (use_full_name method))
          else lift_result (Raise (has_no_method method))
        else lift_result (Raise (has_no_method method))
      else check_keys rest
  end.

(** [_check_get_opt(opt)] *)
Definition _check_get_opt (o : optmap) : M World optmap :=
  check_keys (ODict.keys o) ;;; ret o.

(** The debug records of [_run_log_method]: for each declared parameter the
    keyword argument, else the default, else the positional argument. *)
Definition log_params (method : string) (signature : list (string * option value))
  (args : list value) (kwargs : dict) : M World unit :=
  for_each (enumerate signature) (fun ikv =>
    let i := fst ikv in
    let k := fst (snd ikv) in
    let v :=
      match ODict.get k kwargs with
      | Some v => Some v
      | None => snd (snd ikv)
      end in
    match v with
    | Some v => log (LogParam method k v)
    | None =>
        match nth_error args i with
        | Some v => log (LogParam method k v)
        | None => ret tt
        end
    end).

(** [_run_log_method] called with [method], positional [args] and keyword
    [kwargs].  A keyword argument named like one of the two parameters of
    [_run_log_method] itself cannot be bound.  The attribute is looked up
    with [getattr]; [inspect.signature] raises TypeError for what is not
    callable. *)
Definition _run_log_method (method : string) (args : list value) (kwargs : dict) : M Run value :=
  if ODict.mem "self" kwargs || ODict.mem "method" kwargs then
    raise TypeError "_run_log_method() got multiple values for argument"
  else
    let method := canonical method in
    a <- in_world (getattr method) ;;
    match a with
    | Callable signature impl =>
        in_world (log_params method signature args kwargs) ;;;
        record_call (EvCall method args kwargs) ;;;
        in_world (impl args kwargs)
    | _ => raise TypeError "object is not a callable object"
    end.

(** ** build and update *)

(** the loop of [build] and [update] over the entries left in [opt] *)
Definition run_entries : M Run unit :=
  o <- gets opt ;;
  for_each o (fun kv => _run_log_method (fst kv) [] (snd kv) ;;; ret tt).

(** the keyword arguments of the forced [setup_basemaps] call of [build] *)
Definition basemaps_kwargs (region res : value) (kwargs : dict) : dict :=
  let kwargs := ODict.update [("region", region)] kwargs in
  if negb (is_None res) then ODict.update [("res", res)] kwargs else kwargs.

(** [build(region, res, write, opt)]; [opt] is the mapping of the run *)
Definition build (region res : value) (write : bool) : M Run unit :=
  o <- gets opt ;;
  in_world (_check_get_opt o) ;;;
  kw <- pop_opt "setup_config" ;;
  _run_log_method "setup_config" [] kw ;;;
  kwargs <- pop_opt "setup_basemaps" ;;
  _run_log_method "setup_basemaps" [] (basemaps_kwargs region res kwargs) ;;;
  run_entries ;;;
  when write (call_attr "write" [] [] ;;; ret tt).

Definition model_out_required : exn :=
  mkExn ValueError (Str.quoted "model_out" +++ " directory required when updating in "
                    +++ Str.quoted "read-only" +++ " mode").

(** [update], the block that reads the current model *)
Definition update_read (model_out : option string) : M Run unit :=
  wr <- in_world (self _write) ;;
  if negb wr then
    match model_out with
    | None => lift_result (Raise model_out_required)
    | Some _ =>
        call_attr "read" [] [] ;;;
        in_world (set_root model_out "w")
    end
  else ret tt.

Definition region_not_found : exn :=
  mkExn ValueError ("Model region not found, setup basemaps using "
                    +++ Str.quoted "build" +++ " method first.").

(** [update], the check that the model has a region *)
Definition update_check_region : M Run unit :=
  r <- region ;;
  match r with
  | None => lift_result (Raise region_not_found)
  | Some _ => ret tt
  end.

(** [update], from the removal of [setup_basemaps] to the end *)
Definition update_run (write : bool) : M Run unit :=
  o <- gets opt ;;
  when (ODict.mem "setup_basemaps" o)
    (_ <- pop_opt "setup_basemaps" ;;
     in_world (log (Log WARNING (Str.quoted "setup_basemaps"
                                 +++ " can only be called when building a model.")))) ;;;
  kw <- pop_opt "setup_config" ;;
  _run_log_method "setup_config" [] kw ;;;
  run_entries ;;;
  when write (call_attr "write" [] [] ;;; ret tt).

(** [update(model_out, write, opt)]; [opt] is the mapping of the run *)
Definition update (model_out : option string) (write : bool) : M Run unit :=
  o <- gets opt ;;
  in_world (_check_get_opt o) ;;;
  update_read model_out ;;;
  update_check_region ;;;
  update_run write.

End Orchestration.

(** ** The constructor, the bodies of the abstract readers *)

Section Construction.
Context {C : ModelConsts}.

(** the object at the start of [__init__], with [_config_fn] set *)
Definition blank (config_fn : option string) : Model :=
  mkModel None false false
          (Some match config_fn with Some fn => fn | None => _CONF end)
          [] [] [] [] [] [] [].

(** the placeholders that [__init__] assigns after [set_root] *)
Definition placeholders (m : Model) : Model :=
  with_results [] (with_states [] (with_config [] (with_forcing []
    (with_staticgeoms [] (with_staticmaps [] m))))).

(** [Model(root, mode, config_fn)] on the file system [f]: the outcome of
    the constructor and the object it leaves; the data catalog is left out. *)
Definition __init__ (root : option string) (mode : string) (config_fn : option string)
  (f : FS) : result unit * World :=
  (set_root root mode ;;; modify (on_model placeholders)) (mkWorld (blank config_fn) f).

Definition not_implemented : exn := mkExn NotImplementedError "".

(** The body of the abstract [read_staticmaps]: out of a writable mode the
    maps start fresh; the method itself is left to the subclass. *)
Definition read_staticmaps : M World unit :=
  wr <- self _write ;;
  when (negb wr) (modify (on_model (with_staticmaps []))) ;;;
  lift_result (Raise not_implemented).

(** the body of the abstract [read_staticgeoms] *)
Definition read_staticgeoms : M World unit :=
  wr <- self _write ;;
  when (negb wr) (modify (on_model (with_staticgeoms []))) ;;;
  lift_result (Raise not_implemented).

(** the body of the abstract [read_forcing], [read_states], [read_results] *)
Definition read_arrays (k : kind) : M World unit :=
  wr <- self _write ;;
  when (negb wr) (modify (on_model (with_field k []))) ;;;
  lift_result (Raise not_implemented).

Definition read_forcing : M World unit := read_arrays Forcing.
Definition read_states : M World unit := read_arrays States.
Definition read_results : M World unit := read_arrays Results.

End Construction.

(** ** The canonical name, in the words of the specification *)

Definition is_digit (c : ascii) : bool := Str.contains_char c "0123456789".

Fixpoint drop_while (p : ascii -> bool) (l : list ascii) : list ascii :=
  match l with
  | [] => []
  | c :: rest => if p c then drop_while p rest else l
  end.

(** The specification's canonical name: the key without its trailing run of
    decimal digits, and nothing else removed. *)
Definition strip_trailing_digits (key : string) : string :=
  string_of_list_ascii (rev (drop_while is_digit (rev (list_ascii_of_string key)))).

(** ** A small concrete model class *)

Module Demo.

(** the method of the base class, as an attribute *)
Definition setup_config_impl {C : ModelConsts} : method_impl :=
  fun args kwargs =>
    match args with
    | [] => setup_config kwargs ;;; ret VNone
    | _ :: _ => raise TypeError "setup_config() takes 1 positional argument"
    end.

(** a basemap method that caches the region geometry *)
Definition setup_basemaps_impl {C : ModelConsts} : method_impl :=
  fun args kwargs =>
    match ODict.get "region" kwargs with
    | None => raise TypeError "setup_basemaps() missing 1 required argument"
    | Some _ => set_staticgeoms (GeoDataFrame 1) "region" ;;; ret VNone
    end.

Definition noop_impl : method_impl := fun _ _ => ret VNone.

(** A small file system.  A path is read by its components.  A directory
    is the root, a path under which directories were made, a path above
    such a one, or a path above a file.  [os.makedirs] raises when a file
    or a directory is at the path, or a file above it. *)
Definition parts (p : string) : list string :=
  filter (fun s => negb (String.eqb s "")) (Str.split "/"%char p).

Fixpoint is_prefix (a b : list string) : bool :=
  match a, b with
  | [], _ => true
  | x :: a', y :: b' => String.eqb x y && is_prefix a' b'
  | _ :: _, [] => false
  end.

Definition above (p q : string) : bool :=
  is_prefix (parts p) (parts q) && negb (is_prefix (parts q) (parts p)).

Definition same_path (p q : string) : bool :=
  is_prefix (parts p) (parts q) && is_prefix (parts q) (parts p).

Definition demo_isdir (f : FS) (p : string) : bool :=
  existsb (fun d => is_prefix (parts p) (parts d)) ("/" :: dirs f)
  || existsb (fun kv => above p (fst kv)) (config_files f).

Definition demo_makedirs (p : string) : M FS unit :=
  fun f =>
    if existsb (fun kv => same_path (fst kv) p) (config_files f) then
      (Raise (mkExn FileExistsError ("File exists: " +++ p)), f)
    else if existsb (fun kv => above (fst kv) p) (config_files f) then
      (Raise (mkExn NotADirectoryError ("Not a directory: " +++ p)), f)
    else if demo_isdir f p then
      (Raise (mkExn FileExistsError ("File exists: " +++ p)), f)
    else (Ok tt, mkFS (p :: dirs f) (config_files f)).

(** the grid of a dataset is that of its first variable; an array of
    another shape is refused *)
Definition demo_shape (ds : dataset) : list nat :=
  match ds with
  | [] => []
  | kv :: _ => arr_shape (snd kv)
  end.

Definition demo_conflicts (ds : dataset) (n : string) (a : array) : bool :=
  match ds with
  | [] => false
  | _ :: _ => negb (shape_eqb (arr_shape a) (demo_shape ds))
  end.

#[local] Instance demo_consts : ModelConsts.
Proof.
  refine {|
    _NAME := "modelname";
    _DATADIR := "";
    _CONF := "model.ini";
    _FOLDERS := [""];
    abspath := fun p => if String.prefix "/" p then p else "/cwd/" +++ p;
    isdir := demo_isdir;
    makedirs := demo_makedirs;
    makedirs_isdir := _;
    makedirs_keeps_dirs := _;
    makedirs_keeps_files := _;
    rio_shape := demo_shape;
    bounds_geom := fun _ => 0;
    rio_attr := fun _ _ => Ok (VObj 0);
    conflicts := demo_conflicts;
    same_shape_fits := _
  |}.
  - intros p f f'. unfold demo_makedirs.
    destruct (existsb (fun kv => same_path (fst kv) p) (config_files f)); [discriminate|].
    destruct (existsb (fun kv => above (fst kv) p) (config_files f)); [discriminate|].
    destruct (demo_isdir f p); [discriminate|].
    intros H. injection H as <-. unfold demo_isdir. cbn [dirs existsb].
    assert (Hrefl : forall l, is_prefix l l = true).
    { induction l as [|x l IH]; cbn [is_prefix]; [reflexivity|].
      now rewrite String.eqb_refl, IH. }
    rewrite (Hrefl (parts p)). now rewrite orb_true_r.
  - intros p q f H. unfold demo_makedirs.
    destruct (existsb (fun kv => same_path (fst kv) p) (config_files f)); [exact H|].
    destruct (existsb (fun kv => above (fst kv) p) (config_files f)); [exact H|].
    destruct (demo_isdir f p); [exact H|].
    cbn [snd]. unfold demo_isdir in *. cbn [dirs config_files existsb] in *.
    apply orb_true_iff in H as [H|H]; [|now rewrite H, orb_true_r].
    apply orb_true_iff in H as [H|H]; [now rewrite H|].
    now rewrite H, !orb_true_r.
  - intros p f. unfold demo_makedirs.
    destruct (existsb (fun kv => same_path (fst kv) p) (config_files f)); [reflexivity|].
    destruct (existsb (fun kv => above (fst kv) p) (config_files f)); [reflexivity|].
    destruct (demo_isdir f p); reflexivity.
  - intros sm n a H. destruct sm as [|kv sm]; [reflexivity|].
    unfold demo_conflicts, shape_eqb. rewrite H.
    now destruct (list_eq_dec Nat.eq_dec (demo_shape (kv :: sm)) (demo_shape (kv :: sm))).
Defined.

Definition demo_attrs (name : string) : option attr :=
  if String.eqb name "setup_config" then Some (Callable [("cfdict", None)] setup_config_impl)
  else if String.eqb name "setup_basemaps" then
    Some (Callable [("region", None); ("res", Some (VInt 1))] setup_basemaps_impl)
  else if String.eqb name "setup_rivers" then
    Some (Callable [("river_upa", Some (VInt 30))] noop_impl)
  else if String.eqb name "setup_lakes" then Some (Callable [] noop_impl)
  else if String.eqb name "read" then Some (Callable [] noop_impl)
  else if String.eqb name "write" then Some (Callable [] noop_impl)
  else None.

#[local] Instance demo : ModelClass := {| consts := demo_consts; attrs := demo_attrs |}.

(** a fresh model: no root, the given mode flags, every collection empty *)
Definition fresh (rd wr : bool) : Model :=
  mkModel None rd wr (Some "model.ini") [] [] [] [] [] [] [].

Definition empty_fs : FS := mkFS [] [].

Definition start (rd wr : bool) (o : optmap) : Run :=
  mkRun o [] (mkWorld (fresh rd wr) empty_fs).

(** an option mapping that names the forced entries after another one *)
Definition some_opt : optmap :=
  [("setup_rivers", [("river_upa", VInt 10)]);
   ("setup_basemaps", [("hydrography_fn", VStr "merit_hydro"); ("res", VInt 5)]);
   ("setup_config", [("global.name", VStr "test")]);
   ("setup_lakes2", [])].

(** a small grid of numbers *)
Definition grid : array := mkArray [2; 3] 7.

(** a fresh model in the given mode, on an empty file system *)
Definition fresh_world (rd wr : bool) : World := mkWorld (fresh rd wr) empty_fs.

Definition some_region : value :=
  VDict [("bbox", VList [VInt 12; VInt 45; VInt 13; VInt 46])].

(** a class that leaves the readers of the forcing and of the geometries to
    the bodies of the base class *)
Definition plain_attrs (name : string) : option attr :=
  if String.eqb name "read_forcing" then
    Some (Callable [] (fun _ _ => read_forcing ;;; ret VNone))
  else if String.eqb name "read_staticgeoms" then
    Some (Callable [] (fun _ _ => read_staticgeoms ;;; ret VNone))
  else demo_attrs name.

#[local] Instance plain : ModelClass := {| consts := demo_consts; attrs := plain_attrs |}.

(** a model with an entry in each of the maps, the geometries and the
    forcing *)
Definition loaded (rd wr : bool) : World :=
  mkWorld (mkModel None rd wr (Some "model.ini") []
                   [("dem", grid)] [("region", GeoDataFrame 1)] [("precip", grid)] [] [] [])
          empty_fs.

(** another grid, of the same shape *)
Definition grid2 : array := mkArray [2; 3] 8.

(** a writable model with a configuration *)
Definition configured : World :=
  mkWorld (with_config [("global", VStr "flat"); ("other", VInt 1)] (fresh false true))
          empty_fs.

End Demo.

(** ** Vocabulary of the statements *)

(** [done] is an initial part of [evs] *)
Definition prefix_of (done evs : list event) : Prop := exists rest, evs = done ++ rest.

(** Run from a state whose option mapping is [o], the computation [c]
    dispatches an initial part of the calls [evs], in that order; when it
    returns normally it has dispatched all of them and the option mapping
    is [o']. *)
Definition step {A : Type} (c : M Run A) (o o' : optmap) (evs : list event) : Prop :=
  forall r, opt r = o ->
    exists done,
      trace (snd (c r)) = trace r ++ done /\
      prefix_of done evs /\
      (is_ok (fst (c r)) = true -> done = evs /\ opt (snd (c r)) = o').

(** [c] leaves the option mapping as it is, whatever its outcome *)
Definition keeps_opt {A : Type} (c : M Run A) : Prop :=
  forall r, opt (snd (c r)) = opt r.

(** the caller's entry for the key [k], an empty dictionary when absent *)
Definition entry (k : string) (o : optmap) : dict :=
  match ODict.get k o with
  | Some kw => kw
  | None => []
  end.

(** the calls of the entries of [o], in the order of [o] *)
Definition entry_calls (o : optmap) : list event :=
  map (fun kv => EvCall (canonical (fst kv)) [] (snd kv)) o.

(** The calls of a complete [build] with the option mapping [o]. *)
Definition build_plan (region res : value) (write : bool) (o : optmap) : list event :=
  EvCall "setup_config" [] (entry "setup_config" o) ::
  EvCall "setup_basemaps" [] (basemaps_kwargs region res (entry "setup_basemaps" o)) ::
  entry_calls (ODict.remove "setup_basemaps" (ODict.remove "setup_config" o)) ++
  (if write then [EvCall "write" [] []] else []).

(** The calls of the last block of [update] with the option mapping [o]. *)
Definition update_plan (write : bool) (o : optmap) : list event :=
  EvCall "setup_config" [] (entry "setup_config" o) ::
  entry_calls (ODict.remove "setup_config" (ODict.remove "setup_basemaps" o)) ++
  (if write then [EvCall "write" [] []] else []).

(** [c], when it returns normally from a state whose option mapping is [o],
    leaves the option mapping [o'] *)
Definition opt_step {A : Type} (c : M Run A) (o o' : optmap) : Prop :=
  forall r, opt r = o -> is_ok (fst (c r)) = true -> opt (snd (c r)) = o'.

(** the option mapping without the two forced entries, the others in place *)
Definition without_forced (o : optmap) : optmap :=
  filter (fun kv => negb (String.eqb (fst kv) "setup_config")
                    && negb (String.eqb (fst kv) "setup_basemaps")) o.

(** a collection that takes every entry *)
Definition always {X : Type} : list (string * X) -> string * X -> bool := fun _ _ => true.

(** the maps take the array: xarray does not refuse the assignment *)
Definition fits_map {C : ModelConsts} (sm : dataset) (kv : string * array) : bool :=
  negb (conflicts sm (fst kv) (snd kv)).

(** What the body of a setter does to its collection [get], where [fits]
    tells whether the collection takes an entry.  In a writable mode, or
    with a new name, it stores an entry that fits and raises [no] for one
    that does not, leaving the collection as it is; when the model is not
    writable and the name is there it raises IOError and leaves the model
    as it is. *)
Record store_spec {X : Type} (get : Model -> list (string * X))
  (fits : list (string * X) -> string * X -> bool) (no : exn)
  (body : string * X -> M World unit) : Prop := {
  st_ok : forall kv w,
    _write (mdl w) = true \/ ODict.mem (fst kv) (get (mdl w)) = false ->
    fits (get (mdl w)) kv = true ->
    exists w',
      body kv w = (Ok tt, w') /\
      get (mdl w') = ODict.set (fst kv) (snd kv) (get (mdl w)) /\
      _write (mdl w') = _write (mdl w);
  st_ro : forall kv w,
    _write (mdl w) = false ->
    ODict.mem (fst kv) (get (mdl w)) = true ->
    exists e, body kv w = (Raise e, w) /\ exn_cls e = IOError;
  st_no : forall kv w,
    _write (mdl w) = true \/ ODict.mem (fst kv) (get (mdl w)) = false ->
    fits (get (mdl w)) kv = false ->
    exists w',
      body kv w = (Raise no, w') /\
      get (mdl w') = get (mdl w) /\
      _write (mdl w') = _write (mdl w)
}.

(** the collection, which starts as [cur], takes the entries [named] one
    after the other *)
Fixpoint accepted_by {X : Type} (fits : list (string * X) -> string * X -> bool)
  (cur named : list (string * X)) : bool :=
  match named with
  | [] => true
  | kv :: rest =>
      fits cur kv && accepted_by fits (ODict.set (fst kv) (snd kv) cur) rest
  end.

(** xarray accepts the assignments of the variables [dv] to the maps [sm],
    one after the other *)
Definition accepted {C : ModelConsts} (sm dv : dataset) : bool :=
  accepted_by fits_map sm dv.

(** the maps [sm] take the variables [dv]: maps that are empty take any
    dataset as it is *)
Definition takes {C : ModelConsts} (sm dv : dataset) : bool :=
  is_empty sm || accepted sm dv.

(** the maps [sm] once they have taken the variables [dv] *)
Definition maps_with (sm dv : dataset) : dataset :=
  if is_empty sm then dv else ODict.update dv sm.

(** some name of the payload [named] is in the collection [cur] *)
Definition present {X : Type} (named cur : list (string * X)) : bool :=
  existsb (fun n => ODict.mem n cur) (ODict.keys named).

(** Payloads of [set_staticmaps], each with the name it is given and the
    variables it brings: an array given with a name; a named array given
    without one; a dataset given without a name; a dataset of one variable
    given with a name. *)
Definition map_payloads (dn : option string) (n k : string) (a : array) (dv : dataset)
  : list (data * option string * dataset) :=
  [ (DataArray dn a, Some n, [(n, a)]);
    (DataArray (Some n) a, None, [(n, a)]);
    (Dataset dv, None, dv);
    (Dataset [(k, a)], Some n, [(n, a)]) ].

(** the name is a method of the class *)
Definition is_method {MC : ModelClass} (name : string) : bool :=
  match attrs name with
  | Some (Callable _ _) => true
  | _ => false
  end.

(** the class gives something for the name *)
Definition known {MC : ModelClass} (name : string) : bool :=
  match attrs name with
  | Some _ => true
  | None => false
  end.

(** looking the name up evaluates no property, of the class or of the base
    class *)
Definition plain {MC : ModelClass} (name : string) : bool :=
  match attrs name with
  | Some (Property _) => false
  | Some _ => true
  | None =>
      match base_property name with
      | Some _ => false
      | None => true
      end
  end.

(** [mode in ["r", "r+", "w"]] *)
Definition valid_mode (mode : string) : bool :=
  existsb (String.eqb mode) ["r"; "r+"; "w"].

(** the folders of the model under the root [r] *)
Definition folder_paths {C : ModelConsts} (r : string) : list string :=
  map (join (abspath r)) _FOLDERS.

(** the run [r] with the world [w] in it *)
Definition with_world (w : World) (r : Run) : Run := mkRun (opt r) (trace r) w.

(** the model and its file system as validation of the option mapping of
    the run leaves them: validation evaluates the properties that the keys
    name; for keys that name none, it is the world of the run *)
Definition validated {MC : ModelClass} (r : Run) : World :=
  snd (_check_get_opt (opt r) (world r)).

(** two calls of a setter, as one computation *)
Definition twice (c : M World unit) : M World unit := c ;;; c.

(** two models that differ in the records of their logger at most *)
Definition same_but_log (m m' : Model) : Prop := with_logger [] m = with_logger [] m'.

(** The configuration can be initialised: it is not empty, or the model does
    not read from its root, or the root is set. *)
Definition config_ready (m : Model) : bool :=
  negb (is_empty (_config m)) || negb (_read m)
  || match _root m with Some _ => true | None => false end.

(** the dotted form of a sequence of keys: the keys joined by dots *)
Fixpoint join_dots (keys : list string) : string :=
  match keys with
  | [] => ""
  | [k] => k
  | k :: rest => k +++ "." +++ join_dots rest
  end.

(** no key of the sequence holds a dot *)
Definition dot_free (keys : list string) : bool :=
  forallb (fun k => negb (Str.contains_char "."%char k)) keys.

(** the first key of the path that [set_config] and [get_config] walk *)
Definition first_key (keys : list string) : string := hd "" (split_keys keys).

(** [isinstance(v, dict)] *)
Definition is_dict (v : value) : bool :=
  match v with
  | VDict _ => true
  | _ => false
  end.

(** [c] changes at most the part of the model that [clear] wipes and the
    records of the logger, and leaves the file system alone, whatever its
    outcome *)
Definition changes_only {A : Type} (clear : Model -> Model) (c : M World A) : Prop :=
  forall w,
    same_but_log (clear (mdl (snd (c w)))) (clear (mdl w)) /\ fs (snd (c w)) = fs w.

(** How [c] may fail from [w]: with an IOError, and then the model is not
    writable; or with another error, and then nothing has changed. *)
Definition fails_cleanly {A : Type} (c : M World A) (w : World) : Prop :=
  match fst (c w) with
  | Ok _ => True
  | Raise e =>
      (exn_cls e = IOError /\ _write (mdl w) = false) \/
      (exn_cls e <> IOError /\ snd (c w) = w)
  end.

(** * Properties *)

(** ** Strings *)

Module StrFacts.

Lemma append_assoc (a b c : string) : (a +++ b) +++ c = a +++ (b +++ c).
Proof. induction a as [|x a IH]; simpl; [reflexivity | now rewrite IH]. Qed.

Lemma append_empty_r (a : string) : a +++ "" = a.
Proof. induction a as [|x a IH]; simpl; [reflexivity | now rewrite IH]. Qed.

Lemma all_append (p : ascii -> bool) (a b : string) :
  Str.all p (a +++ b) = Str.all p a && Str.all p b.
Proof.
  induction a as [|x a IH]; simpl; [reflexivity|].
  now rewrite IH, andb_assoc.
Qed.

(** [lstrip] removes a prefix made of [chars] and stops at the first
    character outside [chars]. *)
Lemma lstrip_spec (chars s : string) :
  exists pre,
    s = pre +++ Str.lstrip chars s /\
    Str.all (fun c => Str.contains_char c chars) pre = true /\
    Str.not_at (fun c => Str.contains_char c chars) (Str.head (Str.lstrip chars s)) = true.
Proof.
  induction s as [|c s IH]; simpl.
  - exists ""; auto.
  - destruct (Str.contains_char c chars) eqn:E.
    + destruct IH as (pre & Hs & Hall & Hh).
      exists (String c pre); simpl. rewrite E, Hall. repeat split; auto.
      now rewrite <- Hs.
    + exists ""; simpl. rewrite E. auto.
Qed.

(** [rstrip] removes a suffix made of [chars] and stops at the last
    character outside [chars]. *)
Lemma rstrip_spec (chars s : string) :
  exists suf,
    s = Str.rstrip chars s +++ suf /\
    Str.all (fun c => Str.contains_char c chars) suf = true /\
    Str.not_at (fun c => Str.contains_char c chars) (Str.last (Str.rstrip chars s)) = true.
Proof.
  induction s as [|c s IH]; simpl.
  - exists ""; auto.
  - destruct IH as (suf & Hs & Hall & Hl).
    destruct (Str.rstrip chars s) as [|c' r'] eqn:E.
    + destruct (Str.contains_char c chars) eqn:Ec.
      * exists (String c suf); simpl. rewrite Ec, Hall. simpl in Hs. subst s. auto.
      * exists suf; simpl. rewrite Ec. simpl in Hs. subst s. auto.
    + exists suf. split; [simpl in *; congruence|]. split; [assumption|].
      exact Hl.
Qed.

(** [rstrip] keeps the first character of what it returns. *)
Lemma rstrip_head (chars s : string) :
  Str.rstrip chars s = "" \/ Str.head (Str.rstrip chars s) = Str.head s.
Proof.
  destruct s as [|c s]; simpl; [now left|].
  destruct (Str.rstrip chars s).
  - destruct (Str.contains_char c chars); [now left | now right].
  - now right.
Qed.

Lemma lstrip_id (chars s : string) :
  Str.not_at (fun c => Str.contains_char c chars) (Str.head s) = true ->
  Str.lstrip chars s = s.
Proof.
  destruct s as [|c s]; simpl; [reflexivity|].
  now destruct (Str.contains_char c chars).
Qed.

Lemma rstrip_id (chars s : string) :
  Str.not_at (fun c => Str.contains_char c chars) (Str.last s) = true ->
  Str.rstrip chars s = s.
Proof.
  induction s as [|c s IH]; [reflexivity|].
  intros H. simpl. destruct s as [|c' s'].
  - simpl in *. now destruct (Str.contains_char c chars).
  - rewrite IH by exact H. reflexivity.
Qed.

Lemma strip_spec (chars s : string) :
  exists pre suf,
    s = pre +++ Str.strip chars s +++ suf /\
    Str.all (fun c => Str.contains_char c chars) pre = true /\
    Str.all (fun c => Str.contains_char c chars) suf = true /\
    Str.not_at (fun c => Str.contains_char c chars) (Str.head (Str.strip chars s)) = true /\
    Str.not_at (fun c => Str.contains_char c chars) (Str.last (Str.strip chars s)) = true.
Proof.
  unfold Str.strip.
  destruct (lstrip_spec chars s) as (pre & Hs & Hpre & Hh).
  destruct (rstrip_spec chars (Str.lstrip chars s)) as (suf & Hs' & Hsuf & Hl).
  exists pre, suf. repeat split; auto.
  - now rewrite <- Hs', <- Hs.
  - destruct (rstrip_head chars (Str.lstrip chars s)) as [E | E]; rewrite E; auto.
Qed.

Lemma strip_idempotent (chars s : string) :
  Str.strip chars (Str.strip chars s) = Str.strip chars s.
Proof.
  destruct (strip_spec chars s) as (pre & suf & _ & _ & _ & Hh & Hl).
  unfold Str.strip at 1. rewrite (lstrip_id _ _ Hh). now apply rstrip_id.
Qed.

End StrFacts.

(** ** The canonical method name *)

Lemma drop_while_snoc (p : ascii -> bool) (l : list ascii) (c : ascii) :
  drop_while p (l ++ [c]) =
  match drop_while p l with
  | [] => if p c then [] else [c]
  | d => d ++ [c]
  end.
Proof.
  induction l as [|a l IH]; simpl.
  - destruct (p c); reflexivity.
  - destruct (p a); [exact IH | reflexivity].
Qed.

(** [rstrip] with the ten digits is the specification's removal of the
    trailing run of digits. *)
Lemma rstrip_trailing_digits (s : string) :
  Str.rstrip "0123456789" s = strip_trailing_digits s.
Proof.
  unfold strip_trailing_digits.
  induction s as [|c s IH]; [reflexivity|].
  cbn [Str.rstrip list_ascii_of_string rev]. rewrite drop_while_snoc, IH.
  destruct (drop_while is_digit (rev (list_ascii_of_string s))) as [|x d] eqn:E.
  - cbn [rev string_of_list_ascii]. fold (is_digit c). destruct (is_digit c); reflexivity.
  - rewrite rev_app_distr. cbn [rev app].
    destruct (rev d ++ [x]) as [|y ys] eqn:E'.
    + destruct (rev d); discriminate.
    + reflexivity.
Qed.

Section Resolution.
Context {MC : ModelClass}.

Lemma canonical_idempotent (key : string) : canonical (canonical key) = canonical key.
Proof. apply StrFacts.strip_idempotent. Qed.

(** a name that no property computes is looked up without running anything *)
Lemma getattr_plain (name : string) (w : World) :
  plain name = true -> getattr_or_none name w = (Ok (attrs name), w).
Proof.
  unfold plain, getattr_or_none, getattr.
  destruct (attrs name) as [[sig impl|v|g]|]; try discriminate; try reflexivity.
  destruct (base_property name); [discriminate | reflexivity].
Qed.

Lemma hasattr_plain (name : string) (w : World) :
  plain name = true -> hasattr name w = (Ok (known name), w).
Proof.
  intros H. unfold hasattr, bind. rewrite (getattr_plain name w H). reflexivity.
Qed.

Lemma is_method_plain (name : string) : is_method name = true -> plain name = true.
Proof.
  unfold is_method, plain. now destruct (attrs name) as [[sig impl|v|g]|].
Qed.

(** one step of the loop of validation *)
Lemma check_keys_cons (key : string) (rest : list string) (w : World) :
  check_keys (key :: rest) w =
  match getattr_or_none (canonical key) w with
  | (Raise e, w1) => (Raise e, w1)
  | (Ok a, w1) =>
      if callable a then check_keys rest w1
      else
        match hasattr (canonical key) w1 with
        | (Raise e, w2) => (Raise e, w2)
        | (Ok true, w2) => (Raise (has_no_method key), w2)
        | (Ok false, w2) =>
            match hasattr ("setup_" +++ canonical key) w2 with
            | (Raise e, w3) => (Raise e, w3)
            | (Ok short, w3) =>
                (Raise (if short then use_full_name key else has_no_method key), w3)
            end
        end
  end.
Proof.
  cbn [check_keys]. unfold bind, lift_result.
  destruct (getattr_or_none (canonical key) w) as [[a|e] w1]; [|reflexivity].
  destruct (callable a); cbn [negb]; [reflexivity|].
  destruct (hasattr (canonical key) w1) as [[[|]|e] w2]; cbn [negb]; try reflexivity.
  now destruct (hasattr ("setup_" +++ canonical key) w2) as [[[|]|e] w3].
Qed.

(** validation accepts a key exactly when the lookup of its name gives a
    callable and validation accepts the keys after it *)
Lemma check_keys_cons_ok (key : string) (rest : list string) (w : World) :
  is_ok (fst (check_keys (key :: rest) w)) =
  match getattr_or_none (canonical key) w with
  | (Ok a, w1) => callable a && is_ok (fst (check_keys rest w1))
  | (Raise _, _) => false
  end.
Proof.
  rewrite check_keys_cons.
  destruct (getattr_or_none (canonical key) w) as [[a|e] w1]; [|reflexivity].
  destruct (callable a); cbn [andb]; [reflexivity|].
  destruct (hasattr (canonical key) w1) as [[[|]|e] w2]; try reflexivity.
  now destruct (hasattr ("setup_" +++ canonical key) w2) as [[[|]|e] w3].
Qed.

Lemma check_keys_cons_plain (key : string) (rest : list string) (w : World) :
  plain (canonical key) = true ->
  is_ok (fst (check_keys (key :: rest) w)) =
  is_method (canonical key) && is_ok (fst (check_keys rest w)).
Proof.
  intros Hp. rewrite check_keys_cons, (getattr_plain _ w Hp).
  change (callable (attrs (canonical key))) with (is_method (canonical key)).
  destruct (is_method (canonical key)); cbn [andb]; [reflexivity|].
  destruct (hasattr (canonical key) w) as [[[|]|e] w1]; try reflexivity.
  now destruct (hasattr ("setup_" +++ canonical key) w1) as [[[|]|e] w2].
Qed.

(** the digits of a key change neither whether it is accepted nor what
    validation does to the model *)
Lemma check_keys_canonical (key : string) (rest : list string) (w : World) :
  is_ok (fst (check_keys (key :: rest) w)) =
  is_ok (fst (check_keys (canonical key :: rest) w)) /\
  snd (check_keys (key :: rest) w) = snd (check_keys (canonical key :: rest) w).
Proof.
  rewrite !check_keys_cons, canonical_idempotent.
  destruct (getattr_or_none (canonical key) w) as [[a|e] w1]; [|now split].
  destruct (callable a); [now split|].
  destruct (hasattr (canonical key) w1) as [[[|]|e] w2]; try now split.
  now destruct (hasattr ("setup_" +++ canonical key) w2) as [[[|]|e] w3].
Qed.

(** C3 (amended): the name that validation and dispatch resolve is the key
    without its leading and its trailing run of decimal digits, digits
    inside the name being kept; for a key that does not start with a digit
    this is the key without its trailing run of digits.  Validation accepts
    a key exactly when the lookup of that name gives a callable, which for
    a name that no property computes is when the name is a method; the
    digits change neither whether the key is accepted nor what validation
    does to the model; and dispatching a key is dispatching that name. *)
Theorem canonical_strips_both_ends (key : string) :
  (exists pre suf,
      key = pre +++ canonical key +++ suf /\
      Str.all is_digit pre = true /\
      Str.all is_digit suf = true /\
      Str.not_at is_digit (Str.head (canonical key)) = true /\
      Str.not_at is_digit (Str.last (canonical key)) = true) /\
  (Str.not_at is_digit (Str.head key) = true ->
   canonical key = strip_trailing_digits key) /\
  (forall rest w,
      is_ok (fst (check_keys (key :: rest) w)) =
      match getattr_or_none (canonical key) w with
      | (Ok a, w1) => callable a && is_ok (fst (check_keys rest w1))
      | (Raise _, _) => false
      end) /\
  (forall rest w,
      plain (canonical key) = true ->
      is_ok (fst (check_keys (key :: rest) w)) =
      is_method (canonical key) && is_ok (fst (check_keys rest w))) /\
  (forall rest w,
      is_ok (fst (check_keys (key :: rest) w)) =
      is_ok (fst (check_keys (canonical key :: rest) w)) /\
      snd (check_keys (key :: rest) w) = snd (check_keys (canonical key :: rest) w)) /\
  (forall args kwargs,
      _run_log_method key args kwargs = _run_log_method (canonical key) args kwargs).
Proof.
  split; [exact (StrFacts.strip_spec "0123456789" key)|].
  split.
  - intros H. unfold canonical, Str.strip.
    rewrite (StrFacts.lstrip_id "0123456789" key H). apply rstrip_trailing_digits.
  - split; [intros rest w; apply check_keys_cons_ok|].
    split; [intros rest w; apply check_keys_cons_plain|].
    split; [intros rest w; apply check_keys_canonical|].
    intros args kwargs. unfold _run_log_method. now rewrite canonical_idempotent.
Qed.

(** ** Validation *)

Lemma check_keys_methods (methods : list string) (w : World) :
  forallb (fun k => is_method (canonical k)) methods = true ->
  check_keys methods w = (Ok tt, w).
Proof.
  induction methods as [|k rest IH]; cbn [forallb]; [reflexivity|].
  intros H. apply andb_prop in H as [Hk Hrest]. rewrite check_keys_cons.
  rewrite (getattr_plain _ w (is_method_plain _ Hk)).
  change (callable (attrs (canonical k))) with (is_method (canonical k)).
  rewrite Hk. auto.
Qed.

Lemma check_keys_skip (pre : list string) (post : list string) (w : World) :
  forallb (fun k => is_method (canonical k)) pre = true ->
  check_keys (pre ++ post) w = check_keys post w.
Proof.
  induction pre as [|p pre IH]; cbn [forallb app]; [reflexivity|].
  intros H. apply andb_prop in H as [Hp Hpre]. rewrite check_keys_cons.
  rewrite (getattr_plain _ w (is_method_plain _ Hp)).
  change (callable (attrs (canonical p))) with (is_method (canonical p)).
  rewrite Hp. auto.
Qed.

Lemma check_keys_plain_bad (k : string) (post : list string) (w : World) :
  is_method (canonical k) = false ->
  plain (canonical k) = true ->
  (known (canonical k) = false -> plain ("setup_" +++ canonical k) = true) ->
  check_keys (k :: post) w =
  (Raise (if negb (known (canonical k)) && known ("setup_" +++ canonical k)
          then use_full_name k else has_no_method k), w).
Proof.
  intros Hk Hp Hs. rewrite check_keys_cons, (getattr_plain _ w Hp).
  change (callable (attrs (canonical k))) with (is_method (canonical k)).
  rewrite Hk, (hasattr_plain _ w Hp).
  destruct (known (canonical k)) eqn:Ek; cbn [negb andb]; [reflexivity|].
  now rewrite (hasattr_plain _ w (Hs eq_refl)).
Qed.

(** a property of the name is evaluated by the lookup *)
Lemma check_keys_property (k : string) (post : list string) (w : World) :
  match getattr (canonical k) w with
  | (Raise e, w1) =>
      is_attribute_error e = false -> check_keys (k :: post) w = (Raise e, w1)
  | (Ok a, w1) =>
      callable (Some a) = false ->
      match getattr (canonical k) w1 with
      | (Ok _, w2) => check_keys (k :: post) w = (Raise (has_no_method k), w2)
      | (Raise e, w2) =>
          is_attribute_error e = false -> check_keys (k :: post) w = (Raise e, w2)
      end
  end.
Proof.
  rewrite check_keys_cons. unfold hasattr, bind, getattr_or_none.
  destruct (getattr (canonical k) w) as [[a|e] w1].
  - intros Ha. rewrite Ha.
    destruct (getattr (canonical k) w1) as [[a'|e'] w2]; [reflexivity|].
    intros He. now rewrite He.
  - intros He. now rewrite He.
Qed.

Lemma check_get_opt_eq (o : optmap) (w : World) :
  _check_get_opt o w =
  match check_keys (ODict.keys o) w with
  | (Ok _, w') => (Ok o, w')
  | (Raise e, w') => (Raise e, w')
  end.
Proof.
  unfold _check_get_opt, bind. now destruct (check_keys (ODict.keys o) w) as [[u|e] w'].
Qed.

(** C2 (amended): validation looks the keys up in iteration order, and a
    lookup evaluates a property of the name.  It returns the mapping
    unchanged, and leaves the model alone, when the name of every key is a
    method.  Otherwise the first key whose name is not one decides.  For a
    name that no property computes the model is left alone and the error is
    the deprecation error when the name is no attribute at all and an
    attribute setup_<name> exists, the ValueError [has_no_method] in every
    other case, so also when the name is an attribute that is not callable.
    For a name that a property computes the property is evaluated: an error
    that it raises, other than AttributeError, is the error of validation,
    and when it returns what is not callable it is evaluated once more and
    the error is [has_no_method]; the model is as the property left it. *)
Theorem check_get_opt_cases (o : optmap) (w : World) :
  (forallb (fun k => is_method (canonical k)) (ODict.keys o) = true ->
   _check_get_opt o w = (Ok o, w)) /\
  (forall pre k post,
      ODict.keys o = pre ++ k :: post ->
      forallb (fun k => is_method (canonical k)) pre = true ->
      is_method (canonical k) = false ->
      (plain (canonical k) = true ->
       (known (canonical k) = false -> plain ("setup_" +++ canonical k) = true) ->
       _check_get_opt o w =
       (Raise (if negb (known (canonical k)) && known ("setup_" +++ canonical k)
               then use_full_name k else has_no_method k), w)) /\
      match getattr (canonical k) w with
      | (Raise e, w1) =>
          is_attribute_error e = false -> _check_get_opt o w = (Raise e, w1)
      | (Ok a, w1) =>
          callable (Some a) = false ->
          match getattr (canonical k) w1 with
          | (Ok _, w2) => _check_get_opt o w = (Raise (has_no_method k), w2)
          | (Raise e, w2) =>
              is_attribute_error e = false -> _check_get_opt o w = (Raise e, w2)
          end
      end).
Proof.
  split.
  - intros H. now rewrite check_get_opt_eq, (check_keys_methods _ w H).
  - intros pre k post E Hpre Hk. rewrite check_get_opt_eq, E, (check_keys_skip pre _ w Hpre).
    split.
    + intros Hp Hs. now rewrite (check_keys_plain_bad k post w Hk Hp Hs).
    + pose proof (check_keys_property k post w) as H.
      destruct (getattr (canonical k) w) as [[a|e] w1].
      * intros Ha. specialize (H Ha).
        destruct (getattr (canonical k) w1) as [[a'|e'] w2].
        -- now rewrite H.
        -- intros He. now rewrite (H He).
      * intros He. now rewrite (H He).
Qed.

End Resolution.

(** C3, at a key with a numeric suffix only *)
Lemma canonical_strips_both_ends_witness :
  canonical "setup_rivers2" = strip_trailing_digits "setup_rivers2".
Proof.
  apply (proj1 (proj2 (canonical_strips_both_ends (MC := Demo.demo) "setup_rivers2"))).
  reflexivity.
Defined.

(** C3 as stated fails: leading digits are removed as well, and a key with
    leading digits is accepted and resolved to the method without them. *)
Lemma canonical_not_trailing_only :
  canonical "2setup_config" = "setup_config" /\
  strip_trailing_digits "2setup_config" = "2setup_config" /\
  canonical "2setup_config" <> strip_trailing_digits "2setup_config" /\
  _check_get_opt (MC := Demo.demo) [("2setup_config", [])] (Demo.fresh_world false true) =
  (Ok [("2setup_config", [])], Demo.fresh_world false true).
Proof. repeat split; try reflexivity. discriminate. Qed.

(** C2, on the demo class: a known key passes, a short name does not, and
    the key of a property has the property evaluated *)
Lemma check_get_opt_cases_witness :
  _check_get_opt (MC := Demo.demo) [("setup_rivers", [])] (Demo.fresh_world false true) =
  (Ok [("setup_rivers", [])], Demo.fresh_world false true) /\
  _check_get_opt (MC := Demo.demo) [("setup_rivers", []); ("lakes", [])]
    (Demo.fresh_world false true) =
  (Raise (use_full_name "lakes"), Demo.fresh_world false true) /\
  _check_get_opt (MC := Demo.demo) [("setup_rivers", []); ("config", [])]
    (Demo.fresh_world true true) =
  (Raise (mkExn ValueError "Root unknown, use set_root method"), Demo.fresh_world true true).
Proof.
  split; [|split].
  - apply (proj1 (check_get_opt_cases (MC := Demo.demo) [("setup_rivers", [])]
                    (Demo.fresh_world false true))).
    reflexivity.
  - apply (proj1 (proj2 (check_get_opt_cases (MC := Demo.demo)
                           [("setup_rivers", []); ("lakes", [])]
                           (Demo.fresh_world false true))
                    ["setup_rivers"] "lakes" [] eq_refl eq_refl eq_refl));
      reflexivity.
  - apply (proj2 (proj2 (check_get_opt_cases (MC := Demo.demo)
                           [("setup_rivers", []); ("config", [])]
                           (Demo.fresh_world true true))
                    ["setup_rivers"] "config" [] eq_refl eq_refl eq_refl)).
    reflexivity.
Defined.

(** C2 as stated fails: [config] resolves to what is not callable and
    [setup_config] is callable, yet the error is the ValueError, not the
    deprecation error. *)
Lemma check_get_opt_noncallable_attribute :
  is_method (MC := Demo.demo) (canonical "config") = false /\
  is_method (MC := Demo.demo) ("setup_" +++ canonical "config") = true /\
  _check_get_opt (MC := Demo.demo) [("config", [])] (Demo.fresh_world false true) =
  (Raise (has_no_method (MC := Demo.demo) "config"), Demo.fresh_world false true) /\
  ~ raises (fst (_check_get_opt (MC := Demo.demo) [("config", [])]
                   (Demo.fresh_world false true))) DeprecationWarning.
Proof. repeat split. cbn. discriminate. Qed.

(** ** Dictionaries *)

Module ODictFacts.

Section Facts.
Context {V : Type}.
Implicit Types (d : list (string * V)) (k : string) (v : V).

Lemma get_set k k' v d :
  ODict.get k (ODict.set k' v d) = if String.eqb k' k then Some v else ODict.get k d.
Proof.
  induction d as [|[k0 v0] d IH]; cbn [ODict.set ODict.get].
  - destruct (String.eqb k' k); reflexivity.
  - destruct (String.eqb k0 k') eqn:E0; cbn [ODict.get].
    + apply String.eqb_eq in E0. subst k0.
      destruct (String.eqb k' k); reflexivity.
    + destruct (String.eqb k0 k) eqn:E1; [|exact IH].
      apply String.eqb_eq in E1. subst k0.
      rewrite String.eqb_sym, E0. reflexivity.
Qed.

Lemma get_set_eq k v d : ODict.get k (ODict.set k v d) = Some v.
Proof. now rewrite get_set, String.eqb_refl. Qed.

Lemma mem_set_eq k v d : ODict.mem k (ODict.set k v d) = true.
Proof. unfold ODict.mem. now rewrite get_set_eq. Qed.

Lemma mem_set k k' v d :
  ODict.mem k (ODict.set k' v d) = String.eqb k' k || ODict.mem k d.
Proof. unfold ODict.mem. rewrite get_set. now destruct (String.eqb k' k). Qed.

Lemma set_fresh k v d : ODict.get k d = None -> ODict.set k v d = d ++ [(k, v)].
Proof.
  induction d as [|[k0 v0] d IH]; cbn [ODict.set ODict.get app]; [reflexivity|].
  destruct (String.eqb k0 k); [discriminate|]. intros H. now rewrite IH.
Qed.

Lemma remove_absent k d : ODict.get k d = None -> ODict.remove k d = d.
Proof.
  induction d as [|[k0 v0] d IH]; cbn [ODict.remove ODict.get]; [reflexivity|].
  destruct (String.eqb k0 k); [discriminate|]. intros H. now rewrite IH.
Qed.

Lemma get_remove_ne k k' d :
  k <> k' -> ODict.get k (ODict.remove k' d) = ODict.get k d.
Proof.
  intros Hne. induction d as [|[k0 v0] d IH]; cbn [ODict.remove ODict.get]; [reflexivity|].
  destruct (String.eqb k0 k') eqn:E0.
  - apply String.eqb_eq in E0. subst k0.
    destruct (String.eqb k' k) eqn:E1; [|reflexivity].
    apply String.eqb_eq in E1. congruence.
  - cbn [ODict.get]. now rewrite IH.
Qed.

Lemma get_none_not_in k d : ODict.get k d = None <-> ~ In k (ODict.keys d).
Proof.
  induction d as [|[k0 v0] d IH]; cbn [ODict.get ODict.keys map In fst].
  - tauto.
  - destruct (String.eqb k0 k) eqn:E.
    + apply String.eqb_eq in E. split; [discriminate | tauto].
    + apply String.eqb_neq in E. unfold ODict.keys in IH. tauto.
Qed.

(** In a dictionary, removing a key is keeping every other entry. *)
Lemma remove_filter k d :
  ODict.wf d ->
  ODict.remove k d = filter (fun kv => negb (String.eqb (fst kv) k)) d.
Proof.
  unfold ODict.wf. induction d as [|[k0 v0] d IH]; cbn [ODict.remove filter ODict.keys map fst].
  - reflexivity.
  - intros Hnd. inversion Hnd as [|? ? Hnotin Hnd']; subst.
    destruct (String.eqb k0 k) eqn:E; cbn [negb].
    + apply String.eqb_eq in E. subst k0.
      apply get_none_not_in in Hnotin.
      rewrite <- (IH Hnd'). symmetry. now apply remove_absent.
    + now rewrite (IH Hnd').
Qed.

Lemma wf_remove k d : ODict.wf d -> ODict.wf (ODict.remove k d).
Proof.
  intros H. rewrite (remove_filter k d H). unfold ODict.wf, ODict.keys in *.
  induction d as [|[k0 v0] d IH]; cbn [filter map fst] in *; [constructor|].
  inversion H as [|? ? Hnotin Hnd]; subst.
  destruct (negb (String.eqb k0 k)); cbn [map fst]; [|now apply IH].
  constructor; [|now apply IH].
  intros Hin. apply Hnotin. apply in_map_iff in Hin as ([k1 v1] & E & Hin).
  apply filter_In in Hin as [Hin _]. apply in_map_iff. now exists (k1, v1).
Qed.

Lemma pop_fst k dflt d :
  fst (ODict.pop k dflt d) = match ODict.get k d with Some v => v | None => dflt end.
Proof. unfold ODict.pop. now destruct (ODict.get k d). Qed.

Lemma pop_snd k dflt d : snd (ODict.pop k dflt d) = ODict.remove k d.
Proof.
  unfold ODict.pop. destruct (ODict.get k d) eqn:E; cbn [snd]; [reflexivity|].
  symmetry. now apply remove_absent.
Qed.

End Facts.

End ODictFacts.

(** ** Calls dispatched by a run *)

Section Steps.
Context {MC : ModelClass}.

Lemma prefix_of_nil (evs : list event) : prefix_of [] evs.
Proof. now exists evs. Qed.

Lemma prefix_of_refl (evs : list event) : prefix_of evs evs.
Proof. exists []. now rewrite app_nil_r. Qed.

Lemma step_events {A : Type} (c : M Run A) o o' evs evs' :
  step c o o' evs -> evs = evs' -> step c o o' evs'.
Proof. now intros H <-. Qed.

Lemma step_bind {A B : Type} (c : M Run A) (k : A -> M Run B) o o1 o2 e1 e2 :
  step c o o1 e1 ->
  (forall a, step (k a) o1 o2 e2) ->
  step (bind c k) o o2 (e1 ++ e2).
Proof.
  intros Hc Hk r Hr. unfold bind.
  destruct (Hc r Hr) as (d1 & Ht & Hp & Hok).
  destruct (c r) as [[a|e] r1]; cbn [fst snd] in *.
  - destruct (Hok eq_refl) as [-> Ho1].
    destruct (Hk a r1 Ho1) as (d2 & Ht2 & [rest Hp2] & Hok2).
    exists (e1 ++ d2). rewrite Ht2, Ht, app_assoc. split; [reflexivity|].
    split.
    + exists rest. now rewrite Hp2, app_assoc.
    + intros H. destruct (Hok2 H) as [-> Ho2]. now split.
  - exists d1. split; [assumption|]. split; [|discriminate].
    destruct Hp as [rest ->]. exists (rest ++ e2). now rewrite app_assoc.
Qed.

Lemma step_ret {A : Type} (a : A) o : step (ret (S := Run) a) o o [].
Proof.
  intros r Hr. exists []. cbn. rewrite app_nil_r.
  split; [reflexivity|]. split; [apply prefix_of_nil | now split].
Qed.

Lemma step_lift_result {A : Type} (x : result A) o : step (lift_result (S := Run) x) o o [].
Proof.
  intros r Hr. exists []. cbn. rewrite app_nil_r.
  split; [reflexivity|]. split; [apply prefix_of_nil | now split].
Qed.

Lemma step_raise {A : Type} c msg o o' evs : step (raise (S := Run) (A := A) c msg) o o' evs.
Proof.
  intros r Hr. exists []. cbn. rewrite app_nil_r.
  split; [reflexivity|]. split; [apply prefix_of_nil | discriminate].
Qed.

Lemma step_in_world {A : Type} (c : M World A) o : step (in_world c) o o [].
Proof.
  intros r Hr. exists []. unfold in_world, zoom.
  destruct (c (world r)) as [x w]. cbn. rewrite app_nil_r.
  split; [reflexivity|]. split; [apply prefix_of_nil | now split].
Qed.

Lemma step_record_call (e : event) o : step (record_call e) o o [e].
Proof.
  intros r Hr. exists [e]. cbn.
  split; [reflexivity|]. split; [apply prefix_of_refl | now split].
Qed.

(** reading the option mapping *)
Lemma step_gets_opt {B : Type} (k : optmap -> M Run B) o o' evs :
  step (k o) o o' evs -> step (bind (gets opt) k) o o' evs.
Proof.
  intros Hk r Hr. unfold bind, gets. rewrite Hr. exact (Hk r Hr).
Qed.

Lemma pop_opt_eq (key : string) (r : Run) :
  pop_opt key r =
  (Ok (entry key (opt r)), mkRun (ODict.remove key (opt r)) (trace r) (world r)).
Proof.
  unfold pop_opt, bind, gets, set_opt, modify, ret.
  now rewrite ODictFacts.pop_fst, ODictFacts.pop_snd.
Qed.

(** popping a key of the option mapping *)
Lemma step_pop_opt {B : Type} (key : string) (k : dict -> M Run B) o o' evs :
  step (k (entry key o)) (ODict.remove key o) o' evs ->
  step (bind (pop_opt key) k) o o' evs.
Proof.
  intros Hk r Hr. unfold bind. rewrite pop_opt_eq, Hr.
  apply (Hk (mkRun (ODict.remove key o) (trace r) (world r))). reflexivity.
Qed.

Lemma step_call_attr name args kwargs o :
  step (call_attr name args kwargs) o o [EvCall name args kwargs].
Proof.
  assert (Hcall : forall impl : method_impl,
             step (record_call (EvCall name args kwargs) ;;; in_world (impl args kwargs))
                  o o [EvCall name args kwargs]).
  { intros impl. apply (step_bind _ _ o o o [EvCall name args kwargs] []).
    - apply step_record_call.
    - intros _. apply step_in_world. }
  unfold call_attr. destruct (attrs name) as [[sig impl|v|g]|]; try apply step_raise.
  - apply Hcall.
  - apply (step_bind _ _ o o o [] [EvCall name args kwargs]); [apply step_in_world|].
    intros [sig impl|v|g']; try apply step_raise. apply Hcall.
Qed.

Lemma step_run_log_method method args kwargs o :
  step (_run_log_method method args kwargs) o o [EvCall (canonical method) args kwargs].
Proof.
  unfold _run_log_method.
  destruct (ODict.mem "self" kwargs || ODict.mem "method" kwargs); [apply step_raise|].
  apply (step_bind _ _ o o o [] [EvCall (canonical method) args kwargs]);
    [apply step_in_world|].
  intros [sig impl|v|g]; try apply step_raise.
  apply (step_bind _ _ o o o [] [EvCall (canonical method) args kwargs]).
  - apply step_in_world.
  - intros _. apply (step_bind _ _ o o o [EvCall (canonical method) args kwargs] []).
    + apply step_record_call.
    + intros _. apply step_in_world.
Qed.

Lemma step_for_each {X : Type} (l : list X) (body : X -> M Run unit) (f : X -> event) o :
  (forall x, step (body x) o o [f x]) ->
  step (for_each l body) o o (map f l).
Proof.
  intros Hbody. induction l as [|x l IH]; cbn [for_each map].
  - apply step_ret.
  - apply (step_bind _ _ o o o [f x] (map f l)); [apply Hbody | intros _; exact IH].
Qed.

Lemma step_run_entries o : step run_entries o o (entry_calls o).
Proof.
  unfold run_entries. apply step_gets_opt. unfold entry_calls.
  apply step_for_each. intros kv.
  apply (step_bind _ _ o o o [EvCall (canonical (fst kv)) [] (snd kv)] []).
  - apply step_run_log_method.
  - intros _. apply step_ret.
Qed.

Lemma step_write (write : bool) o :
  step (when write (call_attr "write" [] [] ;;; ret tt)) o o
       (if write then [EvCall "write" [] []] else []).
Proof.
  destruct write; cbn [when]; [|apply step_ret].
  apply (step_bind _ _ o o o [EvCall "write" [] []] []).
  - apply step_call_attr.
  - intros _. apply step_ret.
Qed.

(** The calls of [build], and the option mapping it leaves. *)
Lemma build_step (region res : value) (write : bool) (o : optmap) :
  step (build region res write) o
       (ODict.remove "setup_basemaps" (ODict.remove "setup_config" o))
       (build_plan region res write o).
Proof.
  unfold build. apply step_gets_opt.
  set (o1 := ODict.remove "setup_config" o).
  set (o2 := ODict.remove "setup_basemaps" o1).
  apply (step_bind _ _ o o o2 [] (build_plan region res write o)); [apply step_in_world|].
  intros _. apply step_pop_opt. fold o1.
  apply (step_bind _ _ o1 o1 o2 [EvCall "setup_config" [] (entry "setup_config" o)]
           (EvCall "setup_basemaps" []
              (basemaps_kwargs region res (entry "setup_basemaps" o)) ::
            entry_calls o2 ++ (if write then [EvCall "write" [] []] else []))).
  { apply step_run_log_method. }
  intros _. apply step_pop_opt. fold o2.
  assert (E : entry "setup_basemaps" o1 = entry "setup_basemaps" o).
  { unfold entry, o1. rewrite ODictFacts.get_remove_ne; [reflexivity | discriminate]. }
  rewrite E.
  apply (step_bind _ _ o2 o2 o2
           [EvCall "setup_basemaps" [] (basemaps_kwargs region res (entry "setup_basemaps" o))]
           (entry_calls o2 ++ (if write then [EvCall "write" [] []] else []))).
  { apply step_run_log_method. }
  intros _. apply (step_bind _ _ o2 o2 o2); [apply step_run_entries | intros _; apply step_write].
Qed.

(** the keyword arguments of the forced basemap call, key by key *)
Lemma basemaps_kwargs_get (region res : value) (kwargs : dict) (k : string) :
  ODict.get k (basemaps_kwargs region res kwargs) =
  if String.eqb k "region" then Some region
  else if String.eqb k "res" && negb (is_None res) then Some res
  else ODict.get k kwargs.
Proof.
  unfold basemaps_kwargs, ODict.update. cbn [fold_left fst snd].
  destruct (is_None res); cbn [negb].
  - rewrite andb_false_r, ODictFacts.get_set, (String.eqb_sym "region" k). reflexivity.
  - rewrite andb_true_r, !ODictFacts.get_set,
      (String.eqb_sym "region" k), (String.eqb_sym "res" k).
    destruct (String.eqb k "res") eqn:E; [|reflexivity].
    apply String.eqb_eq in E. subst k. reflexivity.
Qed.


End Steps.


(** ** The option mapping after build and update *)

Section OptionMapping.
Context {MC : ModelClass}.

Lemma keeps_bind {A B : Type} (c : M Run A) (k : A -> M Run B) :
  keeps_opt c -> (forall a, keeps_opt (k a)) -> keeps_opt (bind c k).
Proof.
  intros Hc Hk r. unfold bind. specialize (Hc r).
  destruct (c r) as [[a|e] r1]; cbn [snd] in *; [|assumption].
  now rewrite (Hk a r1).
Qed.

Lemma keeps_ret {A : Type} (a : A) : keeps_opt (ret (S := Run) a).
Proof. intros r. reflexivity. Qed.

Lemma keeps_raise {A : Type} c msg : keeps_opt (raise (S := Run) (A := A) c msg).
Proof. intros r. reflexivity. Qed.

Lemma keeps_lift_result {A : Type} (x : result A) : keeps_opt (lift_result (S := Run) x).
Proof. intros r. reflexivity. Qed.

Lemma keeps_in_world {A : Type} (c : M World A) : keeps_opt (in_world c).
Proof. intros r. unfold in_world, zoom. now destruct (c (world r)). Qed.

Lemma keeps_when (b : bool) (c : M Run unit) : keeps_opt c -> keeps_opt (when b c).
Proof. destruct b; [trivial | intros _; apply keeps_ret]. Qed.

Lemma keeps_call_attr name args kwargs : keeps_opt (call_attr name args kwargs).
Proof.
  unfold call_attr. destruct (attrs name) as [[sig impl|v|g]|]; try apply keeps_raise.
  - apply keeps_bind; [intros r; reflexivity | intros _; apply keeps_in_world].
  - apply keeps_bind; [apply keeps_in_world|].
    intros [sig impl|v|g']; try apply keeps_raise.
    apply keeps_bind; [intros r; reflexivity | intros _; apply keeps_in_world].
Qed.

Create HintDb keeps.

#[local] Hint Resolve keeps_ret keeps_raise keeps_lift_result keeps_in_world
  keeps_call_attr : keeps.

Ltac keeps :=
  repeat first
    [ apply keeps_bind; [|intros ?]
    | apply keeps_when
    | solve [auto with keeps]
    | match goal with |- keeps_opt (if ?b then _ else _) => destruct b end
    | match goal with |- keeps_opt (match ?x with _ => _ end) => destruct x end ].

Lemma keeps_staticmaps : keeps_opt staticmaps.
Proof. unfold staticmaps. keeps. Qed.

Lemma keeps_staticgeoms : keeps_opt staticgeoms.
Proof. unfold staticgeoms. keeps. Qed.

Lemma keeps_region : keeps_opt region.
Proof.
  unfold region. apply keeps_bind; [apply keeps_staticgeoms|]. intros sg.
  destruct (ODict.get "region" sg); [apply keeps_ret|].
  apply keeps_bind; [apply keeps_staticmaps|]. intros sm. keeps.
Qed.

Lemma keeps_update_read model_out : keeps_opt (update_read model_out).
Proof. unfold update_read. keeps. Qed.

Lemma keeps_update_check_region : keeps_opt update_check_region.
Proof.
  unfold update_check_region. apply keeps_bind; [apply keeps_region|].
  intros [g|]; keeps.
Qed.

Lemma opt_step_of_step {A : Type} (c : M Run A) o o' evs : step c o o' evs -> opt_step c o o'.
Proof.
  intros H r Hr Hok. destruct (H r Hr) as (done & _ & _ & Hdone).
  now destruct (Hdone Hok).
Qed.

Lemma opt_step_after_keeps {A B : Type} (c : M Run A) (k : A -> M Run B) o o' :
  keeps_opt c -> (forall a, opt_step (k a) o o') -> opt_step (bind c k) o o'.
Proof.
  intros Hc Hk r Hr. unfold bind. specialize (Hc r).
  destruct (c r) as [[a|e] r1]; cbn [fst snd] in *; [|discriminate].
  apply Hk. congruence.
Qed.

Lemma opt_step_gets_opt {B : Type} (k : optmap -> M Run B) o o' :
  opt_step (k o) o o' -> opt_step (bind (gets opt) k) o o'.
Proof. intros Hk r Hr. unfold bind, gets. rewrite Hr. exact (Hk r Hr). Qed.

(** The calls of the last block of [update], and the option mapping it
    leaves. *)
Lemma update_run_step (write : bool) (o : optmap) :
  step (update_run write) o
       (ODict.remove "setup_config" (ODict.remove "setup_basemaps" o))
       (update_plan write o).
Proof.
  unfold update_run. apply step_gets_opt.
  set (o1 := ODict.remove "setup_basemaps" o).
  set (o2 := ODict.remove "setup_config" o1).
  apply (step_bind _ _ o o1 o2 [] (update_plan write o)).
  { destruct (ODict.mem "setup_basemaps" o) eqn:E; cbn [when].
    - apply step_pop_opt. apply step_in_world.
    - replace o1 with o; [apply step_ret|].
      unfold o1. symmetry. apply ODictFacts.remove_absent.
      unfold ODict.mem in E. now destruct (ODict.get "setup_basemaps" o). }
  intros _. apply step_pop_opt. fold o2.
  assert (E : entry "setup_config" o1 = entry "setup_config" o).
  { unfold entry, o1. rewrite ODictFacts.get_remove_ne; [reflexivity | discriminate]. }
  rewrite E.
  apply (step_bind _ _ o2 o2 o2 [EvCall "setup_config" [] (entry "setup_config" o)]
           (entry_calls o2 ++ (if write then [EvCall "write" [] []] else []))).
  { apply step_run_log_method. }
  intros _. apply (step_bind _ _ o2 o2 o2); [apply step_run_entries | intros _; apply step_write].
Qed.

Lemma update_opt_step model_out write o :
  opt_step (update model_out write) o
           (ODict.remove "setup_config" (ODict.remove "setup_basemaps" o)).
Proof.
  unfold update. apply opt_step_gets_opt.
  apply opt_step_after_keeps; [apply keeps_in_world | intros _].
  apply opt_step_after_keeps; [apply keeps_update_read | intros _].
  apply opt_step_after_keeps; [apply keeps_update_check_region | intros _].
  apply (opt_step_of_step _ _ _ _ (update_run_step write o)).
Qed.

Lemma without_forced_remove (o : optmap) :
  ODict.wf o ->
  ODict.remove "setup_basemaps" (ODict.remove "setup_config" o) = without_forced o /\
  ODict.remove "setup_config" (ODict.remove "setup_basemaps" o) = without_forced o.
Proof.
  intros Hwf. unfold without_forced.
  rewrite (ODictFacts.remove_filter "setup_basemaps" _ (ODictFacts.wf_remove "setup_config" o Hwf)).
  rewrite (ODictFacts.remove_filter "setup_config" _ (ODictFacts.wf_remove "setup_basemaps" o Hwf)).
  rewrite (ODictFacts.remove_filter "setup_config" o Hwf).
  rewrite (ODictFacts.remove_filter "setup_basemaps" o Hwf).
  clear Hwf. split; induction o as [|[k v] o IH]; cbn [filter fst]; try reflexivity.
  - destruct (String.eqb k "setup_config"); cbn [negb andb filter fst]; [exact IH|].
    destruct (String.eqb k "setup_basemaps"); cbn [negb]; [exact IH | now rewrite IH].
  - destruct (String.eqb k "setup_basemaps"); cbn [negb andb filter fst].
    + rewrite andb_false_r. exact IH.
    + rewrite andb_true_r.
      destruct (String.eqb k "setup_config"); cbn [negb]; [exact IH | now rewrite IH].
Qed.

Lemma without_forced_get (o : optmap) (k : string) :
  ODict.get k (without_forced o) =
  if String.eqb k "setup_config" || String.eqb k "setup_basemaps" then None
  else ODict.get k o.
Proof.
  unfold without_forced. induction o as [|[k0 v0] o IH]; cbn [filter ODict.get fst].
  - now destruct (String.eqb k "setup_config" || String.eqb k "setup_basemaps").
  - destruct (String.eqb k0 k) eqn:E.
    + apply String.eqb_eq in E. subst k0.
      destruct (String.eqb k "setup_config"); cbn [negb andb orb]; [exact IH|].
      destruct (String.eqb k "setup_basemaps"); cbn [negb]; [exact IH|].
      cbn [ODict.get]. now rewrite String.eqb_refl.
    + destruct (negb (String.eqb k0 "setup_config") && negb (String.eqb k0 "setup_basemaps"));
        [cbn [ODict.get]; now rewrite E | exact IH].
Qed.


End OptionMapping.

(** C9, on the demo class *)
Lemma some_opt_wf : ODict.wf Demo.some_opt.
Proof.
  unfold ODict.wf, ODict.keys, Demo.some_opt. cbn [map fst].
  repeat constructor; cbn [In]; intuition discriminate.
Qed.


(** ** Re-rooting *)

Section Root.
Context {C : ModelConsts}.

Lemma same_but_log_fields (m m' : Model) :
  same_but_log m m' ->
  _root m = _root m' /\ _read m = _read m' /\ _write m = _write m' /\
  _config m = _config m' /\ _staticmaps m = _staticmaps m' /\
  _staticgeoms m = _staticgeoms m'.
Proof.
  unfold same_but_log, with_logger. intros H. injection H. intros. repeat split; assumption.
Qed.

Lemma valid_mode_cases (mode : string) :
  valid_mode mode = true -> mode = "r" \/ mode = "r+" \/ mode = "w".
Proof.
  unfold valid_mode. cbn [existsb]. rewrite orb_false_r, !orb_true_iff, !String.eqb_eq.
  tauto.
Qed.

Lemma in_fs_eq {A : Type} (c : M FS A) (w : World) :
  in_fs c w = (fst (c (fs w)), mkWorld (mdl w) (snd (c (fs w)))).
Proof. unfold in_fs, zoom. now destruct (c (fs w)). Qed.

(** The loop of [set_root] over the folders.  Whatever its outcome it
    touches the file system and the log only, keeps the directories and the
    configuration files, and logs only when the model does not read.  When
    it returns, every folder is a directory.  When every folder is one
    already, it returns and the file system is as it was.  When it raises,
    the error is the one of [os.makedirs] for a folder that was no
    directory. *)
Lemma set_root_folders (base : string) (folders : list string) (w : World) :
  exists x w',
    for_each folders (fun name =>
      let path := join base name in
      f <- gets fs ;;
      if negb (isdir f path) then in_fs (makedirs path)
      else
        rd <- self _read ;;
        when (negb rd)
          (log (Log WARNING ("Model dir already exists and files might be overwritten: "
                             +++ path +++ ".")))) w = (x, w') /\
    same_but_log (mdl w) (mdl w') /\
    config_files (fs w') = config_files (fs w) /\
    (forall q, isdir (fs w) q = true -> isdir (fs w') q = true) /\
    (_read (mdl w) = true -> logger (mdl w') = logger (mdl w)) /\
    (is_ok x = true ->
     forall name, In name folders -> isdir (fs w') (join base name) = true) /\
    ((forall name, In name folders -> isdir (fs w) (join base name) = true) ->
     x = Ok tt /\ fs w' = fs w) /\
    (forall e, x = Raise e ->
       exists name f,
         In name folders /\ isdir f (join base name) = false /\
         fst (makedirs (join base name) f) = Raise e).
Proof.
  revert w. induction folders as [|name folders IH]; intros w; cbn [for_each].
  - exists (Ok tt), w. split; [reflexivity|]. split; [reflexivity|]. split; [reflexivity|].
    split; [trivial|]. split; [trivial|]. split; [intros _ n []|].
    split; [intros _; now split | discriminate].
  - unfold bind at 1. unfold bind at 1. unfold gets at 1.
    destruct (isdir (fs w) (join base name)) eqn:Ed; cbn [negb].
    + unfold bind at 1. unfold self at 1, gets at 1.
      assert (Hstep : exists w1,
                 when (negb (_read (mdl w)))
                   (log (Log WARNING
                           ("Model dir already exists and files might be overwritten: "
                            +++ join base name +++ "."))) w = (Ok tt, w1) /\
                 same_but_log (mdl w) (mdl w1) /\ fs w1 = fs w /\
                 (_read (mdl w) = true -> w1 = w)).
      { destruct (_read (mdl w)); cbn [negb when].
        - exists w. repeat split.
        - eexists. split; [reflexivity|]. repeat split. discriminate. }
      destruct Hstep as (w1 & E1 & Hs1 & Hf1 & Hr1). rewrite E1.
      destruct (IH w1) as (x & w' & E & Hs & Hc & Hm & Hl & Hok & Hall & Herr).
      exists x, w'. split; [exact E|].
      split; [unfold same_but_log in *; congruence|].
      split; [congruence|].
      split; [intros q Hq; apply Hm; now rewrite Hf1|].
      split; [intros Hr; rewrite (Hr1 Hr) in Hl; auto|].
      split; [|split].
      * intros Hx n [<-|Hn]; [|now apply Hok]. apply Hm. now rewrite Hf1.
      * intros Ha. rewrite <- Hf1. apply Hall. intros n Hn. rewrite Hf1. apply Ha. now right.
      * intros e He. destruct (Herr e He) as (n & f & Hn & Hd & Hmk).
        exists n, f. split; [now right | now split].
    + rewrite in_fs_eq.
      pose proof (makedirs_isdir (join base name) (fs w)) as L1.
      pose proof (fun q => makedirs_keeps_dirs (join base name) q (fs w)) as L2.
      pose proof (makedirs_keeps_files (join base name) (fs w)) as L3.
      destruct (makedirs (join base name) (fs w)) as [[[]|e] f'] eqn:Em; cbn [fst snd] in *.
      * destruct (IH (mkWorld (mdl w) f')) as (x & w' & E & Hs & Hc & Hm & Hl & Hok & Hall & Herr).
        cbn [mdl fs] in *.
        exists x, w'. split; [exact E|]. split; [exact Hs|]. split; [congruence|].
        split; [intros q Hq; apply Hm, L2, Hq|]. split; [exact Hl|].
        split; [|split].
        -- intros Hx n [<-|Hn]; [|now apply Hok]. apply Hm. now apply L1.
        -- intros Ha. specialize (Ha name (or_introl eq_refl)). congruence.
        -- intros e He. destruct (Herr e He) as (n & f & Hn & Hd & Hmk).
           exists n, f. split; [now right | now split].
      * exists (Raise e), (mkWorld (mdl w) f'). cbn [mdl fs].
        split; [reflexivity|]. split; [reflexivity|]. split; [exact L3|].
        split; [exact L2|]. split; [trivial|]. split; [discriminate|].
        split.
        -- intros Ha. specialize (Ha name (or_introl eq_refl)). congruence.
        -- intros e' He. injection He as <-. exists name, (fs w).
           split; [now left|]. split; [exact Ed|]. now rewrite Em.
Qed.

Lemma set_root_invalid (root : option string) (mode : string) (w : World) :
  valid_mode mode = false ->
  exists e, set_root root mode w = (Raise e, w) /\ exn_cls e = ValueError.
Proof.
  intros H. unfold set_root. fold (valid_mode mode). rewrite H. cbn [negb].
  eexists. split; reflexivity.
Qed.

(** the model on which [set_root] goes on after it accepted the mode *)
Lemma set_root_valid (root : option string) (mode : string) (w : World) :
  valid_mode mode = true ->
  set_root root mode w =
  match root with
  | None =>
      (Ok tt, on_model (with_root None (negb (String.eqb mode "w"))
                                  (negb (String.eqb mode "r"))) w)
  | Some r =>
      if String.eqb mode "r" then
        if isdir (fs w) (abspath r) then
          (Ok tt, on_model (with_root (Some (abspath r)) (negb (String.eqb mode "w"))
                                      (negb (String.eqb mode "r"))) w)
        else
          (Raise (mkExn IOError ("model root not found at " +++ Str.quoted (abspath r))),
           on_model (with_root (Some (abspath r)) (negb (String.eqb mode "w"))
                               (negb (String.eqb mode "r"))) w)
      else
        for_each _FOLDERS (fun name =>
          let path := join (abspath r) name in
          f <- gets fs ;;
          if negb (isdir f path) then in_fs (makedirs path)
          else
            rd <- self _read ;;
            when (negb rd)
              (log (Log WARNING ("Model dir already exists and files might be overwritten: "
                                 +++ path +++ "."))))
          (on_model (with_root (Some (abspath r)) (negb (String.eqb mode "w"))
                               (negb (String.eqb mode "r"))) w)
  end.
Proof.
  intros H. unfold set_root. fold (valid_mode mode). rewrite H. cbn [negb].
  assert (Hp : String.prefix "r" mode = negb (String.eqb mode "w")).
  { destruct (valid_mode_cases mode H) as [-> | [-> | ->]]; reflexivity. }
  rewrite Hp. unfold bind at 1. unfold modify at 1.
  destruct root as [r|]; [|reflexivity]. cbn [option_map].
  unfold bind at 1. unfold self at 1, gets at 1. cbn [mdl on_model with_root _write].
  destruct (String.eqb mode "r"); cbn [negb]; [|reflexivity].
  unfold bind, gets. cbn [fs on_model].
  now destruct (isdir (fs w) (abspath r)).
Qed.

(** whatever its outcome, [set_root] with a valid mode has reassigned the
    root and the mode and left the rest of the model as it was *)
Lemma set_root_valid_model (root : option string) (mode : string) (w : World) :
  valid_mode mode = true ->
  same_but_log (mdl (snd (set_root root mode w)))
               (with_root (option_map abspath root) (negb (String.eqb mode "w"))
                          (negb (String.eqb mode "r")) (mdl w)).
Proof.
  intros Hv. rewrite (set_root_valid root mode w Hv). destruct root as [r|]; [|reflexivity].
  change (option_map abspath (Some r)) with (Some (abspath r)).
  destruct (String.eqb mode "r") eqn:Em.
  - now destruct (isdir (fs w) (abspath r)).
  - match goal with
    | |- context [for_each _ _ ?w0] =>
        destruct (set_root_folders (abspath r) _FOLDERS w0) as (x & w' & E & Hs & _)
    end.
    rewrite E. cbn [snd]. unfold same_but_log in *. now rewrite <- Hs.
Qed.

(** [set_root(root, "w")] with a root: whatever its outcome the model is in
    pure WRITE mode at that root; it fails only when [os.makedirs] does, for
    a folder of the model that was no directory. *)
Lemma set_root_write_mode (out : string) (w : World) :
  exists x w',
    set_root (Some out) "w" w = (x, w') /\
    _root (mdl w') = Some (abspath out) /\
    _read (mdl w') = false /\
    _write (mdl w') = true /\
    _staticmaps (mdl w') = _staticmaps (mdl w) /\
    _staticgeoms (mdl w') = _staticgeoms (mdl w) /\
    (forall e, x = Raise e ->
       exists p f, In p (folder_paths out) /\ isdir f p = false /\
                   fst (makedirs p f) = Raise e).
Proof.
  destruct (set_root (Some out) "w" w) as [x w'] eqn:Es. exists x, w'.
  split; [reflexivity|].
  pose proof (set_root_valid_model (Some out) "w" w eq_refl) as Hm.
  rewrite Es in Hm. cbn [snd] in Hm.
  apply same_but_log_fields in Hm. cbn in Hm.
  destruct Hm as (H1 & H2 & H3 & _ & H5 & H6).
  repeat (split; [assumption|]).
  rewrite (set_root_valid (Some out) "w" w eq_refl) in Es.
  change (String.eqb "w" "r") with false in Es. cbv iota in Es.
  match type of Es with
  | for_each _ _ ?w0 = _ =>
      destruct (set_root_folders (abspath out) _FOLDERS w0)
        as (x0 & w0' & E & _ & _ & _ & _ & _ & _ & Herr)
  end.
  rewrite E in Es. injection Es as <- <-.
  intros e He. destruct (Herr e He) as (n & f & Hn & Hd & Hmk).
  exists (join (abspath out) n), f. split; [|now split].
  unfold folder_paths. now apply in_map.
Qed.

End Root.

(** ** update: reading the model, the region check *)

Section Update.
Context {MC : ModelClass}.

Lemma in_world_eq {A : Type} (c : M World A) (r : Run) :
  in_world c r = (fst (c (world r)), mkRun (opt r) (trace r) (snd (c (world r)))).
Proof. unfold in_world, zoom. now destruct (c (world r)). Qed.

(** [update] after validation *)
Lemma update_unfold (model_out : option string) (write : bool) (r : Run) :
  update model_out write r =
  match _check_get_opt (opt r) (world r) with
  | (Ok _, w1) =>
      (update_read model_out ;;; update_check_region ;;; update_run write) (with_world w1 r)
  | (Raise e, w1) => (Raise e, with_world w1 r)
  end.
Proof.
  unfold update. unfold bind at 1. unfold gets at 1. unfold bind at 1.
  rewrite in_world_eq. unfold with_world.
  now destruct (_check_get_opt (opt r) (world r)) as [[o|e] w1].
Qed.

Lemma update_read_writable (model_out : option string) (r : Run) :
  _write (mdl (world r)) = true -> update_read model_out r = (Ok tt, r).
Proof.
  destruct r as [o t w]. cbn [world]. intros H.
  unfold update_read, bind, in_world, zoom, self, gets. cbn [world opt trace].
  rewrite H. reflexivity.
Qed.

Lemma update_read_not_writable (model_out : option string) (r : Run) :
  _write (mdl (world r)) = false ->
  update_read model_out r =
  match model_out with
  | None => (Raise model_out_required, r)
  | Some out => (call_attr "read" [] [] ;;; in_world (set_root model_out "w")) r
  end.
Proof.
  destruct r as [o t w]. cbn [world]. intros H.
  unfold update_read. unfold bind at 1. unfold in_world at 1, zoom, self, gets.
  cbn [world opt trace]. rewrite H. cbn [negb].
  destruct model_out; reflexivity.
Qed.

Lemma update_not_writable_eq (out : string) (write : bool) (r : Run) (w1 : World) :
  _check_get_opt (opt r) (world r) = (Ok (opt r), w1) ->
  _write (mdl w1) = false ->
  update (Some out) write r =
  match call_attr "read" [] [] (with_world w1 r) with
  | (Ok _, r1) =>
      match in_world (set_root (Some out) "w") r1 with
      | (Ok _, r2) => (update_check_region ;;; update_run write) r2
      | (Raise e, r2) => (Raise e, r2)
      end
  | (Raise e, r1) => (Raise e, r1)
  end.
Proof.
  intros Hv Hw. rewrite update_unfold, Hv. unfold bind at 1.
  rewrite (update_read_not_writable (Some out) (with_world w1 r) Hw). unfold bind at 1.
  destruct (call_attr "read" [] [] (with_world w1 r)) as [[v|e] r1]; reflexivity.
Qed.


Lemma update_writable (model_out : option string) (write : bool) (r : Run) (w1 : World) :
  _check_get_opt (opt r) (world r) = (Ok (opt r), w1) ->
  _write (mdl w1) = true ->
  update model_out write r = (update_check_region ;;; update_run write) (with_world w1 r).
Proof.
  intros Hv Hw. rewrite update_unfold, Hv. unfold bind at 1.
  now rewrite (update_read_writable model_out (with_world w1 r) Hw).
Qed.

Lemma staticgeoms_cached (r : Run) :
  is_empty (_staticgeoms (mdl (world r))) = false \/ _read (mdl (world r)) = false ->
  staticgeoms r = (Ok (_staticgeoms (mdl (world r))), r).
Proof.
  destruct r as [o t w]. cbn [world]. intros H.
  unfold staticgeoms, bind, in_world, zoom, self, gets. cbn [world opt trace].
  destruct (is_empty (_staticgeoms (mdl w))); cbn [when]; [|reflexivity].
  destruct H as [H|H]; [discriminate|]. cbn [world opt trace]. rewrite H. reflexivity.
Qed.

Lemma staticmaps_cached (r : Run) :
  is_empty (_staticmaps (mdl (world r))) = false ->
  staticmaps r = (Ok (_staticmaps (mdl (world r))), r).
Proof.
  destruct r as [o t w]. cbn [world]. intros H.
  unfold staticmaps, bind, in_world, zoom, self, gets. cbn [world opt trace].
  destruct (_staticmaps (mdl w)) eqn:E; [discriminate|].
  cbn [length Nat.eqb when ret world opt trace]. rewrite E. reflexivity.
Qed.

Lemma staticmaps_not_read (r : Run) :
  is_empty (_staticmaps (mdl (world r))) = true ->
  _read (mdl (world r)) = false ->
  exists r', staticmaps r = (Ok [], r') /\ opt r' = opt r /\ trace r' = trace r.
Proof.
  destruct r as [o t w]. cbn [world]. intros H Hr.
  unfold staticmaps, bind, in_world, zoom, self, gets, log, modify. cbn [world opt trace].
  destruct (_staticmaps (mdl w)) eqn:E; [|discriminate].
  cbn [length Nat.eqb when world opt trace].
  rewrite Hr. cbn [mdl on_model with_logger _staticmaps world opt trace]. rewrite E.
  eexists. split; [reflexivity|]. split; reflexivity.
Qed.

Lemma update_check_region_eq (k : M Run unit) (r : Run) :
  (update_check_region ;;; k) r =
  match staticgeoms r with
  | (Raise e, r1) => (Raise e, r1)
  | (Ok sg, r1) =>
      if ODict.mem "region" sg then k r1
      else
        match staticmaps r1 with
        | (Raise e, r2) => (Raise e, r2)
        | (Ok sm, r2) => if is_empty sm then (Raise region_not_found, r2) else k r2
        end
  end.
Proof.
  unfold update_check_region, region, bind, ret, lift_result.
  destruct (staticgeoms r) as [[sg|e] r1]; [|reflexivity].
  unfold ODict.mem. destruct (ODict.get "region" sg) as [g|]; [reflexivity|].
  destruct (staticmaps r1) as [[sm|e] r2]; [|reflexivity].
  now destruct sm.
Qed.

(** The region check, case by case on what the two properties return. *)
Lemma update_check_region_cases (k : M Run unit) (r : Run) :
  match staticgeoms r with
  | (Raise e, r1) => (update_check_region ;;; k) r = (Raise e, r1)
  | (Ok sg, r1) =>
      if ODict.mem "region" sg then (update_check_region ;;; k) r = k r1
      else
        match staticmaps r1 with
        | (Raise e, r2) => (update_check_region ;;; k) r = (Raise e, r2)
        | (Ok sm, r2) =>
            if is_empty sm then (update_check_region ;;; k) r = (Raise region_not_found, r2)
            else (update_check_region ;;; k) r = k r2
        end
  end.
Proof.
  rewrite update_check_region_eq.
  destruct (staticgeoms r) as [[sg|e] r1]; [|reflexivity].
  destruct (ODict.mem "region" sg); [reflexivity|].
  destruct (staticmaps r1) as [[sm|e] r2]; [|reflexivity].
  now destruct (is_empty sm).
Qed.

(** C6: on an option mapping that passes validation and a model that is
    then writable, update raises the ValueError [region_not_found] exactly
    when the geometries have no region entry and the maps are empty, and
    goes on to its last block when either exists; the geometries and the
    maps are those the two properties return, which are the collections in
    memory when the model does not read from disk or the collection is not
    empty. *)
Theorem update_region_check (model_out : option string) (write : bool) (r : Run)
  (w1 : World) :
  _check_get_opt (opt r) (world r) = (Ok (opt r), w1) ->
  _write (mdl w1) = true ->
  match staticgeoms (with_world w1 r) with
  | (Raise e, r1) => update model_out write r = (Raise e, r1)
  | (Ok sg, r1) =>
      if ODict.mem "region" sg then update model_out write r = update_run write r1
      else
        match staticmaps r1 with
        | (Raise e, r2) => update model_out write r = (Raise e, r2)
        | (Ok sm, r2) =>
            if is_empty sm then update model_out write r = (Raise region_not_found, r2)
            else update model_out write r = update_run write r2
        end
  end /\
  exn_cls region_not_found = ValueError /\
  (ODict.mem "region" (_staticgeoms (mdl w1)) = true ->
   update model_out write r = update_run write (with_world w1 r)) /\
  (_read (mdl w1) = false ->
   ODict.mem "region" (_staticgeoms (mdl w1)) = false ->
   if is_empty (_staticmaps (mdl w1))
   then fst (update model_out write r) = Raise region_not_found
   else update model_out write r = update_run write (with_world w1 r)).
Proof.
  intros Hv Hw. rewrite (update_writable model_out write r w1 Hv Hw).
  set (r0 := with_world w1 r).
  assert (Hw0 : world r0 = w1) by reflexivity.
  split; [apply update_check_region_cases|]. split; [reflexivity|]. split.
  - intros Hreg. pose proof (update_check_region_cases (update_run write) r0) as H.
    rewrite staticgeoms_cached in H.
    + rewrite Hw0 in H. now rewrite Hreg in H.
    + left. rewrite Hw0. unfold ODict.mem in Hreg. now destruct (_staticgeoms (mdl w1)).
  - intros Hrd Hreg. pose proof (update_check_region_cases (update_run write) r0) as H.
    rewrite staticgeoms_cached in H by (right; now rewrite Hw0).
    rewrite Hw0 in H. rewrite Hreg in H.
    destruct (is_empty (_staticmaps (mdl w1))) eqn:E.
    + destruct (staticmaps_not_read r0) as (r' & E' & _); [now rewrite Hw0 ..|].
      rewrite E' in H. cbn [is_empty] in H. now rewrite H.
    + rewrite (staticmaps_cached r0) in H by now rewrite Hw0.
      rewrite Hw0 in H. now rewrite E in H.
Qed.

End Update.


(** C6, on the demo class: a fresh model in WRITE mode has no region *)
Lemma update_region_check_witness :
  fst (update (MC := Demo.demo) None true (Demo.start false true [("setup_basemaps", [])])) =
  Raise region_not_found.
Proof.
  exact (proj2 (proj2 (proj2 (update_region_check (MC := Demo.demo) None true
                                (Demo.start false true [("setup_basemaps", [])])
                                (Demo.fresh_world false true) eq_refl eq_refl)))
           eq_refl eq_refl).
Defined.

(** ** The configuration tree *)

Section Config.
Context {C : ModelConsts}.

Lemma get_set_branch (keys : list string) (last : string) (v : value) (branch : dict) :
  ODict.get last (get_branch (set_branch branch keys last v) keys) = Some v.
Proof.
  revert branch. induction keys as [|k keys IH]; intros branch; cbn [set_branch get_branch].
  - apply ODictFacts.get_set_eq.
  - rewrite ODictFacts.get_set_eq. apply IH.
Qed.

Lemma split_not_nil (sep : ascii) (s : string) : Str.split sep s <> [].
Proof.
  destruct s as [|c s]; cbn [Str.split]; [discriminate|].
  destruct (Ascii.eqb c sep); [discriminate|].
  destruct (Str.split sep s); discriminate.
Qed.

Lemma init_last_some (args : list string) :
  args <> [] -> exists i l, init_last args = Some (i, l).
Proof.
  destruct args as [|k args]; [congruence|]. intros _. cbn [init_last].
  destruct (init_last args) as [[i l]|]; eauto.
Qed.

Lemma split_keys_not_nil (keys : list string) : keys <> [] -> split_keys keys <> [].
Proof.
  intros H. unfold split_keys. destruct keys as [|k [|k' rest]]; try assumption.
  destruct (Str.contains_char "." k); [|assumption].
  rewrite app_nil_r. apply split_not_nil.
Qed.

Ltac run_config :=
  cbv beta iota zeta delta [config read_config bind ret self gets modify log root raise when
                         on_model mdl fs _config _read _root _config_fn is_empty negb].

(** The property [config] returns the tree it leaves in the model, once the
    tree can be initialised. *)
Lemma config_returns_fst (w : World) :
  config_ready (mdl w) = true ->
  fst (config w) = Ok (_config (mdl (snd (config w)))).
Proof.
  destruct w as [m f]. destruct m as [rt rd wr cfn cfg sm sg fo st rs lg].
  unfold config_ready. cbn [mdl _config _read _root]. intros H.
  destruct cfg as [|kv cfg]; [|reflexivity].
  cbn [is_empty negb orb] in H.
  destruct rd; cbn [negb orb] in H.
  - destruct rt as [p|]; [|discriminate].
    destruct cfn as [cfn|].
    + destruct (isfile f (join p cfn)) eqn:E; run_config; rewrite E; reflexivity.
    + reflexivity.
  - destruct (isfile f (join (join _DATADIR _NAME) _CONF)) eqn:E;
      run_config; rewrite E; reflexivity.
Qed.

Lemma config_returns (w : World) :
  config_ready (mdl w) = true ->
  exists w', config w = (Ok (_config (mdl w')), w').
Proof.
  intros H. apply config_returns_fst in H. exists (snd (config w)).
  destruct (config w) as [c w1]. cbn [fst snd] in *. now rewrite H.
Qed.

(** [set_config] in a writable mode assigns the value at the end of the
    walk from the tree that [config] returns. *)
Lemma set_config_tree (keys init : list string) (last : string) (v : value) (w w1 : World)
  (c : dict) :
  _write (mdl w) = true ->
  config w = (Ok c, w1) ->
  _config (mdl w1) = c ->
  init_last (split_keys keys) = Some (init, last) ->
  exists w', set_config keys v w = (Ok tt, w') /\
             _config (mdl w') = set_branch c init last v.
Proof.
  intros Hw Hc Hc1 Hk. unfold set_config. unfold bind at 1. unfold self at 1, gets at 1.
  rewrite Hw. cbn [negb]. unfold bind at 1. rewrite Hc. unfold bind at 1.
  rewrite Hk. destruct (is_empty c) eqn:E; cbn [when].
  - unfold modify. eexists. split; [reflexivity|]. cbn.
    destruct c; [reflexivity | discriminate].
  - unfold ret, modify. eexists. split; [reflexivity|]. cbn. now rewrite Hc1.
Qed.

(** [get_config] without [abs_path] reads the end of the walk. *)
Lemma get_config_tree (keys init : list string) (last : string) (fallback : value) (w : World) :
  init_last (split_keys keys) = Some (init, last) ->
  get_config keys fallback false w =
  (Ok match ODict.get last (get_branch (_config (mdl w)) init) with
      | Some v => v
      | None => fallback
      end, w).
Proof. intros Hk. unfold get_config. rewrite Hk. reflexivity. Qed.

(** C4 (amended): on a model in a writable mode whose configuration can be
    initialised (the tree is not empty, or the mode is pure WRITE, or the
    root is set), [set_config] at a path followed by [get_config] at the
    same path returns the value set, whatever was on the way; and when the
    tree is empty once initialised, setting x at a.b makes [get_config]
    return x at a.b and the one-key mapping of b to x at a. *)
Theorem config_round_trip (w : World) :
  _write (mdl w) = true ->
  config_ready (mdl w) = true ->
  (forall keys v fallback,
      keys <> [] ->
      exists w',
        set_config keys v w = (Ok tt, w') /\
        get_config keys fallback false w' = (Ok v, w')) /\
  (fst (config w) = Ok [] ->
   forall fallback,
   exists w',
     set_config ["a.b"] (VStr "x") w = (Ok tt, w') /\
     get_config ["a.b"] fallback false w' = (Ok (VStr "x"), w') /\
     get_config ["a"] fallback false w' = (Ok (VDict [("b", VStr "x")]), w')).
Proof.
  intros Hw Hr. destruct (config_returns w Hr) as (w1 & Hc). split.
  - intros keys v fallback Hne.
    destruct (init_last_some _ (split_keys_not_nil keys Hne)) as (init & last & Hk).
    destruct (set_config_tree keys init last v w w1 _ Hw Hc eq_refl Hk) as (w' & Hs & Ht).
    exists w'. split; [exact Hs|].
    rewrite (get_config_tree keys init last fallback w' Hk), Ht, get_set_branch.
    reflexivity.
  - intros Hempty fallback. rewrite Hc in Hempty. cbn [fst] in Hempty.
    injection Hempty as Hempty.
    destruct (set_config_tree ["a.b"] ["a"] "b" (VStr "x") w w1 _ Hw Hc eq_refl eq_refl)
      as (w' & Hs & Ht).
    rewrite Hempty in Ht. cbn in Ht.
    exists w'. split; [exact Hs|]. split.
    + rewrite (get_config_tree ["a.b"] ["a"] "b" fallback w' eq_refl), Ht. reflexivity.
    + rewrite (get_config_tree ["a"] [] "a" fallback w' eq_refl), Ht. reflexivity.
Qed.

End Config.

(** C4, on the demo class in WRITE mode: a value set under a level that
    holds a string *)
Lemma config_round_trip_witness :
  exists w',
    set_config (C := Demo.demo_consts) ["global.name"] (VStr "test")
      (mkWorld (with_config [("global", VStr "flat")] (Demo.fresh false true)) Demo.empty_fs)
    = (Ok tt, w') /\
    get_config (C := Demo.demo_consts) ["global.name"] VNone false w' = (Ok (VStr "test"), w').
Proof.
  apply (proj1 (config_round_trip (C := Demo.demo_consts)
                  (mkWorld (with_config [("global", VStr "flat")] (Demo.fresh false true))
                     Demo.empty_fs) eq_refl eq_refl)).
  discriminate.
Defined.

(** C4 as stated fails: in mode r+ without a root, initialising the empty
    configuration reads the root, and [set_config] raises the ValueError of
    the property [root]. *)
Lemma set_config_needs_root :
  fst (set_config (C := Demo.demo_consts) ["a.b"] (VStr "x")
         (mkWorld (Demo.fresh true true) Demo.empty_fs)) =
  Raise (mkExn ValueError "Root unknown, use set_root method") /\
  _write (Demo.fresh true true) = true.
Proof. split; reflexivity. Qed.

(** ** Component setters and the mode *)

Section Updates.
Context {X : Type}.

Lemma update_cons (kv : string * X) (rest cur : list (string * X)) :
  ODict.update (kv :: rest) cur = ODict.update rest (ODict.set (fst kv) (snd kv) cur).
Proof. reflexivity. Qed.

(** [update] leaves the other names alone *)
Lemma update_get_other (named cur : list (string * X)) (k : string) :
  ~ In k (ODict.keys named) ->
  ODict.get k (ODict.update named cur) = ODict.get k cur.
Proof.
  revert cur. induction named as [|kv rest IH]; intros cur Hk; [reflexivity|].
  rewrite update_cons. cbn [ODict.keys map In] in Hk.
  rewrite IH by tauto. rewrite ODictFacts.get_set.
  destruct (String.eqb (fst kv) k) eqn:Ek; [|reflexivity].
  apply String.eqb_eq in Ek. tauto.
Qed.

(** [update] leaves every entry of a dictionary in the collection *)
Lemma update_get_in (named cur : list (string * X)) :
  ODict.wf named ->
  forall n a, In (n, a) named -> ODict.get n (ODict.update named cur) = Some a.
Proof.
  unfold ODict.wf. revert cur. induction named as [|kv rest IH]; intros cur Hnd n a Hin.
  - destruct Hin.
  - rewrite update_cons. cbn [ODict.keys map] in Hnd.
    inversion Hnd as [|? ? Hnotin Hnd']; subst.
    destruct Hin as [Hin|Hin].
    + subst kv. cbn [fst snd] in *.
      rewrite update_get_other by assumption. apply ODictFacts.get_set_eq.
    + now apply IH.
Qed.

Lemma get_app (k : string) (d1 d2 : list (string * X)) :
  ODict.get k (d1 ++ d2) =
  match ODict.get k d1 with
  | Some v => Some v
  | None => ODict.get k d2
  end.
Proof.
  induction d1 as [|[k0 v0] d1 IH]; cbn [app ODict.get]; [reflexivity|].
  now destruct (String.eqb k0 k).
Qed.

Lemma mem_app (k : string) (d1 d2 : list (string * X)) :
  ODict.mem k (d1 ++ d2) = ODict.mem k d1 || ODict.mem k d2.
Proof. unfold ODict.mem. rewrite get_app. now destruct (ODict.get k d1). Qed.

Lemma mem_in_keys (k : string) (d : list (string * X)) :
  ODict.mem k d = true <-> In k (ODict.keys d).
Proof.
  unfold ODict.mem. pose proof (ODictFacts.get_none_not_in k d) as H.
  destruct (ODict.get k d).
  - split; [|reflexivity]. intros _.
    destruct (in_dec string_dec k (ODict.keys d)) as [Hin|Hnin]; [assumption|].
    apply H in Hnin. discriminate.
  - split; [discriminate|]. intros Hin. exfalso. now apply (proj1 H).
Qed.

Lemma mem_head (n : string) (a : X) (rest : list (string * X)) :
  ODict.mem n ((n, a) :: rest) = true.
Proof. unfold ODict.mem. cbn [ODict.get]. now rewrite String.eqb_refl. Qed.

Lemma present_cons (kv : string * X) (rest cur : list (string * X)) :
  present (kv :: rest) cur = ODict.mem (fst kv) cur || present rest cur.
Proof. reflexivity. Qed.

Lemma present_set (rest cur : list (string * X)) (k : string) (v : X) :
  present rest cur = true -> present rest (ODict.set k v cur) = true.
Proof.
  unfold present. rewrite !existsb_exists. intros (n & Hin & Hm).
  exists n. split; [exact Hin|]. rewrite ODictFacts.mem_set, Hm. apply orb_true_r.
Qed.

Lemma present_false (named cur : list (string * X)) :
  present named cur = false ->
  forall n, In n (ODict.keys named) -> ODict.mem n cur = false.
Proof.
  unfold present. intros H n Hin.
  destruct (ODict.mem n cur) eqn:Em; [|reflexivity].
  assert (Ht : existsb (fun n => ODict.mem n cur) (ODict.keys named) = true).
  { apply existsb_exists. now exists n. }
  congruence.
Qed.

Lemma present_nil (named : list (string * X)) : present named [] = false.
Proof. unfold present. now induction (ODict.keys named). Qed.

Lemma accepted_always (cur named : list (string * X)) :
  accepted_by always cur named = true.
Proof. revert cur. induction named as [|kv rest IH]; intros cur; cbn; auto. Qed.

End Updates.

Section Setters.
Context {C : ModelConsts}.

Lemma field_with_field (k : kind) (x : list (string * array)) (m : Model) :
  field k (with_field k x m) = x.
Proof. destruct k; reflexivity. Qed.

Lemma write_with_field (k : kind) (x : list (string * array)) (m : Model) :
  _write (with_field k x m) = _write m.
Proof. destruct k; reflexivity. Qed.

Lemma field_with_logger (k : kind) (l : list log_record) (m : Model) :
  field k (with_logger l m) = field k m.
Proof. destruct k; reflexivity. Qed.

Ltac run_store :=
  cbv beta iota zeta delta [store_array store_map store_geom bind ret self gets modify log
                              raise when on_model lift_result];
  cbn [mdl fs fst snd].

Lemma store_array_spec (k : kind) :
  store_spec (field k) always conflicting_sizes (store_array k).
Proof.
  split.
  - intros kv [m f] H _. cbn [mdl] in H. run_store.
    destruct (ODict.mem (fst kv) (field k m)) eqn:Em.
    + destruct H as [H|H]; [|discriminate]. cbn [mdl fs]. rewrite H. cbn [negb mdl fs].
      eexists. split; [reflexivity|]. cbn [mdl].
      now rewrite field_with_field, write_with_field, field_with_logger.
    + eexists. split; [reflexivity|]. cbn [mdl].
      now rewrite field_with_field, write_with_field.
  - intros kv [m f] Hw Hm. cbn [mdl] in Hw, Hm. run_store. rewrite Hm. cbn [mdl fs].
    rewrite Hw. cbn [negb].
    eexists. split; reflexivity.
  - intros kv w _ H. discriminate.
Qed.

Lemma store_geom_spec : store_spec _staticgeoms always conflicting_sizes store_geom.
Proof.
  split.
  - intros kv [m f] H _. cbn [mdl] in H. run_store.
    destruct (ODict.mem (fst kv) (_staticgeoms m)) eqn:Em.
    + destruct H as [H|H]; [|discriminate]. cbn [mdl fs]. rewrite H. cbn [negb mdl fs].
      destruct (_read m); eexists; (split; [reflexivity|]); (split; [reflexivity|]); exact H.
    + eexists. split; [reflexivity|]. split; reflexivity.
  - intros kv [m f] Hw Hm. cbn [mdl] in Hw, Hm. run_store. rewrite Hm. cbn [mdl fs].
    rewrite Hw. cbn [negb].
    eexists. split; reflexivity.
  - intros kv w _ H. discriminate.
Qed.

Lemma store_map_spec : store_spec _staticmaps fits_map conflicting_sizes store_map.
Proof.
  split.
  - intros kv [m f] H Hf. cbn [mdl] in H, Hf. unfold fits_map in Hf.
    apply negb_true_iff in Hf. run_store. rewrite Hf.
    destruct (ODict.mem (fst kv) (_staticmaps m)) eqn:Em.
    + destruct H as [H|H]; [|discriminate]. cbn [mdl fs]. rewrite H. cbn [negb mdl fs].
      destruct (_read m); eexists; (split; [reflexivity|]); (split; [reflexivity|]); exact H.
    + eexists. split; [reflexivity|]. split; reflexivity.
  - intros kv [m f] Hw Hm. cbn [mdl] in Hw, Hm. run_store. rewrite Hm. cbn [mdl fs].
    rewrite Hw. cbn [negb].
    eexists. split; reflexivity.
  - intros kv [m f] H Hf. cbn [mdl] in H, Hf. unfold fits_map in Hf.
    apply negb_false_iff in Hf. run_store. rewrite Hf.
    destruct (ODict.mem (fst kv) (_staticmaps m)) eqn:Em.
    + destruct H as [H|H]; [|discriminate]. cbn [mdl fs]. rewrite H. cbn [negb mdl fs].
      destruct (_read m); eexists; (split; [reflexivity|]); (split; [reflexivity|]); exact H.
    + eexists. split; [reflexivity|]. split; reflexivity.
Qed.

(** *** Loops over a payload, for any body that meets [store_spec] *)

Section Loop.
Context {X : Type} (get : Model -> list (string * X))
  (fits : list (string * X) -> string * X -> bool) (no : exn)
  (body : string * X -> M World unit).
Hypothesis spec : store_spec get fits no body.

Lemma for_each_cons (kv : string * X) (rest : list (string * X)) (w : World) :
  for_each (kv :: rest) body w =
  match body kv w with
  | (Ok _, w') => for_each rest body w'
  | (Raise e, w') => (Raise e, w')
  end.
Proof. reflexivity. Qed.

(** in a writable mode the loop stores every entry of a payload that the
    collection takes *)
Lemma loop_write (named : list (string * X)) (w : World) :
  _write (mdl w) = true ->
  accepted_by fits (get (mdl w)) named = true ->
  exists w',
    for_each named body w = (Ok tt, w') /\
    _write (mdl w') = true /\
    get (mdl w') = ODict.update named (get (mdl w)).
Proof.
  revert w. induction named as [|kv rest IH]; intros w Hw Ha.
  - exists w. repeat split; assumption.
  - cbn [accepted_by] in Ha. apply andb_true_iff in Ha as [Hf Ha].
    destruct (st_ok get fits no body spec kv w (or_introl Hw) Hf) as (w1 & E & Hg & Hw1).
    rewrite for_each_cons, E. rewrite <- Hg in Ha.
    destruct (IH w1 ltac:(congruence) Ha) as (w' & E' & Hw' & Hg').
    exists w'. split; [exact E'|]. split; [exact Hw'|].
    now rewrite Hg', Hg, update_cons.
Qed.

(** new names are all stored, in any mode, after the entries already there *)
Lemma loop_fresh (named : list (string * X)) (w : World) :
  ODict.wf named ->
  present named (get (mdl w)) = false ->
  accepted_by fits (get (mdl w)) named = true ->
  exists w',
    for_each named body w = (Ok tt, w') /\
    get (mdl w') = get (mdl w) ++ named /\
    _write (mdl w') = _write (mdl w).
Proof.
  unfold ODict.wf. revert w. induction named as [|[n a] rest IH]; intros w Hnd Hfresh Ha.
  - exists w. rewrite app_nil_r. repeat split.
  - cbn [ODict.keys map fst] in Hnd. inversion Hnd as [|? ? Hnotin Hnd']; subst.
    rewrite present_cons in Hfresh. apply orb_false_iff in Hfresh as [Hn Hrest].
    cbn [fst] in Hn.
    cbn [accepted_by] in Ha. apply andb_true_iff in Ha as [Hf Ha].
    destruct (st_ok get fits no body spec (n, a) w (or_intror Hn) Hf) as (w1 & E & Hg & Hw1).
    cbn [fst snd] in Hg, Ha. rewrite <- Hg in Ha. rewrite ODictFacts.set_fresh in Hg.
    2:{ unfold ODict.mem in Hn. now destruct (ODict.get n (get (mdl w))). }
    destruct (IH w1 Hnd') as (w' & E' & Hg' & Hw').
    { unfold present. apply not_true_is_false. intros Ht.
      apply existsb_exists in Ht as (n' & Hin & Hm).
      rewrite Hg, mem_app, (present_false _ _ Hrest n' Hin) in Hm. cbn [orb] in Hm.
      unfold ODict.mem in Hm. cbn [ODict.get] in Hm.
      destruct (String.eqb n n') eqn:En; [|discriminate].
      apply String.eqb_eq in En. subst n'. contradiction. }
    { exact Ha. }
    exists w'. rewrite for_each_cons, E. split; [exact E'|]. split; [|congruence].
    now rewrite Hg', Hg, <- app_assoc.
Qed.

(** out of a writable mode a payload with a name that is there is refused
    with IOError *)
Lemma loop_present (named : list (string * X)) (w : World) :
  _write (mdl w) = false ->
  accepted_by fits (get (mdl w)) named = true ->
  present named (get (mdl w)) = true ->
  raises (fst (for_each named body w)) IOError.
Proof.
  revert w. induction named as [|kv rest IH]; intros w Hw Ha Hp; [discriminate|].
  rewrite for_each_cons. rewrite present_cons in Hp.
  destruct (ODict.mem (fst kv) (get (mdl w))) eqn:Em.
  - destruct (st_ro get fits no body spec kv w Hw Em) as (e & E & He). now rewrite E.
  - cbn [orb] in Hp. cbn [accepted_by] in Ha. apply andb_true_iff in Ha as [Hf Ha].
    destruct (st_ok get fits no body spec kv w (or_intror Em) Hf) as (w1 & E & Hg & Hw1).
    rewrite E. apply IH; [congruence | now rewrite Hg | rewrite Hg; now apply present_set].
Qed.

(** how the loop can fail: with IOError, out of a writable mode only, or
    with the error of an entry that the collection does not take *)
Lemma loop_fails (named : list (string * X)) (w w' : World) (e : exn) :
  for_each named body w = (Raise e, w') ->
  (exn_cls e = IOError /\ _write (mdl w) = false) \/
  (e = no /\ accepted_by fits (get (mdl w)) named = false).
Proof.
  revert w. induction named as [|kv rest IH]; intros w E; [discriminate|].
  rewrite for_each_cons in E. cbn [accepted_by].
  assert (Hcase : (_write (mdl w) = false /\ ODict.mem (fst kv) (get (mdl w)) = true) \/
                  (_write (mdl w) = true \/ ODict.mem (fst kv) (get (mdl w)) = false)).
  { destruct (_write (mdl w)), (ODict.mem (fst kv) (get (mdl w))); tauto. }
  destruct Hcase as [[Hw Hm]|H].
  - destruct (st_ro get fits no body spec kv w Hw Hm) as (e1 & E1 & He1).
    rewrite E1 in E. injection E as <- _. now left.
  - destruct (fits (get (mdl w)) kv) eqn:Hf.
    + destruct (st_ok get fits no body spec kv w H Hf) as (w1 & E1 & Hg & Hw1).
      rewrite E1 in E. destruct (IH w1 E) as [[He Hw]|[He Ha]].
      * left. split; [exact He | congruence].
      * right. split; [exact He|]. now rewrite <- Hg.
    + destruct (st_no get fits no body spec kv w H Hf) as (w1 & E1 & _).
      rewrite E1 in E. injection E as <- _. now right.
Qed.

(** in a writable mode a payload that the collection does not take makes
    the loop raise the error of the entry that does not fit *)
Lemma loop_refused (named : list (string * X)) (w : World) :
  _write (mdl w) = true ->
  accepted_by fits (get (mdl w)) named = false ->
  exists w', for_each named body w = (Raise no, w').
Proof.
  revert w. induction named as [|kv rest IH]; intros w Hw Ha; [discriminate|].
  rewrite for_each_cons. cbn [accepted_by] in Ha.
  destruct (fits (get (mdl w)) kv) eqn:Hf.
  - destruct (st_ok get fits no body spec kv w (or_introl Hw) Hf) as (w1 & E & Hg & Hw1).
    rewrite E. cbn [andb] in Ha. rewrite <- Hg in Ha. apply IH; congruence.
  - destruct (st_no get fits no body spec kv w (or_introl Hw) Hf) as (w1 & E & _).
    rewrite E. now exists w1.
Qed.

(** out of a writable mode the loop keeps every entry that is there *)
Lemma loop_read_only_keeps (named : list (string * X)) (w : World) :
  _write (mdl w) = false ->
  forall n a,
    ODict.get n (get (mdl w)) = Some a ->
    ODict.get n (get (mdl (snd (for_each named body w)))) = Some a.
Proof.
  revert w. induction named as [|kv rest IH]; intros w Hw n a Hn; [exact Hn|].
  rewrite for_each_cons.
  destruct (ODict.mem (fst kv) (get (mdl w))) eqn:Em.
  - destruct (st_ro get fits no body spec kv w Hw Em) as (e & E & _). now rewrite E.
  - destruct (fits (get (mdl w)) kv) eqn:Hf.
    + destruct (st_ok get fits no body spec kv w (or_intror Em) Hf) as (w1 & E & Hg & Hw1).
      rewrite E. apply IH; [congruence|]. rewrite Hg, ODictFacts.get_set.
      destruct (String.eqb (fst kv) n) eqn:Ek; [|exact Hn].
      apply String.eqb_eq in Ek. subst n. unfold ODict.mem in Em. now rewrite Hn in Em.
    + destruct (st_no get fits no body spec kv w (or_intror Em) Hf) as (w1 & E & Hg & _).
      rewrite E. cbn [snd]. now rewrite Hg.
Qed.

(** in a writable mode the loop leaves the other names alone, whatever its
    outcome *)
Lemma loop_write_other (named : list (string * X)) (w : World) (k : string) :
  _write (mdl w) = true ->
  ~ In k (ODict.keys named) ->
  ODict.get k (get (mdl (snd (for_each named body w)))) = ODict.get k (get (mdl w)).
Proof.
  revert w. induction named as [|kv rest IH]; intros w Hw Hk; [reflexivity|].
  rewrite for_each_cons. cbn [ODict.keys map In] in Hk.
  destruct (fits (get (mdl w)) kv) eqn:Hf.
  - destruct (st_ok get fits no body spec kv w (or_introl Hw) Hf) as (w1 & E & Hg & Hw1).
    rewrite E. rewrite IH; [|congruence|tauto].
    rewrite Hg, ODictFacts.get_set. destruct (String.eqb (fst kv) k) eqn:Ek; [|reflexivity].
    apply String.eqb_eq in Ek. tauto.
  - destruct (st_no get fits no body spec kv w (or_introl Hw) Hf) as (w1 & E & Hg & _).
    rewrite E. cbn [snd]. now rewrite Hg.
Qed.

End Loop.

End Setters.

Section SetterTheorems.
Context {C : ModelConsts}.

Lemma set_arrays_unfold (k : kind) (d : data) (name : option string) (w : World) :
  set_arrays k d name w =
  match named_arrays d name with
  | Ok named => for_each named (store_array k) w
  | Raise e => (Raise e, w)
  end.
Proof. unfold set_arrays, bind, lift_result. now destruct (named_arrays d name). Qed.

Lemma set_staticgeoms_geo (geom : data) (name : string) (w : World) :
  is_geo geom = true -> set_staticgeoms geom name w = store_geom (name, geom) w.
Proof. intros H. unfold set_staticgeoms. now rewrite H. Qed.

Lemma store_geom_loop (kv : string * data) (w : World) :
  for_each [kv] store_geom w = store_geom kv w.
Proof.
  cbn [for_each]. unfold bind, ret. now destruct (store_geom kv w) as [[[]|e] w'].
Qed.

Lemma set_staticmaps_dataset (d d1 : data) (name n1 : option string) (dv : dataset)
  (w : World) :
  staticmaps_name d name = Ok (d1, n1) ->
  as_dataset d1 n1 = Dataset dv ->
  set_staticmaps d name w =
  if Nat.eqb (length (_staticmaps (mdl w))) 0
  then (Ok tt, on_model (with_staticmaps dv) w)
  else for_each dv store_map w.
Proof.
  intros Hn Hd. unfold set_staticmaps. unfold bind at 1. unfold lift_result at 1.
  rewrite Hn. cbn [fst snd]. rewrite Hd. unfold bind at 1. unfold self at 1, gets at 1.
  destruct (Nat.eqb (length (_staticmaps (mdl w))) 0); reflexivity.
Qed.

(** what [set_staticmaps] does with each of the payloads of [map_payloads] *)
Lemma set_staticmaps_payload (dn : option string) (n k : string) (a : array)
  (dv : dataset) (d : data) (name : option string) (vars : dataset) (w : World) :
  In (d, name, vars) (map_payloads dn n k a dv) ->
  set_staticmaps d name w =
  if is_empty (_staticmaps (mdl w))
  then (Ok tt, on_model (with_staticmaps vars) w)
  else for_each vars store_map w.
Proof.
  intros Hin.
  assert (H : exists d1 n1,
             staticmaps_name d name = Ok (d1, n1) /\ as_dataset d1 n1 = Dataset vars).
  { cbn [map_payloads In] in Hin.
    destruct Hin as [E|[E|[E|[E|[]]]]]; injection E as <- <- <-.
    - exists (DataArray dn a), (Some n). split; [|reflexivity]. reflexivity.
    - exists (DataArray (Some n) a), (Some n). split; reflexivity.
    - exists (Dataset dv), None. split; reflexivity.
    - exists (Dataset [(n, a)]), (Some n). split; [|reflexivity].
      unfold staticmaps_name, in_list.
      cbn [ODict.keys map fst length Nat.eqb existsb andb hd].
      rewrite orb_false_r. destruct (String.eqb n k) eqn:E.
      + apply String.eqb_eq in E. subst k. cbn [negb select_var filter fst].
        now rewrite String.eqb_refl.
      + cbn [negb rename_vars map fst snd]. now rewrite String.eqb_refl. }
  destruct H as (d1 & n1 & Hn & Hd).
  rewrite (set_staticmaps_dataset d d1 name n1 vars w Hn Hd).
  now destruct (_staticmaps (mdl w)).
Qed.


End SetterTheorems.

Section Insertion.
Context {C : ModelConsts}.


(** C8 (amended): a dataset given with a name that is none of its
    variables is refused with the ValueError of the missing name unless it
    has exactly one variable; a dataset of one variable is taken with that
    variable renamed to the name given. *)
Theorem name_not_found (dv : dataset) (n : string) (w : World) :
  in_list n (ODict.keys dv) = false ->
  (length dv <> 1 ->
   set_staticmaps (Dataset dv) (Some n) w =
   (Raise (mkExn ValueError "Name not found in DataSet"), w)) /\
  (forall k a,
      dv = [(k, a)] ->
      set_staticmaps (Dataset dv) (Some n) w =
      if Nat.eqb (length (_staticmaps (mdl w))) 0
      then (Ok tt, on_model (with_staticmaps [(n, a)]) w)
      else for_each [(n, a)] store_map w).
Proof.
  intros Hnot. split.
  - intros Hlen. unfold set_staticmaps, bind, lift_result, staticmaps_name.
    unfold ODict.keys in *. rewrite length_map, Hnot.
    apply Nat.eqb_neq in Hlen. rewrite Hlen. reflexivity.
  - intros k a ->. apply (set_staticmaps_dataset _ (Dataset [(n, a)]) _ (Some n)).
    + unfold staticmaps_name. cbn [ODict.keys map fst length Nat.eqb] in *.
      rewrite Hnot. cbn [negb andb hd rename_vars map fst snd].
      now rewrite String.eqb_refl.
    + reflexivity.
Qed.

End Insertion.




(** C8, on a dataset of two variables *)
Lemma name_not_found_witness :
  set_staticmaps (C := Demo.demo_consts)
    (Dataset [("dem", Demo.grid); ("slope", Demo.grid)]) (Some "elevtn")
    (Demo.fresh_world false true) =
  (Raise (mkExn ValueError "Name not found in DataSet"), Demo.fresh_world false true).
Proof.
  apply (proj1 (name_not_found (C := Demo.demo_consts)
                  [("dem", Demo.grid); ("slope", Demo.grid)] "elevtn"
                  (Demo.fresh_world false true) eq_refl)).
  discriminate.
Defined.

(** C8 as stated fails: the dataset whose only variable is dem, given with
    the name elevtn, is stored under elevtn and nothing is raised. *)
Lemma single_variable_is_renamed :
  in_list "elevtn" (ODict.keys [("dem", Demo.grid)]) = false /\
  set_staticmaps (C := Demo.demo_consts) (Dataset [("dem", Demo.grid)]) (Some "elevtn")
    (Demo.fresh_world false true) =
  (Ok tt, on_model (with_staticmaps [("elevtn", Demo.grid)]) (Demo.fresh_world false true)).
Proof. split; reflexivity. Qed.

(** * Further properties of the model API *)

(** ** set_root *)

Section SetRoot.
Context {C : ModelConsts}.

(** the outcome of [set_root] in a writable mode with a root *)
Lemma set_root_writable (r mode : string) (w : World) :
  valid_mode mode = true ->
  mode <> "r" ->
  exists x w',
    set_root (Some r) mode w = (x, w') /\
    config_files (fs w') = config_files (fs w) /\
    (forall q, isdir (fs w) q = true -> isdir (fs w') q = true) /\
    (_read (mdl w') = true -> logger (mdl w') = logger (mdl w)) /\
    (is_ok x = true -> forall p, In p (folder_paths r) -> isdir (fs w') p = true) /\
    ((forall p, In p (folder_paths r) -> isdir (fs w) p = true) ->
     x = Ok tt /\ fs w' = fs w) /\
    (forall e, x = Raise e ->
       exists p f, In p (folder_paths r) /\ isdir f p = false /\
                   fst (makedirs p f) = Raise e).
Proof.
  intros Hv Hm. rewrite (set_root_valid (Some r) mode w Hv).
  apply String.eqb_neq in Hm. rewrite Hm.
  match goal with
  | |- context [for_each _ _ ?w0] =>
      destruct (set_root_folders (abspath r) _FOLDERS w0)
        as (x & w' & E & Hs & Hc & Hd & Hl & Hok & Hall & Herr)
  end.
  exists x, w'. split; [exact E|]. cbn [fs on_model mdl] in *.
  split; [exact Hc|]. split; [exact Hd|].
  assert (Hin : forall p, In p (folder_paths r) ->
                          exists name, In name _FOLDERS /\ p = join (abspath r) name).
  { intros p Hp. unfold folder_paths in Hp. apply in_map_iff in Hp as (n & <- & Hn).
    now exists n. }
  split; [|split; [|split]].
  - intros Hr. apply same_but_log_fields in Hs. destruct Hs as (_ & Hrd & _).
    apply Hl. rewrite Hrd. exact Hr.
  - intros Hx p Hp. destruct (Hin p Hp) as (n & Hn & ->). now apply Hok.
  - intros Ha. apply Hall. intros n Hn. apply Ha. unfold folder_paths. now apply in_map.
  - intros e He. destruct (Herr e He) as (n & f & Hn & Hd' & Hmk).
    exists (join (abspath r) n), f. split; [|now split].
    unfold folder_paths. now apply in_map.
Qed.

(** X1: the outcomes of [set_root].  An unknown mode is refused with
    ValueError.  With a valid mode and no root it returns.  With a root in
    mode r it returns when the root is a directory and raises IOError
    otherwise.  With a root in a writable mode it returns when every folder
    of the model is a directory already, every folder is a directory when
    it returns, and when it raises, the error is the one that [os.makedirs]
    raised for a folder that was no directory. *)
Theorem set_root_succeeds_iff (root : option string) (mode : string) (w : World) :
  (valid_mode mode = false -> raises (fst (set_root root mode w)) ValueError) /\
  (valid_mode mode = true ->
   match root with
   | None => fst (set_root root mode w) = Ok tt
   | Some r =>
       if String.eqb mode "r" then
         if isdir (fs w) (abspath r) then fst (set_root root mode w) = Ok tt
         else raises (fst (set_root root mode w)) IOError
       else
         ((forall p, In p (folder_paths r) -> isdir (fs w) p = true) ->
          fst (set_root root mode w) = Ok tt) /\
         (is_ok (fst (set_root root mode w)) = true ->
          forall p, In p (folder_paths r) ->
                    isdir (fs (snd (set_root root mode w))) p = true) /\
         (forall e,
             fst (set_root root mode w) = Raise e ->
             exists p f,
               In p (folder_paths r) /\ isdir f p = false /\
               fst (makedirs p f) = Raise e)
   end).
Proof.
  split; intros Hv.
  - destruct (set_root_invalid root mode w Hv) as (e & E & He). now rewrite E.
  - destruct root as [r|].
    + destruct (String.eqb mode "r") eqn:Em.
      * rewrite (set_root_valid (Some r) mode w Hv), Em.
        now destruct (isdir (fs w) (abspath r)).
      * apply String.eqb_neq in Em.
        destruct (set_root_writable r mode w Hv Em)
          as (x & w' & E & _ & _ & _ & Hok & Hall & Herr).
        rewrite E. cbn [fst snd]. split; [|split].
        -- intros Ha. now destruct (Hall Ha).
        -- exact Hok.
        -- exact Herr.
    + now rewrite (set_root_valid None mode w Hv).
Qed.

(** X2: whatever its outcome, [set_root] with a valid mode leaves the root
    and the two mode flags reassigned (also when it raises for a missing
    root) and the configuration and every collection as they were; with an
    unknown mode it raises ValueError and leaves the model and the file
    system as they were. *)
Theorem set_root_model (root : option string) (mode : string) (w : World) :
  (valid_mode mode = false ->
   snd (set_root root mode w) = w /\ raises (fst (set_root root mode w)) ValueError) /\
  (valid_mode mode = true ->
   same_but_log (mdl (snd (set_root root mode w)))
                (with_root (option_map abspath root) (negb (String.eqb mode "w"))
                           (negb (String.eqb mode "r")) (mdl w))).
Proof.
  split; intros Hv.
  - destruct (set_root_invalid root mode w Hv) as (e & E & He). rewrite E. now split.
  - now apply set_root_valid_model.
Qed.

(** X3: in a writable mode, when [set_root] with a root returns, every
    folder of the model is a directory; whatever its outcome, the
    directories and the configuration files that were there are kept. *)
Theorem set_root_creates_folders (r mode : string) (w : World) :
  valid_mode mode = true ->
  mode <> "r" ->
  (is_ok (fst (set_root (Some r) mode w)) = true ->
   forall p, In p (folder_paths r) ->
             isdir (fs (snd (set_root (Some r) mode w))) p = true) /\
  (forall q, isdir (fs w) q = true ->
             isdir (fs (snd (set_root (Some r) mode w))) q = true) /\
  config_files (fs (snd (set_root (Some r) mode w))) = config_files (fs w).
Proof.
  intros Hv Hm.
  destruct (set_root_writable r mode w Hv Hm) as (x & w' & E & Hc & Hd & _ & Hok & _).
  rewrite E. cbn [fst snd]. split; [exact Hok|]. split; [exact Hd | exact Hc].
Qed.

(** X4: [set_root] logs nothing unless the mode is pure WRITE, and in mode
    r it leaves the file system as it is. *)
Theorem set_root_quiet (root : option string) (mode : string) (w : World) :
  mode <> "w" ->
  logger (mdl (snd (set_root root mode w))) = logger (mdl w) /\
  (mode = "r" -> fs (snd (set_root root mode w)) = fs w).
Proof.
  intros Hm. destruct (valid_mode mode) eqn:Hv.
  2:{ destruct (set_root_invalid root mode w Hv) as (e & E & _). rewrite E. now split. }
  rewrite (set_root_valid root mode w Hv). apply String.eqb_neq in Hm. rewrite Hm.
  destruct root as [r|]; [|split; reflexivity].
  destruct (String.eqb mode "r") eqn:Er.
  - destruct (isdir (fs w) (abspath r)); split; reflexivity.
  - match goal with
    | |- context [for_each _ _ ?w0] =>
        destruct (set_root_folders (abspath r) _FOLDERS w0) as (x & w' & E & _ & _ & _ & Hl & _)
    end.
    rewrite E. cbn [snd]. split; [now rewrite (Hl eq_refl)|].
    intros ->. discriminate.
Qed.

Lemma with_root_id (m : Model) (r : option string) (rd wr : bool) :
  _root m = r -> _read m = rd -> _write m = wr -> with_root r rd wr m = m.
Proof. destruct m. cbn. now intros -> -> ->. Qed.

Lemma same_but_log_eq (m m' : Model) :
  same_but_log m m' -> logger m = logger m' -> m = m'.
Proof.
  destruct m, m'. unfold same_but_log, with_logger. cbn. intros H Hl.
  injection H. intros. subst. reflexivity.
Qed.

Lemma in_list_in (k : string) (l : list string) : in_list k l = true <-> In k l.
Proof.
  unfold in_list. rewrite existsb_exists. split.
  - intros (x & Hin & E). apply String.eqb_eq in E. now subst.
  - intros H. exists k. split; [assumption | apply String.eqb_refl].
Qed.

(** X5: [set_root] is idempotent: a second call with the same arguments
    after a call that returned succeeds, leaves the file system as the
    first call left it and the model too, up to the warnings that pure
    WRITE mode logs for the folders that now exist; in modes r and r+ the
    second call changes nothing at all. *)
Theorem set_root_idempotent (root : option string) (mode : string) (w w1 : World) :
  set_root root mode w = (Ok tt, w1) ->
  exists w2,
    set_root root mode w1 = (Ok tt, w2) /\
    fs w2 = fs w1 /\
    same_but_log (mdl w1) (mdl w2) /\
    (mode <> "w" -> w2 = w1).
Proof.
  intros E1.
  assert (Hv : valid_mode mode = true).
  { destruct (valid_mode mode) eqn:Hv; [reflexivity|].
    destruct (set_root_invalid root mode w Hv) as (e & E & _). congruence. }
  pose proof (set_root_valid_model root mode w Hv) as Hm. rewrite E1 in Hm. cbn [snd] in Hm.
  apply same_but_log_fields in Hm. cbn in Hm. destruct Hm as (Hr & Hrd & Hwr & _).
  assert (Hid : on_model (with_root (option_map abspath root) (negb (String.eqb mode "w"))
                                    (negb (String.eqb mode "r"))) w1 = w1).
  { destruct w1 as [m1 f1]. unfold on_model. cbn [mdl fs] in *. f_equal.
    now apply with_root_id. }
  rewrite (set_root_valid root mode w1 Hv).
  rewrite (set_root_valid root mode w Hv) in E1.
  destruct root as [r|]; cbn [option_map] in Hr, Hid.
  2:{ exists w1. rewrite Hid. split; [reflexivity|]. split; [reflexivity|].
      split; [reflexivity | auto]. }
  rewrite Hid. destruct (String.eqb mode "r") eqn:Er.
  - destruct (isdir (fs w) (abspath r)) eqn:Ed; [|discriminate].
    injection E1 as E1. assert (Hf : fs w1 = fs w) by (rewrite <- E1; reflexivity).
    rewrite Hf, Ed. exists w1. split; [reflexivity|]. split; [exact Hf|].
    split; [reflexivity | auto].
  - match type of E1 with
    | for_each _ _ ?w0 = _ =>
        destruct (set_root_folders (abspath r) _FOLDERS w0)
          as (x & w' & E & _ & _ & _ & _ & Hok & _)
    end.
    rewrite E in E1. injection E1 as -> ->.
    destruct (set_root_folders (abspath r) _FOLDERS w1)
      as (x2 & w2 & E2 & Hs2 & _ & _ & Hl2 & _ & Hall2 & _).
    destruct (Hall2 (Hok eq_refl)) as [-> Hfs].
    exists w2. split; [exact E2|]. split; [exact Hfs|]. split; [exact Hs2|].
    intros Hw. apply String.eqb_neq in Hw. rewrite Hw in Hrd. cbn [negb] in Hrd.
    destruct w1 as [m1 f1], w2 as [m2 f2]. cbn [mdl fs] in *. subst f2. f_equal.
    symmetry. apply same_but_log_eq; [exact Hs2 | symmetry; exact (Hl2 Hrd)].
Qed.

End SetRoot.

(** X1, on the demo class: in mode r a root that is no directory is
    refused; in mode w the folder is made on an empty disk, and a file at
    the place of the folder makes [os.makedirs] raise *)
Lemma set_root_succeeds_iff_witness :
  raises (fst (set_root (C := Demo.demo_consts) (Some "out") "a"
                 (Demo.fresh_world false true))) ValueError /\
  raises (fst (set_root (C := Demo.demo_consts) (Some "out") "r"
                 (Demo.fresh_world false true))) IOError /\
  (forall p, In p (folder_paths (C := Demo.demo_consts) "out") ->
             @isdir Demo.demo_consts
               (fs (snd (set_root (C := Demo.demo_consts) (Some "out") "w"
                           (Demo.fresh_world false true)))) p = true) /\
  (exists p f,
      In p (folder_paths (C := Demo.demo_consts) "out") /\
      @isdir Demo.demo_consts f p = false /\
      fst (@makedirs Demo.demo_consts p f) =
      Raise (mkExn FileExistsError "File exists: /cwd/out/")).
Proof.
  split; [|split; [|split]].
  - apply (proj1 (set_root_succeeds_iff (C := Demo.demo_consts) (Some "out") "a"
                    (Demo.fresh_world false true))).
    reflexivity.
  - apply (proj2 (set_root_succeeds_iff (C := Demo.demo_consts) (Some "out") "r"
                    (Demo.fresh_world false true)) eq_refl).
  - apply (proj1 (proj2 (proj2 (set_root_succeeds_iff (C := Demo.demo_consts) (Some "out") "w"
                                  (Demo.fresh_world false true)) eq_refl))).
    reflexivity.
  - apply (proj2 (proj2 (proj2 (set_root_succeeds_iff (C := Demo.demo_consts) (Some "out") "w"
                                  (mkWorld (Demo.fresh false true)
                                     (mkFS [] [("/cwd/out", [])]))) eq_refl))).
    reflexivity.
Defined.

(** X2, on the demo class: an unknown mode, and mode r with a root that is
    not there *)
Lemma set_root_model_witness :
  (snd (set_root (C := Demo.demo_consts) (Some "out") "a" (Demo.fresh_world false true)) =
   Demo.fresh_world false true /\
   raises (fst (set_root (C := Demo.demo_consts) (Some "out") "a"
                  (Demo.fresh_world false true))) ValueError) /\
  same_but_log
    (mdl (snd (set_root (C := Demo.demo_consts) (Some "out") "r" (Demo.fresh_world false true))))
    (with_root (Some "/cwd/out") true false (Demo.fresh false true)).
Proof.
  split.
  - apply (proj1 (set_root_model (C := Demo.demo_consts) (Some "out") "a"
                    (Demo.fresh_world false true))).
    reflexivity.
  - apply (proj2 (set_root_model (C := Demo.demo_consts) (Some "out") "r"
                    (Demo.fresh_world false true))).
    reflexivity.
Defined.

(** X3, on the demo class in mode w, on a disk with a directory *)
Lemma set_root_creates_folders_witness :
  (forall p, In p (folder_paths (C := Demo.demo_consts) "out") ->
             @isdir Demo.demo_consts
               (fs (snd (set_root (C := Demo.demo_consts) (Some "out") "w"
                               (mkWorld (Demo.fresh false false) (mkFS ["/data"] [])))))
               p = true) /\
  (forall q, @isdir Demo.demo_consts (mkFS ["/data"] []) q = true ->
             @isdir Demo.demo_consts (fs (snd (set_root (C := Demo.demo_consts) (Some "out") "w"
                               (mkWorld (Demo.fresh false false) (mkFS ["/data"] [])))))
               q = true) /\
  config_files (fs (snd (set_root (C := Demo.demo_consts) (Some "out") "w"
                           (mkWorld (Demo.fresh false false) (mkFS ["/data"] []))))) = [].
Proof.
  pose proof (set_root_creates_folders (C := Demo.demo_consts) "out" "w"
                (mkWorld (Demo.fresh false false) (mkFS ["/data"] []))
                eq_refl ltac:(discriminate)) as (H1 & H2 & H3).
  split; [exact (H1 eq_refl)|]. split; [exact H2 | exact H3].
Defined.

(** X4, on the demo class in mode r without a root *)
Lemma set_root_quiet_witness :
  logger (mdl (snd (set_root (C := Demo.demo_consts) None "r" (Demo.fresh_world false true)))) =
  logger (mdl (Demo.fresh_world false true)) /\
  fs (snd (set_root (C := Demo.demo_consts) None "r" (Demo.fresh_world false true))) =
  fs (Demo.fresh_world false true).
Proof.
  pose proof (set_root_quiet (C := Demo.demo_consts) None "r" (Demo.fresh_world false true)
                ltac:(discriminate)) as [Hl Hf].
  split; [exact Hl | exact (Hf eq_refl)].
Defined.

(** X5, on the demo class in mode w: the second call finds the folder *)
Lemma set_root_idempotent_witness :
  exists w2,
    set_root (C := Demo.demo_consts) (Some "out") "w"
      (snd (set_root (C := Demo.demo_consts) (Some "out") "w" (Demo.fresh_world false true))) =
    (Ok tt, w2) /\
    fs w2 =
    fs (snd (set_root (C := Demo.demo_consts) (Some "out") "w" (Demo.fresh_world false true))) /\
    same_but_log
      (mdl (snd (set_root (C := Demo.demo_consts) (Some "out") "w"
                   (Demo.fresh_world false true))))
      (mdl w2) /\
    ("w" <> "w" ->
     w2 = snd (set_root (C := Demo.demo_consts) (Some "out") "w" (Demo.fresh_world false true))).
Proof.
  apply (set_root_idempotent (C := Demo.demo_consts) (Some "out") "w"
           (Demo.fresh_world false true)).
  reflexivity.
Defined.

(** ** The constructor *)

Section Constructor.
Context {C : ModelConsts}.

Lemma init_unfold (root : option string) (mode : string) (config_fn : option string) (f : FS) :
  __init__ root mode config_fn f =
  match set_root root mode (mkWorld (blank config_fn) f) with
  | (Ok _, w) => (Ok tt, on_model placeholders w)
  | (Raise e, w) => (Raise e, w)
  end.
Proof.
  unfold __init__, bind, modify.
  now destruct (set_root root mode (mkWorld (blank config_fn) f)) as [[u|e] w].
Qed.

Lemma init_facts (root : option string) (mode : string) (config_fn : option string)
  (f : FS) :
  fst (__init__ root mode config_fn f) =
  fst (set_root root mode (mkWorld (blank config_fn) f)) /\
  fs (snd (__init__ root mode config_fn f)) =
  fs (snd (set_root root mode (mkWorld (blank config_fn) f))) /\
  (mode = "r" ->
   is_ok (fst (__init__ root mode config_fn f)) =
   match root with
   | None => true
   | Some r => isdir f (abspath r)
   end) /\
  (is_ok (fst (__init__ root mode config_fn f)) = true ->
   same_but_log (mdl (snd (__init__ root mode config_fn f)))
     (mkModel (option_map abspath root) (negb (String.eqb mode "w"))
              (negb (String.eqb mode "r"))
              (Some match config_fn with Some fn => fn | None => _CONF end)
              [] [] [] [] [] [] [])).
Proof.
  rewrite init_unfold.
  pose proof (set_root_valid_model root mode (mkWorld (blank config_fn) f)) as Hm.
  pose proof (set_root_valid root mode (mkWorld (blank config_fn) f)) as Hr.
  pose proof (set_root_invalid root mode (mkWorld (blank config_fn) f)) as Hi.
  destruct (set_root root mode (mkWorld (blank config_fn) f)) as [[[]|e] w] eqn:Es;
    cbn [fst snd is_ok fs mdl] in *.
  - split; [reflexivity|]. split; [now destruct w|]. split.
    + intros ->. specialize (Hr eq_refl). destruct root as [r|]; [|reflexivity].
      cbn [String.eqb Ascii.eqb Bool.eqb fs] in Hr.
      destruct (isdir f (abspath r)); [reflexivity | discriminate].
    + intros _.
      assert (Hv : valid_mode mode = true).
      { destruct (valid_mode mode); [reflexivity|].
        destruct (Hi eq_refl) as (e & E & _). discriminate. }
      specialize (Hm Hv). clear Hr Hi Hv. unfold same_but_log in *.
      destruct w as [m f']. cbn [mdl on_model snd] in *.
      destruct m.
      cbv beta iota delta [placeholders blank with_logger with_root with_results with_states
        with_config with_forcing with_staticgeoms with_staticmaps
        _root _read _write _config_fn _config _staticmaps _staticgeoms _forcing
        _states _results logger] in Hm |- *.
      injection Hm. intros. subst. reflexivity.
  - split; [reflexivity|]. split; [reflexivity|]. split; [|discriminate].
    intros ->. specialize (Hr eq_refl). destruct root as [r|]; [|discriminate].
    cbn [String.eqb Ascii.eqb Bool.eqb fs] in Hr.
    destruct (isdir f (abspath r)); [discriminate | reflexivity].
Qed.


(** X6: the constructor succeeds exactly when [set_root] does on the object
    that holds the name of the configuration file, with the same error and
    the same file system; in mode r that is when no root is given or the
    root is a directory.  The model it returns has an empty configuration
    and empty collections, the configuration file name given or else the
    one of the class, and the root and the flags of the mode. *)
Theorem init_model (root : option string) (mode : string) (config_fn : option string)
  (f : FS) :
  fst (__init__ root mode config_fn f) =
  fst (set_root root mode (mkWorld (blank config_fn) f)) /\
  fs (snd (__init__ root mode config_fn f)) =
  fs (snd (set_root root mode (mkWorld (blank config_fn) f))) /\
  (mode = "r" ->
   is_ok (fst (__init__ root mode config_fn f)) =
   match root with
   | None => true
   | Some r => isdir f (abspath r)
   end) /\
  (is_ok (fst (__init__ root mode config_fn f)) = true ->
   same_but_log (mdl (snd (__init__ root mode config_fn f)))
     (mkModel (option_map abspath root) (negb (String.eqb mode "w"))
              (negb (String.eqb mode "r"))
              (Some match config_fn with Some fn => fn | None => _CONF end)
              [] [] [] [] [] [] [])).
Proof. apply init_facts. Qed.

End Constructor.

(** X6, on the demo class: [Model("out")] on an empty file system, and in
    mode r *)
Lemma init_model_witness :
  same_but_log
    (mdl (snd (__init__ (C := Demo.demo_consts) (Some "out") "w" None Demo.empty_fs)))
    (mkModel (Some "/cwd/out") false true (Some "model.ini") [] [] [] [] [] [] []) /\
  is_ok (fst (__init__ (C := Demo.demo_consts) (Some "out") "r" None Demo.empty_fs)) =
  @isdir Demo.demo_consts Demo.empty_fs "/cwd/out".
Proof.
  split.
  - apply (proj2 (proj2 (proj2 (init_model (C := Demo.demo_consts) (Some "out") "w" None
                                  Demo.empty_fs)))).
    reflexivity.
  - apply (proj1 (proj2 (proj2 (init_model (C := Demo.demo_consts) (Some "out") "r" None
                                  Demo.empty_fs)))).
    reflexivity.
Defined.

(** ** The configuration tree, further *)

Section ConfigMore.
Context {C : ModelConsts}.

Ltac eval_config :=
  cbv beta iota zeta delta [config read_config bind ret self gets modify log root raise when
                         on_model mdl fs _config _read _write _root _config_fn is_empty negb
                         snd].

Lemma config_keeps (w : World) :
  config_ready (mdl w) = true ->
  _write (mdl (snd (config w))) = _write (mdl w) /\
  _read (mdl (snd (config w))) = _read (mdl w) /\
  _root (mdl (snd (config w))) = _root (mdl w).
Proof.
  destruct w as [m f]. destruct m as [rt rd wr cfn cfg sm sg fo st rs lg].
  unfold config_ready. cbn [mdl _config _read _root _write]. intros H.
  destruct cfg as [|kv cfg]; [|repeat split].
  cbn [is_empty negb orb] in H.
  destruct rd; cbn [negb orb] in H.
  - destruct rt as [p|]; [|discriminate].
    destruct cfn as [cfn|].
    + destruct (isfile f (join p cfn)) eqn:E; eval_config; rewrite E; repeat split.
    + repeat split.
  - destruct (isfile f (join (join _DATADIR _NAME) _CONF)) eqn:E;
      eval_config; rewrite E; repeat split.
Qed.

(** the state that [set_config] leaves in a writable mode *)
Lemma set_config_state (keys init : list string) (last : string) (v : value) (w w1 : World)
  (c : dict) :
  _write (mdl w) = true ->
  config w = (Ok c, w1) ->
  _config (mdl w1) = c ->
  init_last (split_keys keys) = Some (init, last) ->
  set_config keys v w = (Ok tt, on_model (with_config (set_branch c init last v)) w1).
Proof.
  intros Hw Hc Hc1 Hk. unfold set_config. unfold bind at 1. unfold self at 1, gets at 1.
  rewrite Hw. cbn [negb]. unfold bind at 1. rewrite Hc. unfold bind at 1.
  rewrite Hk. destruct w1 as [m1 f1]. cbn [mdl] in Hc1. subst c.
  destruct (_config m1) eqn:E; cbn [is_empty when]; unfold modify, ret, on_model;
    cbn [mdl fs]; destruct m1; cbn in *; subst; reflexivity.
Qed.

Lemma set_branch_not_nil (branch : dict) (keys : list string) (last : string) (v : value) :
  is_empty (set_branch branch keys last v) = false.
Proof.
  destruct keys as [|k keys]; cbn [set_branch].
  - destruct branch as [|[k0 v0] b]; cbn [ODict.set]; [reflexivity|].
    now destruct (String.eqb k0 last).
  - destruct branch as [|[k0 v0] b]; cbn [ODict.set]; [reflexivity|].
    now destruct (String.eqb k0 k).
Qed.

(** [set_config] on a writable model whose configuration can be initialised
    succeeds and leaves such a model, with a tree that is not empty *)
Lemma set_config_ready (keys : list string) (v : value) (w : World) :
  _write (mdl w) = true ->
  config_ready (mdl w) = true ->
  keys <> [] ->
  exists w',
    set_config keys v w = (Ok tt, w') /\
    _write (mdl w') = true /\
    is_empty (_config (mdl w')) = false.
Proof.
  intros Hw Hr Hne.
  destruct (config_returns w Hr) as (w1 & Hc).
  destruct (config_keeps w Hr) as (Hw1 & _). rewrite Hc in Hw1. cbn [snd] in Hw1.
  destruct (init_last_some _ (split_keys_not_nil keys Hne)) as (init & last & Hk).
  rewrite (set_config_state keys init last v w w1 _ Hw Hc eq_refl Hk).
  eexists. split; [reflexivity|]. destruct w1 as [m1 f1]. cbn [mdl on_model] in *.
  split.
  - destruct m1. cbn in *. congruence.
  - destruct m1. cbn. apply set_branch_not_nil.
Qed.

Lemma set_then_get (keys : list string) (v fallback : value) (w : World) :
  _write (mdl w) = true ->
  config_ready (mdl w) = true ->
  keys <> [] ->
  exists w',
    set_config keys v w = (Ok tt, w') /\
    get_config keys fallback false w' = (Ok v, w').
Proof.
  intros Hw Hr Hne. destruct (config_returns w Hr) as (w1 & Hc).
  destruct (init_last_some _ (split_keys_not_nil keys Hne)) as (init & last & Hk).
  destruct (set_config_tree keys init last v w w1 _ Hw Hc eq_refl Hk) as (w' & Hs & Ht).
  exists w'. split; [exact Hs|].
  now rewrite (get_config_tree keys init last fallback w' Hk), Ht, get_set_branch.
Qed.

(** X7: what a model that has just been constructed does with
    [set_config].  Constructed in mode w, which always succeeds without a
    root, it takes any path and gives the value back; constructed in mode
    r+ without a root, which always succeeds, it raises the ValueError of
    the unknown root; constructed in mode r it raises the IOError of the
    read-only mode. *)
Theorem init_then_set_config (rt : option string) (config_fn : option string) (f : FS)
  (keys : list string) (v fallback : value) :
  keys <> [] ->
  (forall w,
      __init__ rt "w" config_fn f = (Ok tt, w) ->
      exists w',
        set_config keys v w = (Ok tt, w') /\
        get_config keys fallback false w' = (Ok v, w')) /\
  (exists w, __init__ None "w" config_fn f = (Ok tt, w)) /\
  (exists w,
      __init__ None "r+" config_fn f = (Ok tt, w) /\
      raises (fst (set_config keys v w)) ValueError) /\
  (forall w, __init__ rt "r" config_fn f = (Ok tt, w) ->
             raises (fst (set_config keys v w)) IOError).
Proof.
  intros Hne. split; [|split; [|split]].
  - intros w E. pose proof (init_facts rt "w" config_fn f) as (_ & _ & _ & Hm).
    rewrite E in Hm. specialize (Hm eq_refl). apply same_but_log_fields in Hm. cbn in Hm.
    destruct Hm as (_ & Hrd & Hwr & _).
    apply (set_then_get keys v fallback w Hwr); [|exact Hne].
    unfold config_ready. now rewrite Hrd, orb_true_r.
  - eexists. reflexivity.
  - eexists. split; [reflexivity|].
    unfold set_config, config, read_config, root, bind, self, gets, when, ret, raise, modify.
    reflexivity.
  - intros w E. pose proof (init_facts rt "r" config_fn f) as (_ & _ & _ & Hm).
    rewrite E in Hm. specialize (Hm eq_refl). apply same_but_log_fields in Hm. cbn in Hm.
    destruct Hm as (_ & _ & Hwr & _). unfold set_config, bind, self, gets.
    now rewrite Hwr.
Qed.

End ConfigMore.

(** X7, on the demo class *)
Lemma init_then_set_config_witness :
  exists w',
    set_config (C := Demo.demo_consts) ["global.name"] (VStr "test")
      (snd (__init__ (C := Demo.demo_consts) (Some "out") "w" None Demo.empty_fs)) =
    (Ok tt, w') /\
    get_config (C := Demo.demo_consts) ["global.name"] VNone false w' =
    (Ok (VStr "test"), w').
Proof.
  apply (proj1 (init_then_set_config (C := Demo.demo_consts) (Some "out") None Demo.empty_fs
                  ["global.name"] (VStr "test") VNone ltac:(discriminate))).
  reflexivity.
Defined.

(** ** Dotted paths *)

Lemma split_no_sep (sep : ascii) (s : string) :
  Str.contains_char sep s = false -> Str.split sep s = [s].
Proof.
  induction s as [|c s IH]; cbn [Str.contains_char Str.split]; [reflexivity|].
  destruct (Ascii.eqb c sep); [discriminate|]. intros H. now rewrite (IH H).
Qed.

Lemma split_app_sep (sep : ascii) (k s : string) :
  Str.contains_char sep k = false ->
  Str.split sep (k +++ String sep s) = k :: Str.split sep s.
Proof.
  induction k as [|c k IH]; cbn [Str.contains_char String.append Str.split].
  - intros _. now rewrite Ascii.eqb_refl.
  - destruct (Ascii.eqb c sep); [discriminate|]. intros H. now rewrite (IH H).
Qed.

Lemma contains_app_sep (sep : ascii) (k s : string) :
  Str.contains_char sep (k +++ String sep s) = true.
Proof.
  induction k as [|c k IH]; cbn [String.append Str.contains_char].
  - now rewrite Ascii.eqb_refl.
  - now destruct (Ascii.eqb c sep).
Qed.

Lemma split_join_dots (keys : list string) :
  keys <> [] -> dot_free keys = true -> Str.split "."%char (join_dots keys) = keys.
Proof.
  induction keys as [|k keys IH]; [congruence|]. intros _ Hd.
  cbn [dot_free forallb] in Hd. apply andb_prop in Hd as [Hk Hd].
  apply negb_true_iff in Hk. destruct keys as [|k2 keys].
  - now apply split_no_sep.
  - change (join_dots (k :: k2 :: keys)) with (k +++ String "."%char (join_dots (k2 :: keys))).
    rewrite (split_app_sep _ _ _ Hk). f_equal. apply IH; [discriminate | exact Hd].
Qed.

Lemma join_split_dots (s : string) : join_dots (Str.split "."%char s) = s.
Proof.
  induction s as [|c s IH]; [reflexivity|]. cbn [Str.split].
  destruct (Ascii.eqb c "."%char) eqn:E.
  - apply Ascii.eqb_eq in E. subst c.
    destruct (Str.split "."%char s) as [|h t] eqn:Es.
    + now destruct (split_not_nil _ _ Es).
    + change (join_dots ("" :: h :: t)) with ("" +++ String "."%char (join_dots (h :: t))).
      now rewrite IH.
  - destruct (Str.split "."%char s) as [|h t] eqn:Es.
    + now destruct (split_not_nil _ _ Es).
    + rewrite <- IH. destruct t as [|h2 t]; reflexivity.
Qed.

Section Dotted.
Context {C : ModelConsts}.

Lemma split_keys_join_dots (keys : list string) :
  keys <> [] -> dot_free keys = true -> split_keys [join_dots keys] = split_keys keys.
Proof.
  intros Hne Hd. unfold split_keys.
  destruct keys as [|k [|k2 keys]]; [congruence| |].
  - reflexivity.
  - rewrite app_nil_r, (split_join_dots (k :: k2 :: keys) Hne Hd).
    change (join_dots (k :: k2 :: keys))
      with (k +++ String "."%char (join_dots (k2 :: keys))).
    now rewrite contains_app_sep.
Qed.

(** X8: a sequence of keys that hold no dot and their dotted form address
    the same place: [set_config] and [get_config] do the same with either;
    and joining what a path splits into gives the path back. *)
Theorem dotted_form_equivalent (keys : list string) :
  keys <> [] ->
  dot_free keys = true ->
  (forall v w, set_config [join_dots keys] v w = set_config keys v w) /\
  (forall fallback abs_path w,
      get_config [join_dots keys] fallback abs_path w = get_config keys fallback abs_path w) /\
  (forall path, join_dots (Str.split "."%char path) = path).
Proof.
  intros Hne Hd. pose proof (split_keys_join_dots keys Hne Hd) as E.
  split; [|split].
  - intros v w. unfold set_config. now rewrite E.
  - intros fallback abs_path w. unfold get_config. now rewrite E.
  - apply join_split_dots.
Qed.

End Dotted.

(** X8, on the demo class: the keys a, b and the path a.b *)
Lemma dotted_form_equivalent_witness :
  set_config (C := Demo.demo_consts) [join_dots ["a"; "b"]] (VStr "x") Demo.configured =
  set_config (C := Demo.demo_consts) ["a"; "b"] (VStr "x") Demo.configured.
Proof.
  apply (proj1 (dotted_form_equivalent (C := Demo.demo_consts) ["a"; "b"]
                  ltac:(discriminate) eq_refl)).
Defined.

(** ** Reading and writing the tree *)

Section Tree.
Context {C : ModelConsts}.

Lemma get_branch_nil (keys : list string) : get_branch [] keys = [].
Proof. induction keys as [|k keys IH]; [reflexivity | exact IH]. Qed.

Lemma init_last_app (args init : list string) (last : string) :
  init_last args = Some (init, last) -> args = init ++ [last].
Proof.
  revert init. induction args as [|k args IH]; intros init; cbn [init_last]; [discriminate|].
  destruct (init_last args) as [[i l]|] eqn:E.
  - intros H. injection H as <- <-. cbn [app]. now rewrite (IH i eq_refl).
  - intros H. injection H as <- <-. destruct args; [reflexivity|].
    cbn [init_last] in E. destruct (init_last args) as [[? ?]|]; discriminate.
Qed.

(** X9: [get_config] without [abs_path] never changes the model, and a path
    whose first key is missing, or holds a value that is not a mapping while
    the path goes on, reads as the fallback. *)
Theorem get_config_fallback (keys : list string) (fallback : value) (w : World) :
  keys <> [] ->
  snd (get_config keys fallback false w) = w /\
  (ODict.get (first_key keys) (_config (mdl w)) = None ->
   get_config keys fallback false w = (Ok fallback, w)) /\
  (forall v,
      ODict.get (first_key keys) (_config (mdl w)) = Some v ->
      is_dict v = false ->
      (length (split_keys keys) > 1)%nat ->
      get_config keys fallback false w = (Ok fallback, w)).
Proof.
  intros Hne. destruct (init_last_some _ (split_keys_not_nil keys Hne)) as (init & last & Hk).
  rewrite (get_config_tree keys init last fallback w Hk). unfold first_key.
  rewrite (init_last_app _ _ _ Hk). split; [reflexivity|]. split.
  - intros Hnone. destruct init as [|k init]; cbn [app hd get_branch] in *.
    + now rewrite Hnone.
    + now rewrite Hnone, get_branch_nil.
  - intros v Hv Hnd Hlen. destruct init as [|k init]; cbn [app hd get_branch length] in *.
    + lia.
    + rewrite Hv. now destruct v.
Qed.

Lemma config_not_empty (w : World) :
  is_empty (_config (mdl w)) = false -> config w = (Ok (_config (mdl w)), w).
Proof.
  intros H. unfold config, bind, self, gets. rewrite H. reflexivity.
Qed.

Lemma set_branch_other (branch : dict) (init : list string) (last : string) (v : value)
  (k : string) :
  k <> hd "" (init ++ [last]) ->
  ODict.get k (set_branch branch init last v) = ODict.get k branch.
Proof.
  destruct init as [|k0 init]; cbn [app hd set_branch]; intros Hk;
    rewrite ODictFacts.get_set;
    match goal with |- context [String.eqb ?a k] => destruct (String.eqb a k) eqn:E end;
    try reflexivity; apply String.eqb_eq in E; congruence.
Qed.

Lemma with_config_id (w : World) : on_model (with_config (_config (mdl w))) w = w.
Proof. destruct w as [m f]. destruct m. reflexivity. Qed.


Lemma set_set {V : Type} (k : string) (v1 v2 : V) (d : list (string * V)) :
  ODict.set k v2 (ODict.set k v1 d) = ODict.set k v2 d.
Proof.
  induction d as [|[k0 v0] d IH]; cbn [ODict.set].
  - now rewrite String.eqb_refl.
  - destruct (String.eqb k0 k) eqn:E; cbn [ODict.set].
    + now rewrite String.eqb_refl.
    + now rewrite E, IH.
Qed.

Lemma set_branch_overwrite (branch : dict) (init : list string) (last : string)
  (v1 v2 : value) :
  set_branch (set_branch branch init last v1) init last v2 = set_branch branch init last v2.
Proof.
  revert branch. induction init as [|k init IH]; intros branch; cbn [set_branch].
  - apply set_set.
  - now rewrite ODictFacts.get_set_eq, IH, set_set.
Qed.

(** X11: the last value set at a path wins: on a writable model whose
    configuration can be initialised, setting a path twice leaves the model
    that setting the second value alone leaves. *)
Theorem set_config_last_wins (keys : list string) (v1 v2 : value) (w : World) :
  _write (mdl w) = true ->
  config_ready (mdl w) = true ->
  keys <> [] ->
  (set_config keys v1 ;;; set_config keys v2) w = set_config keys v2 w /\
  is_ok (fst (set_config keys v2 w)) = true.
Proof.
  intros Hw Hr Hne.
  destruct (config_returns w Hr) as (w1 & Hc).
  destruct (config_keeps w Hr) as (Hw1 & _). rewrite Hc in Hw1. cbn [snd] in Hw1.
  destruct (init_last_some _ (split_keys_not_nil keys Hne)) as (init & last & Hk).
  unfold bind.
  rewrite !(set_config_state keys init last _ w w1 _ Hw Hc eq_refl Hk).
  split; [|reflexivity].
  set (c1 := set_branch (_config (mdl w1)) init last v1).
  assert (Hc1 : config (on_model (with_config c1) w1) = (Ok c1, on_model (with_config c1) w1)).
  { rewrite config_not_empty; destruct w1 as [m1 f1]; destruct m1; cbn; [reflexivity|].
    apply set_branch_not_nil. }
  assert (Hw2 : _write (mdl (on_model (with_config c1) w1)) = true).
  { rewrite <- Hw, <- Hw1. destruct w1 as [m1 f1]. now destruct m1. }
  assert (Hcc : _config (mdl (on_model (with_config c1) w1)) = c1).
  { destruct w1 as [m1 f1]. now destruct m1. }
  rewrite (set_config_state keys init last v2 _ _ c1 Hw2 Hc1 Hcc Hk).
  unfold c1. rewrite set_branch_overwrite.
  destruct w1 as [m1 f1]. destruct m1. reflexivity.
Qed.

(** X12: [setup_config] without options does nothing in any mode; with
    options it raises the read-only IOError out of a writable mode, having
    logged only, and never fails on a writable model whose configuration
    can be initialised. *)
Theorem setup_config_cases (cfdict : dict) (w : World) :
  setup_config [] w = (Ok tt, w) /\
  (_write (mdl w) = false ->
   cfdict <> [] ->
   raises (fst (setup_config cfdict w)) IOError /\
   same_but_log (mdl w) (mdl (snd (setup_config cfdict w))) /\
   fs (snd (setup_config cfdict w)) = fs w) /\
  (_write (mdl w) = true ->
   config_ready (mdl w) = true ->
   is_ok (fst (setup_config cfdict w)) = true).
Proof.
  split; [reflexivity|]. split.
  - intros Hw Hne. destruct cfdict as [|kv rest]; [congruence|].
    unfold setup_config, bind, log, modify, set_config, self, gets. cbn [is_empty negb when].
    unfold modify. cbn [for_each]. unfold bind, self, gets.
    destruct w as [m f]. cbn [mdl on_model with_logger _write] in *.
    destruct m. cbn in *. subst. repeat split.
  - intros Hw Hr. unfold setup_config. unfold bind at 1.
    assert (Hlog : exists w0,
               when (negb (is_empty cfdict)) (log (Log DEBUG "Setting model config options.")) w
               = (Ok tt, w0) /\ _write (mdl w0) = true /\ config_ready (mdl w0) = true).
    { destruct cfdict; cbn [is_empty negb when].
      - exists w. now repeat split.
      - eexists. split; [reflexivity|]. destruct w as [m f]. destruct m. now split. }
    destruct Hlog as (w0 & E & Hw0 & Hr0). rewrite E. clear E Hw Hr w.
    revert w0 Hw0 Hr0. induction cfdict as [|kv rest IH]; intros w Hw Hr; [reflexivity|].
    cbn [for_each]. unfold bind at 1.
    destruct (set_config_ready [fst kv] (snd kv) w Hw Hr ltac:(discriminate))
      as (w' & E & Hw' & Hc').
    rewrite E. apply IH; [exact Hw'|]. unfold config_ready. now rewrite Hc'.
Qed.

End Tree.

(** X9, on the demo class: the path goes on under a value that is a string *)
Lemma get_config_fallback_witness :
  get_config (C := Demo.demo_consts) ["global.name"] (VStr "none") false Demo.configured =
  (Ok (VStr "none"), Demo.configured).
Proof.
  apply (proj2 (proj2 (get_config_fallback (C := Demo.demo_consts) ["global.name"]
                         (VStr "none") Demo.configured ltac:(discriminate)))
           (VStr "flat")).
  - reflexivity.
  - reflexivity.
  - apply le_n.
Defined.


(** X11, on the demo class *)
Lemma set_config_last_wins_witness :
  (set_config (C := Demo.demo_consts) ["global.name"] (VStr "first") ;;;
   set_config (C := Demo.demo_consts) ["global.name"] (VStr "second")) Demo.configured =
  set_config (C := Demo.demo_consts) ["global.name"] (VStr "second") Demo.configured /\
  is_ok (fst (set_config (C := Demo.demo_consts) ["global.name"] (VStr "second") Demo.configured))
  = true.
Proof.
  apply (set_config_last_wins (C := Demo.demo_consts) ["global.name"] (VStr "first")
           (VStr "second") Demo.configured).
  - reflexivity.
  - reflexivity.
  - discriminate.
Defined.

(** X12, on the demo class: options out of a writable mode, and in it *)
Lemma setup_config_cases_witness :
  (raises (fst (setup_config (C := Demo.demo_consts) [("global.name", VStr "test")]
                  (Demo.fresh_world true false))) IOError /\
   same_but_log (mdl (Demo.fresh_world true false))
     (mdl (snd (setup_config (C := Demo.demo_consts) [("global.name", VStr "test")]
                  (Demo.fresh_world true false)))) /\
   fs (snd (setup_config (C := Demo.demo_consts) [("global.name", VStr "test")]
              (Demo.fresh_world true false))) = fs (Demo.fresh_world true false)) /\
  is_ok (fst (setup_config (C := Demo.demo_consts) [("global.name", VStr "test")] Demo.configured))
  = true.
Proof.
  split.
  - apply (proj1 (proj2 (setup_config_cases (C := Demo.demo_consts)
                           [("global.name", VStr "test")] (Demo.fresh_world true false))));
      [reflexivity | discriminate].
  - apply (proj2 (proj2 (setup_config_cases (C := Demo.demo_consts)
                           [("global.name", VStr "test")] Demo.configured)));
      reflexivity.
Defined.

(** ** Dispatch *)

Section Dispatch.
Context {MC : ModelClass}.

Lemma length_enumerate {A : Type} (l : list A) : length (enumerate l) = length l.
Proof. unfold enumerate. rewrite length_combine, length_seq. apply Nat.min_id. Qed.

(** The records of [log_params]: it cannot fail, it appends at most one
    debug record for each declared parameter and touches nothing else. *)
Lemma log_params_logs (method : string) (signature : list (string * option value))
  (args : list value) (kwargs : dict) (w : World) :
  exists w0 recs,
    log_params method signature args kwargs w = (Ok tt, w0) /\
    fs w0 = fs w /\
    same_but_log (mdl w) (mdl w0) /\
    logger (mdl w0) = logger (mdl w) ++ recs /\
    (length recs <= length signature)%nat /\
    (forall rec, In rec recs ->
       exists k v, rec = LogParam method k v /\ In k (map fst signature)).
Proof.
  unfold log_params.
  match goal with |- context [for_each _ ?b] => set (body := b) end.
  assert (Hstep : forall ikv w1,
             exists w2 recs,
               body ikv w1 = (Ok tt, w2) /\ fs w2 = fs w1 /\
               same_but_log (mdl w1) (mdl w2) /\
               logger (mdl w2) = logger (mdl w1) ++ recs /\
               (length recs <= 1)%nat /\
               (forall rec, In rec recs -> exists v, rec = LogParam method (fst (snd ikv)) v)).
  { intros ikv w1.
    assert (Hlog : forall v,
               exists w2 recs,
                 log (LogParam method (fst (snd ikv)) v) w1 = (Ok tt, w2) /\ fs w2 = fs w1 /\
                 same_but_log (mdl w1) (mdl w2) /\
                 logger (mdl w2) = logger (mdl w1) ++ recs /\
                 (length recs <= 1)%nat /\
                 (forall rec, In rec recs -> exists v, rec = LogParam method (fst (snd ikv)) v)).
    { intros v. eexists. exists [LogParam method (fst (snd ikv)) v].
      split; [reflexivity|]. split; [reflexivity|]. split; [reflexivity|].
      split; [reflexivity|]. split; [apply le_n|].
      intros rec [<-|[]]. now exists v. }
    assert (Hret : exists w2 recs,
               ret tt w1 = (Ok tt, w2) /\ fs w2 = fs w1 /\
               same_but_log (mdl w1) (mdl w2) /\
               logger (mdl w2) = logger (mdl w1) ++ recs /\
               (length recs <= 1)%nat /\
               (forall rec, In rec recs -> exists v, rec = LogParam method (fst (snd ikv)) v)).
    { exists w1, []. rewrite app_nil_r. repeat split; [apply le_S, le_n | intros rec []]. }
    unfold body. cbv zeta.
    destruct (ODict.get (fst (snd ikv)) kwargs) as [v|]; [apply Hlog|].
    destruct (snd (snd ikv)) as [v|]; [apply Hlog|].
    destruct (nth_error args (fst ikv)) as [v|]; [apply Hlog | exact Hret]. }
  assert (Hloop : forall l w1,
             exists w2 recs,
               for_each l body w1 = (Ok tt, w2) /\ fs w2 = fs w1 /\
               same_but_log (mdl w1) (mdl w2) /\
               logger (mdl w2) = logger (mdl w1) ++ recs /\
               (length recs <= length l)%nat /\
               (forall rec, In rec recs ->
                  exists ikv v, In ikv l /\ rec = LogParam method (fst (snd ikv)) v)).
  { induction l as [|ikv l IH]; intros w1.
    - exists w1, []. rewrite app_nil_r. repeat split; [apply le_n | intros rec []].
    - destruct (Hstep ikv w1) as (w2 & recs1 & E1 & Hf1 & Hs1 & Hl1 & Hn1 & Hr1).
      destruct (IH w2) as (w3 & recs2 & E2 & Hf2 & Hs2 & Hl2 & Hn2 & Hr2).
      exists w3, (recs1 ++ recs2). cbn [for_each]. unfold bind. rewrite E1.
      split; [exact E2|]. split; [congruence|].
      split; [unfold same_but_log in *; congruence|].
      split; [now rewrite Hl2, Hl1, app_assoc|].
      split; [rewrite length_app; cbn [length]; lia|].
      intros rec Hin. apply in_app_or in Hin as [Hin|Hin].
      + destruct (Hr1 rec Hin) as (v & ->). exists ikv, v. split; [now left | reflexivity].
      + destruct (Hr2 rec Hin) as (ikv' & v & Hin' & ->). exists ikv', v.
        split; [now right | reflexivity]. }
  destruct (Hloop (enumerate signature) w) as (w0 & recs & E & Hf & Hs & Hl & Hn & Hr).
  exists w0, recs. split; [exact E|]. split; [exact Hf|]. split; [exact Hs|].
  split; [exact Hl|]. split; [now rewrite length_enumerate in Hn|].
  intros rec Hin. destruct (Hr rec Hin) as (ikv & v & Hin' & ->).
  exists (fst (snd ikv)), v. split; [reflexivity|].
  apply in_map. destruct ikv as [i kv]. unfold enumerate in Hin'.
  now apply in_combine_r in Hin'.
Qed.

Lemma check_get_opt_ok (o o' : optmap) (w w1 : World) :
  _check_get_opt o w = (Ok o', w1) -> o' = o.
Proof.
  rewrite check_get_opt_eq. destruct (check_keys (ODict.keys o) w) as [[u|e] w'];
    congruence.
Qed.

(** validation of keys none of which names a property, nor does its setup_
    form: the model is left alone, and an error is one of the two of
    [_check_get_opt] *)
Lemma check_keys_plain_all (methods : list string) (w : World) :
  forallb (fun k => plain (canonical k) && plain ("setup_" +++ canonical k)) methods = true ->
  snd (check_keys methods w) = w /\
  (forall e, fst (check_keys methods w) = Raise e ->
             exn_cls e = ValueError \/ exn_cls e = DeprecationWarning).
Proof.
  induction methods as [|k rest IH]; cbn [forallb].
  - intros _. split; [reflexivity | discriminate].
  - intros H. apply andb_prop in H as [Hk Hrest]. apply andb_prop in Hk as [Hp Hs].
    rewrite check_keys_cons, (getattr_plain _ w Hp).
    destruct (callable (attrs (canonical k))); [now apply IH|].
    rewrite (hasattr_plain _ w Hp).
    destruct (known (canonical k)).
    + split; [reflexivity|]. intros e E. injection E as <-. now left.
    + rewrite (hasattr_plain _ w Hs).
      destruct (known ("setup_" +++ canonical k)); (split; [reflexivity|]);
        intros e E; injection E as <-; [now right | now left].
Qed.

Lemma run_log_method_eq (method : string) (args : list value) (kwargs : dict) (r : Run) :
  ODict.mem "self" kwargs || ODict.mem "method" kwargs = false ->
  _run_log_method method args kwargs r =
  match getattr (canonical method) (world r) with
  | (Raise e, w1) => (Raise e, with_world w1 r)
  | (Ok (Callable signature impl), w1) =>
      (in_world (log_params (canonical method) signature args kwargs) ;;;
       record_call (EvCall (canonical method) args kwargs) ;;;
       in_world (impl args kwargs)) (with_world w1 r)
  | (Ok _, w1) =>
      (Raise (mkExn TypeError "object is not a callable object"), with_world w1 r)
  end.
Proof.
  intros Hkw. unfold _run_log_method. rewrite Hkw. unfold bind at 1.
  rewrite in_world_eq. unfold with_world.
  now destruct (getattr (canonical method) (world r)) as [[[signature impl|v|g]|e] w1].
Qed.

(** validation of keys that name no property leaves the world of the run *)
Lemma validated_plain (r : Run) :
  forallb (fun k => plain (canonical k) && plain ("setup_" +++ canonical k))
    (ODict.keys (opt r)) = true ->
  validated r = world r.
Proof.
  intros Hp. unfold validated. rewrite check_get_opt_eq.
  destruct (check_keys_plain_all (ODict.keys (opt r)) (world r) Hp) as [Hw _].
  now destruct (check_keys (ODict.keys (opt r)) (world r)) as [[u|e] w'].
Qed.

(** [_run_log_method] by what the lookup of the name gives *)
Lemma run_log_method_lookup (method : string) (args : list value) (kwargs : dict)
  (r : Run) :
  ODict.mem "self" kwargs || ODict.mem "method" kwargs = false ->
  match getattr (canonical method) (world r) with
  | (Raise e, w1) => _run_log_method method args kwargs r = (Raise e, with_world w1 r)
  | (Ok (Callable signature impl), w1) =>
      exists w0 recs,
        fs w0 = fs w1 /\
        same_but_log (mdl w1) (mdl w0) /\
        logger (mdl w0) = logger (mdl w1) ++ recs /\
        (length recs <= length signature)%nat /\
        (forall rec, In rec recs ->
           exists k v, rec = LogParam (canonical method) k v /\ In k (map fst signature)) /\
        _run_log_method method args kwargs r =
        (fst (impl args kwargs w0),
         mkRun (opt r) (trace r ++ [EvCall (canonical method) args kwargs])
               (snd (impl args kwargs w0)))
  | (Ok _, w1) =>
      is_ok (fst (_run_log_method method args kwargs r)) = false /\
      snd (_run_log_method method args kwargs r) = with_world w1 r
  end.
Proof.
  intros Hkw. rewrite (run_log_method_eq method args kwargs r Hkw). unfold with_world.
  destruct (getattr (canonical method) (world r)) as [[[signature impl|v|g]|e] w1];
    cbn [fst snd]; try (split; reflexivity); try reflexivity.
  destruct (log_params_logs (canonical method) signature args kwargs w1)
    as (w0 & recs & E & Hf & Hs & Hl & Hn & Hr).
  exists w0, recs. repeat (split; [assumption|]).
  unfold bind at 1. rewrite in_world_eq. cbn [world opt trace]. rewrite E. cbn [fst snd].
  unfold bind at 1. unfold record_call, modify. cbn [opt trace world].
  now rewrite in_world_eq.
Qed.

(** X13: [_run_log_method] is the method with a log in front.  It raises
    and does nothing when a keyword argument is named self or method, or
    when the name, which no property computes, is no method.  For a method
    it cannot fail before the call, appends at most one debug record for
    each declared parameter, each naming the method and one of its
    parameters, and calls the method once with the arguments as they were
    given, on a model that differs from the one before in those records
    only; the outcome of the method is its outcome.  In general the name is
    looked up first, which evaluates a property: its error is the error of
    the call, what it returns is called in the same way when it is
    callable, and refused otherwise, on the model as the property left
    it. *)
Theorem run_log_method_transparent (method : string) (args : list value) (kwargs : dict)
  (r : Run) :
  (ODict.mem "self" kwargs || ODict.mem "method" kwargs = true \/
   (plain (canonical method) = true /\ is_method (canonical method) = false) ->
   is_ok (fst (_run_log_method method args kwargs r)) = false /\
   snd (_run_log_method method args kwargs r) = r) /\
  (forall signature impl,
      ODict.mem "self" kwargs || ODict.mem "method" kwargs = false ->
      attrs (canonical method) = Some (Callable signature impl) ->
      exists w0 recs,
        fs w0 = fs (world r) /\
        same_but_log (mdl (world r)) (mdl w0) /\
        logger (mdl w0) = logger (mdl (world r)) ++ recs /\
        (length recs <= length signature)%nat /\
        (forall rec, In rec recs ->
           exists k v, rec = LogParam (canonical method) k v /\ In k (map fst signature)) /\
        _run_log_method method args kwargs r =
        (fst (impl args kwargs w0),
         mkRun (opt r) (trace r ++ [EvCall (canonical method) args kwargs])
               (snd (impl args kwargs w0)))) /\
  (ODict.mem "self" kwargs || ODict.mem "method" kwargs = false ->
   match getattr (canonical method) (world r) with
   | (Raise e, w1) => _run_log_method method args kwargs r = (Raise e, with_world w1 r)
   | (Ok (Callable signature impl), w1) =>
       exists w0 recs,
         fs w0 = fs w1 /\
         same_but_log (mdl w1) (mdl w0) /\
         logger (mdl w0) = logger (mdl w1) ++ recs /\
         (length recs <= length signature)%nat /\
         (forall rec, In rec recs ->
            exists k v, rec = LogParam (canonical method) k v /\ In k (map fst signature)) /\
         _run_log_method method args kwargs r =
         (fst (impl args kwargs w0),
          mkRun (opt r) (trace r ++ [EvCall (canonical method) args kwargs])
                (snd (impl args kwargs w0)))
   | (Ok _, w1) =>
       is_ok (fst (_run_log_method method args kwargs r)) = false /\
       snd (_run_log_method method args kwargs r) = with_world w1 r
   end).
Proof.
  split; [|split].
  - intros H.
    destruct (ODict.mem "self" kwargs || ODict.mem "method" kwargs) eqn:Hkw.
    { unfold _run_log_method. rewrite Hkw. now split. }
    destruct H as [H|[Hp Hm]]; [discriminate|].
    pose proof (run_log_method_lookup method args kwargs r Hkw) as L.
    unfold plain in Hp. unfold is_method in Hm. unfold getattr in L.
    destruct r as [o t w]. unfold with_world in L. cbn [world opt trace] in *.
    destruct (attrs (canonical method)) as [[sig impl|v|g]|]; try discriminate.
    + exact L.
    + destruct (base_property (canonical method)); [discriminate|].
      unfold raise in L. rewrite L. now split.
  - intros signature impl Hkw Ha.
    pose proof (run_log_method_lookup method args kwargs r Hkw) as L.
    unfold getattr in L. rewrite Ha in L. exact L.
  - apply run_log_method_lookup.
Qed.


(** the calls of [update] from the region check on, for a model that does
    not read from disk *)
Lemma update_tail_calls (write : bool) (r : Run) :
  _read (mdl (world r)) = false ->
  exists done,
    trace (snd ((update_check_region ;;; update_run write) r)) = trace r ++ done /\
    prefix_of done (update_plan write (opt r)) /\
    (is_ok (fst ((update_check_region ;;; update_run write) r)) = true ->
     done = update_plan write (opt r)).
Proof.
  intros Hrd. rewrite update_check_region_eq, staticgeoms_cached by now right.
  assert (Hrun : exists done,
             trace (snd (update_run write r)) = trace r ++ done /\
             prefix_of done (update_plan write (opt r)) /\
             (is_ok (fst (update_run write r)) = true -> done = update_plan write (opt r))).
  { destruct (update_run_step write (opt r) r eq_refl) as (done & H1 & H2 & H3).
    exists done. split; [exact H1|]. split; [exact H2|]. intros H. now destruct (H3 H). }
  destruct (ODict.mem "region" (_staticgeoms (mdl (world r)))); [exact Hrun|].
  destruct (is_empty (_staticmaps (mdl (world r)))) eqn:E.
  - destruct (staticmaps_not_read r E Hrd) as (r' & E' & Ho & Ht). rewrite E'.
    cbn [is_empty fst snd is_ok]. exists []. rewrite Ht, app_nil_r.
    split; [reflexivity|]. split; [apply prefix_of_nil | discriminate].
  - rewrite (staticmaps_cached r E), E. exact Hrun.
Qed.


End Dispatch.

(** X13, on the demo class: a key that names no method, a numbered key of
    a method with one parameter, and the property config, which raises on a
    model without root that reads from disk *)
Lemma run_log_method_transparent_witness :
  (is_ok (fst (_run_log_method (MC := Demo.demo) "setup_dams" [] []
                 (Demo.start false true []))) = false /\
   snd (_run_log_method (MC := Demo.demo) "setup_dams" [] [] (Demo.start false true [])) =
   Demo.start false true []) /\
  trace (snd (_run_log_method (MC := Demo.demo) "setup_rivers3" [] [("river_upa", VInt 10)]
                (Demo.start false true []))) =
  [EvCall "setup_rivers" [] [("river_upa", VInt 10)]] /\
  fst (_run_log_method (MC := Demo.demo) "config" [] [] (Demo.start true true [])) =
  Raise (mkExn ValueError "Root unknown, use set_root method").
Proof.
  split; [|split].
  - apply (proj1 (run_log_method_transparent (MC := Demo.demo) "setup_dams" [] []
                    (Demo.start false true []))).
    right. split; reflexivity.
  - destruct (proj1 (proj2 (run_log_method_transparent (MC := Demo.demo) "setup_rivers3" []
                              [("river_upa", VInt 10)] (Demo.start false true [])))
                [("river_upa", Some (VInt 30))] Demo.noop_impl eq_refl eq_refl)
      as (w0 & recs & _ & _ & _ & _ & _ & E).
    rewrite E. reflexivity.
  - assert (E : _run_log_method (MC := Demo.demo) "config" [] [] (Demo.start true true []) =
                (Raise (mkExn ValueError "Root unknown, use set_root method"),
                 with_world (Demo.fresh_world true true) (Demo.start true true []))).
    { exact (proj2 (proj2 (run_log_method_transparent (MC := Demo.demo) "config" [] []
                             (Demo.start true true []))) eq_refl). }
    exact (f_equal fst E).
Defined.



(** ** Component setters, further *)

Section Frames.
Context {A : Type} (clear : Model -> Model).

Lemma changes_only_bind {B : Type} (c : M World A) (k : A -> M World B) :
  changes_only clear c -> (forall a, changes_only clear (k a)) ->
  changes_only clear (bind c k).
Proof.
  intros Hc Hk w. unfold bind. destruct (Hc w) as [Hs Hf].
  destruct (c w) as [[a|e] w1]; cbn [snd] in *; [|now split].
  destruct (Hk a w1) as [Hs1 Hf1]. unfold same_but_log in *. split; congruence.
Qed.

End Frames.

Lemma changes_only_for_each {X : Type} (clear : Model -> Model) (l : list X)
  (body : X -> M World unit) :
  (forall x, changes_only clear (body x)) -> changes_only clear (for_each l body).
Proof.
  intros Hb. induction l as [|x l IH]; cbn [for_each].
  - intros w. now split.
  - apply changes_only_bind; [apply Hb | intros _; exact IH].
Qed.

Section SetterMore.
Context {C : ModelConsts}.

Lemma staticmaps_name_error (d : data) (name : option string) (e : exn) :
  staticmaps_name d name = Raise e -> exn_cls e = ValueError.
Proof.
  unfold staticmaps_name. destruct name as [n|], d as [[dn|] a|dv|a|g|g|v];
    try discriminate; try (intros H; injection H as <-; reflexivity).
  destruct (Nat.eqb (length (ODict.keys dv)) 1 && negb (in_list n (ODict.keys dv)));
    [discriminate|].
  destruct (negb (in_list n (ODict.keys dv))); [|discriminate].
  intros H. injection H as <-. reflexivity.
Qed.

Lemma named_arrays_error (d : data) (name : option string) (e : exn) :
  named_arrays d name = Raise e -> exn_cls e = ValueError.
Proof.
  unfold named_arrays. destruct d as [[dn|] a|dv|a|g|g|v], name as [n|];
    try discriminate; intros H; injection H as <-; reflexivity.
Qed.

(** The three ways of [set_staticmaps]: an error that leaves everything as
    it was, the payload taken as the maps when there are none, the loop
    over the variables of the payload otherwise. *)
Lemma set_staticmaps_cases (d : data) (name : option string) (w : World) :
  (exists e, set_staticmaps d name w = (Raise e, w) /\ exn_cls e <> IOError) \/
  (_staticmaps (mdl w) = [] /\
   exists dv, set_staticmaps d name w = (Ok tt, on_model (with_staticmaps dv) w)) \/
  (_staticmaps (mdl w) <> [] /\
   exists dv, set_staticmaps d name w = for_each dv store_map w).
Proof.
  remember (set_staticmaps d name w) as res eqn:Eres.
  unfold set_staticmaps in Eres. unfold bind at 1 in Eres. unfold lift_result at 1 in Eres.
  destruct (staticmaps_name d name) as [[d1 n1]|e] eqn:En.
  2:{ left. exists e. split; [exact Eres|].
      rewrite (staticmaps_name_error _ _ _ En). discriminate. }
  cbn [fst snd] in Eres. unfold bind at 1 in Eres. unfold self at 1, gets at 1 in Eres.
  destruct (_staticmaps (mdl w)) as [|kv sm] eqn:Es; cbn [length Nat.eqb] in Eres.
  - destruct (as_dataset d1 n1) as [dn a|dv|a|g|g|v]; subst res;
      first [ right; left; split; [reflexivity|]; eexists; reflexivity
            | left; eexists; split; [reflexivity | discriminate] ].
  - destruct (as_dataset d1 n1) as [dn a|dv|a|g|g|v]; destruct n1 as [n|];
      try destruct (negb (shape_eqb (arr_shape a) (rio_shape (kv :: sm)))); subst res;
      first [ right; right; split; [discriminate|]; eexists; reflexivity
            | left; eexists; split; [reflexivity | discriminate] ].
Qed.

Lemma fails_cleanly_loop {X : Type} (get : Model -> list (string * X))
  (body : string * X -> M World unit) (named : list (string * X)) (w : World) :
  store_spec get always conflicting_sizes body -> fails_cleanly (for_each named body) w.
Proof.
  intros spec. unfold fails_cleanly.
  destruct (for_each named body w) as [[u|e] w'] eqn:E; cbn [fst]; [exact I|].
  left. destruct (loop_fails get always conflicting_sizes body spec named w w' e E)
    as [H|[_ H]]; [exact H|].
  now rewrite accepted_always in H.
Qed.

(** X16: how a component set call may fail.  Each of the five setters
    either returns, or raises an IOError, which happens only on a model that
    is not writable, or raises another error; then it has changed nothing,
    a payload that is refused leaves no trace, unless the error is the one
    of xarray for a map that does not fit the maps, which comes in the
    course of storing the variables. *)
Theorem setter_failures (w : World) :
  (forall k d name, fails_cleanly (set_arrays k d name) w) /\
  (forall geom name, fails_cleanly (set_staticgeoms geom name) w) /\
  (forall d name,
      fails_cleanly (set_staticmaps d name) w \/
      (fst (set_staticmaps d name w) = Raise conflicting_sizes /\
       _staticmaps (mdl w) <> [])).
Proof.
  split; [|split].
  - intros k d name. unfold fails_cleanly. rewrite set_arrays_unfold.
    destruct (named_arrays d name) as [named|e] eqn:En.
    + exact (fails_cleanly_loop _ _ named w (store_array_spec k)).
    + cbn [fst snd]. right. split; [|reflexivity].
      rewrite (named_arrays_error _ _ _ En). discriminate.
  - intros geom name. unfold fails_cleanly, set_staticgeoms.
    destruct (is_geo geom); cbn [negb].
    + pose proof (fails_cleanly_loop _ _ [(name, geom)] w store_geom_spec) as H.
      unfold fails_cleanly in H. rewrite store_geom_loop in H. exact H.
    + cbn [fst snd]. right. split; [discriminate | reflexivity].
  - intros d name. unfold fails_cleanly.
    destruct (set_staticmaps_cases d name w) as [(e & E & He) | [(_ & dv & E) | (Hs & dv & E)]];
      rewrite E.
    + left. right. now split.
    + left. exact I.
    + destruct (for_each dv store_map w) as [[u|e] w'] eqn:El; cbn [fst]; [left; exact I|].
      destruct (loop_fails _ _ _ _ store_map_spec dv w w' e El) as [H|[-> _]].
      * left. now left.
      * right. now split.
Qed.

(** the error of the assignment can come after a variable of the payload
    has been stored: on the demo class in WRITE mode, a dataset whose second
    variable has another shape than the maps *)
Example set_staticmaps_partial_store :
  fst (set_staticmaps (C := Demo.demo_consts)
         (Dataset [("slope", Demo.grid2); ("aspect", mkArray [3; 2] 9)]) None
         (Demo.loaded false true)) = Raise conflicting_sizes /\
  _staticmaps (mdl (snd (set_staticmaps (C := Demo.demo_consts)
                           (Dataset [("slope", Demo.grid2); ("aspect", mkArray [3; 2] 9)])
                           None (Demo.loaded false true)))) =
  [("dem", Demo.grid); ("slope", Demo.grid2)].
Proof. split; reflexivity. Qed.

(** X17: a model that is not writable never loses or changes an entry
    through a setter: whatever the payload and whatever the outcome of the
    call, every name that was in the collection is still there with the
    value it had. *)
Theorem read_only_keeps_entries (w : World) :
  _write (mdl w) = false ->
  (forall k d name n a,
      ODict.get n (field k (mdl w)) = Some a ->
      ODict.get n (field k (mdl (snd (set_arrays k d name w)))) = Some a) /\
  (forall geom name n g,
      ODict.get n (_staticgeoms (mdl w)) = Some g ->
      ODict.get n (_staticgeoms (mdl (snd (set_staticgeoms geom name w)))) = Some g) /\
  (forall d name n a,
      ODict.get n (_staticmaps (mdl w)) = Some a ->
      ODict.get n (_staticmaps (mdl (snd (set_staticmaps d name w)))) = Some a).
Proof.
  intros Hw. split; [|split].
  - intros k d name n a Hn. rewrite set_arrays_unfold.
    destruct (named_arrays d name) as [named|e]; [|exact Hn].
    exact (loop_read_only_keeps _ _ _ _ (store_array_spec k) named w Hw n a Hn).
  - intros geom name n g Hn. unfold set_staticgeoms.
    destruct (is_geo geom); cbn [negb]; [|exact Hn].
    pose proof (loop_read_only_keeps _ _ _ _ store_geom_spec [(name, geom)] w Hw n g Hn) as H.
    now rewrite store_geom_loop in H.
  - intros d name n a Hn.
    destruct (set_staticmaps_cases d name w) as [(e & E & He) | [(Hs & dv & E) | (_ & dv & E)]];
      rewrite E.
    + exact Hn.
    + rewrite Hs in Hn. discriminate.
    + exact (loop_read_only_keeps _ _ _ _ store_map_spec dv w Hw n a Hn).
Qed.

Ltac run_body :=
  cbv beta iota zeta delta [store_array store_map store_geom bind ret self gets modify log
                              raise when on_model mdl fs fst snd same_but_log lift_result
                              field with_field with_forcing with_states with_results
                              with_staticmaps with_staticgeoms with_logger
                              _root _read _write _config_fn _config _staticmaps _staticgeoms
                              _forcing _states _results logger negb].

Lemma store_array_frame (k : kind) (kv : string * array) :
  changes_only (with_field k []) (store_array k kv).
Proof.
  intros [m f]. destruct m as [rt rd wr cfn cfg sm sg fo st rs lg].
  destruct k; run_body;
    match goal with |- context [ODict.mem ?n ?c] => destruct (ODict.mem n c) end;
    try destruct wr; split; reflexivity.
Qed.

Lemma store_geom_frame (kv : string * data) :
  changes_only (with_staticgeoms []) (store_geom kv).
Proof.
  intros [m f]. destruct m as [rt rd wr cfn cfg sm sg fo st rs lg].
  destruct kv as [n x]. run_body.
  match goal with |- context [ODict.mem ?n ?c] => destruct (ODict.mem n c) end;
    try destruct wr; try destruct rd; split; reflexivity.
Qed.

Lemma store_map_frame (kv : string * array) :
  changes_only (with_staticmaps []) (store_map kv).
Proof.
  intros [m f]. destruct m as [rt rd wr cfn cfg sm sg fo st rs lg].
  destruct kv as [n x]. run_body.
  match goal with |- context [conflicts ?s ?k ?v] => destruct (conflicts s k v) end;
    match goal with |- context [ODict.mem ?n ?c] => destruct (ODict.mem n c) end;
    try destruct wr; try destruct rd; split; reflexivity.
Qed.

(** X18: a setter changes its own collection and the log, nothing else:
    whatever the payload and the outcome, the root, the mode, the
    configuration, the other collections and the file system are as they
    were. *)
Theorem setter_frame :
  (forall k d name, changes_only (with_field k []) (set_arrays k d name)) /\
  (forall geom name, changes_only (with_staticgeoms []) (set_staticgeoms geom name)) /\
  (forall d name, changes_only (with_staticmaps []) (set_staticmaps d name)).
Proof.
  split; [|split].
  - intros k d name w. rewrite set_arrays_unfold.
    destruct (named_arrays d name) as [named|e]; [|now split].
    apply changes_only_for_each. apply store_array_frame.
  - intros geom name w. unfold set_staticgeoms.
    destruct (is_geo geom); cbn [negb]; [apply store_geom_frame | now split].
  - intros d name w.
    destruct (set_staticmaps_cases d name w) as [(e & E & He) | [(Hs & dv & E) | (_ & dv & E)]];
      rewrite E.
    + now split.
    + destruct w as [m f]. destruct m. now split.
    + apply changes_only_for_each. apply store_map_frame.
Qed.

End SetterMore.

(** X17, on the demo class in pure READ mode: a payload with a new and an
    old name is refused, and the old entry is as it was *)
Lemma read_only_keeps_entries_witness :
  ODict.get "precip"
    (_forcing (mdl (snd (set_forcing
                           (Dataset [("temp", Demo.grid2); ("precip", Demo.grid2)]) None
                           (Demo.loaded true false))))) = Some Demo.grid.
Proof.
  apply (proj1 (read_only_keeps_entries (C := Demo.demo_consts) (Demo.loaded true false)
                  eq_refl) Forcing).
  reflexivity.
Defined.

Section SetterLookup.
Context {C : ModelConsts}.


(** X20: a bare array as a map.  Without a name it is refused; on a model
    without maps it is refused, a grid has to come first; on a model with
    maps it is refused when its shape is not the shape of the maps, and
    stored under the name otherwise, which on a writable model succeeds.
    Each refusal is a ValueError that leaves the model as it was. *)
Theorem set_staticmaps_ndarray (a : array) (w : World) :
  (exists e, set_staticmaps (NdArray a) None w = (Raise e, w) /\ exn_cls e = ValueError) /\
  (forall n,
      _staticmaps (mdl w) = [] ->
      exists e, set_staticmaps (NdArray a) (Some n) w = (Raise e, w) /\
                exn_cls e = ValueError) /\
  (forall n,
      _staticmaps (mdl w) <> [] ->
      arr_shape a <> rio_shape (_staticmaps (mdl w)) ->
      exists e, set_staticmaps (NdArray a) (Some n) w = (Raise e, w) /\
                exn_cls e = ValueError) /\
  (forall n,
      _staticmaps (mdl w) <> [] ->
      arr_shape a = rio_shape (_staticmaps (mdl w)) ->
      set_staticmaps (NdArray a) (Some n) w = for_each [(n, a)] store_map w /\
      (_write (mdl w) = true ->
       exists w',
         set_staticmaps (NdArray a) (Some n) w = (Ok tt, w') /\
         ODict.get n (_staticmaps (mdl w')) = Some a)).
Proof.
  assert (Heq : forall n, set_staticmaps (NdArray a) (Some n) w =
                if Nat.eqb (length (_staticmaps (mdl w))) 0
                then (Raise (mkExn ValueError "First parameter map(s) should xarray.Dataset"), w)
                else if negb (shape_eqb (arr_shape a) (rio_shape (_staticmaps (mdl w))))
                     then (Raise (mkExn ValueError "Shape of data and staticmaps do not match"),
                           w)
                     else for_each [(n, a)] store_map w).
  { intros n. unfold set_staticmaps. unfold bind at 1. unfold lift_result at 1.
    cbn [staticmaps_name fst snd as_dataset]. unfold bind at 1. unfold self at 1, gets at 1.
    destruct (Nat.eqb (length (_staticmaps (mdl w))) 0); [reflexivity|].
    unfold bind at 1.
    now destruct (negb (shape_eqb (arr_shape a) (rio_shape (_staticmaps (mdl w))))). }
  split; [|split; [|split]].
  - eexists. split; reflexivity.
  - intros n Hs. rewrite Heq, Hs. eexists. split; reflexivity.
  - intros n Hs Hsh. rewrite Heq.
    destruct (_staticmaps (mdl w)) as [|kv sm] eqn:Es; [congruence|]. cbn [length Nat.eqb].
    unfold shape_eqb. destruct (list_eq_dec Nat.eq_dec (arr_shape a) (rio_shape (kv :: sm)));
      [contradiction|].
    eexists. split; reflexivity.
  - intros n Hs Hsh.
    assert (E : set_staticmaps (NdArray a) (Some n) w = for_each [(n, a)] store_map w).
    { rewrite Heq. destruct (_staticmaps (mdl w)) as [|kv sm] eqn:Es; [congruence|].
      cbn [length Nat.eqb]. unfold shape_eqb.
      destruct (list_eq_dec Nat.eq_dec (arr_shape a) (rio_shape (kv :: sm)));
        [reflexivity | contradiction]. }
    split; [exact E|]. intros Hw. rewrite E.
    assert (Hf : fits_map (_staticmaps (mdl w)) (n, a) = true).
    { unfold fits_map. cbn [fst snd]. now rewrite (same_shape_fits _ n a Hsh). }
    destruct (st_ok _ _ _ _ store_map_spec (n, a) w (or_introl Hw) Hf) as (w' & E' & Hg & _).
    exists w'. cbn [for_each]. unfold bind. rewrite E'. split; [reflexivity|].
    cbn [fst snd] in Hg. rewrite Hg. apply ODictFacts.get_set_eq.
Qed.

End SetterLookup.


(** X20, on the demo class: an array of the shape of the maps, and one of
    another shape *)
Lemma set_staticmaps_ndarray_witness :
  (exists w',
      set_staticmaps (C := Demo.demo_consts) (NdArray Demo.grid2) (Some "slope")
        (Demo.loaded false true) = (Ok tt, w') /\
      ODict.get "slope" (_staticmaps (mdl w')) = Some Demo.grid2) /\
  (exists e,
      set_staticmaps (C := Demo.demo_consts) (NdArray (mkArray [3; 2] 9)) (Some "slope")
        (Demo.loaded false true) = (Raise e, Demo.loaded false true) /\
      exn_cls e = ValueError).
Proof.
  split.
  - apply (proj2 (proj2 (proj2 (proj2 (set_staticmaps_ndarray (C := Demo.demo_consts)
                                         Demo.grid2 (Demo.loaded false true))))
                    "slope" ltac:(discriminate) eq_refl)).
    reflexivity.
  - apply (proj1 (proj2 (proj2 (set_staticmaps_ndarray (C := Demo.demo_consts)
                                  (mkArray [3; 2] 9) (Demo.loaded false true)))) "slope");
      discriminate.
Defined.

(** ** Lazy properties and the region, further *)

Section Lazy.
Context {MC : ModelClass}.

Lemma arrays_cached (k : kind) (r : Run) :
  is_empty (field k (mdl (world r))) = false \/ _read (mdl (world r)) = false ->
  arrays k r = (Ok (field k (mdl (world r))), r).
Proof.
  destruct r as [o t w]. cbn [world]. intros H.
  unfold arrays, bind, in_world, zoom, self, gets. cbn [world opt trace].
  destruct (is_empty (field k (mdl w))); cbn [when]; [|reflexivity].
  destruct H as [H|H]; [discriminate|]. cbn [world opt trace]. rewrite H. reflexivity.
Qed.

Lemma arrays_read (k : kind) (r : Run) :
  is_empty (field k (mdl (world r))) = true ->
  _read (mdl (world r)) = true ->
  arrays k r =
  match call_attr (reader k) [] [] r with
  | (Ok _, r1) => (Ok (field k (mdl (world r1))), r1)
  | (Raise e, r1) => (Raise e, r1)
  end.
Proof.
  destruct r as [o t w]. cbn [world]. intros He Hr.
  unfold arrays, bind, in_world, zoom, self, gets. cbn [world opt trace].
  rewrite He. cbn [when world opt trace]. rewrite Hr. cbn [when].
  destruct (call_attr (reader k) [] [] (mkRun o t w)) as [[v|e] r1]; [|reflexivity].
  unfold ret. destruct r1 as [o1 t1 w1]. reflexivity.
Qed.

Lemma staticgeoms_read (r : Run) :
  is_empty (_staticgeoms (mdl (world r))) = true ->
  _read (mdl (world r)) = true ->
  staticgeoms r =
  match call_attr "read_staticgeoms" [] [] r with
  | (Ok _, r1) => (Ok (_staticgeoms (mdl (world r1))), r1)
  | (Raise e, r1) => (Raise e, r1)
  end.
Proof.
  destruct r as [o t w]. cbn [world]. intros He Hr.
  unfold staticgeoms, bind, in_world, zoom, self, gets. cbn [world opt trace].
  rewrite He. cbn [when world opt trace]. rewrite Hr. cbn [when].
  destruct (call_attr "read_staticgeoms" [] [] (mkRun o t w)) as [[v|e] r1]; [|reflexivity].
  unfold ret. destruct r1 as [o1 t1 w1]. reflexivity.
Qed.

Lemma staticmaps_read (r : Run) :
  is_empty (_staticmaps (mdl (world r))) = true ->
  _read (mdl (world r)) = true ->
  staticmaps r =
  match call_attr "read_staticmaps" [] [] r with
  | (Ok _, r1) => (Ok (_staticmaps (mdl (world r1))), r1)
  | (Raise e, r1) => (Raise e, r1)
  end.
Proof.
  destruct r as [o t w]. cbn [world]. intros He Hr.
  unfold staticmaps, bind, in_world, zoom, self, gets. cbn [world opt trace].
  destruct (_staticmaps (mdl w)) as [|kv sm] eqn:Es; [|discriminate].
  cbn [length Nat.eqb when world opt trace]. rewrite Hr.
  destruct (call_attr "read_staticmaps" [] [] (mkRun o t w)) as [[v|e] r1]; [|reflexivity].
  unfold ret. destruct r1 as [o1 t1 w1]. reflexivity.
Qed.

(** X21: the lazy properties read at most once and only when they must.
    A collection that is not empty is returned as it is, in any mode, with
    no call and no change; an empty one on a model that reads from disk is
    read through the reader of its component, called once without
    arguments, whose error is the error of the property and after which the
    property returns what is then in the collection, be it still empty. *)
Theorem lazy_properties (r : Run) :
  (forall k,
      is_empty (field k (mdl (world r))) = false ->
      arrays k r = (Ok (field k (mdl (world r))), r)) /\
  (is_empty (_staticgeoms (mdl (world r))) = false ->
   staticgeoms r = (Ok (_staticgeoms (mdl (world r))), r)) /\
  (is_empty (_staticmaps (mdl (world r))) = false ->
   staticmaps r = (Ok (_staticmaps (mdl (world r))), r)) /\
  (_read (mdl (world r)) = true ->
   (forall k,
       is_empty (field k (mdl (world r))) = true ->
       arrays k r =
       match call_attr (reader k) [] [] r with
       | (Ok _, r1) => (Ok (field k (mdl (world r1))), r1)
       | (Raise e, r1) => (Raise e, r1)
       end) /\
   (is_empty (_staticgeoms (mdl (world r))) = true ->
    staticgeoms r =
    match call_attr "read_staticgeoms" [] [] r with
    | (Ok _, r1) => (Ok (_staticgeoms (mdl (world r1))), r1)
    | (Raise e, r1) => (Raise e, r1)
    end) /\
   (is_empty (_staticmaps (mdl (world r))) = true ->
    staticmaps r =
    match call_attr "read_staticmaps" [] [] r with
    | (Ok _, r1) => (Ok (_staticmaps (mdl (world r1))), r1)
    | (Raise e, r1) => (Raise e, r1)
    end)).
Proof.
  split; [|split; [|split]].
  - intros k H. apply arrays_cached. now left.
  - intros H. apply staticgeoms_cached. now left.
  - apply staticmaps_cached.
  - intros Hr. split; [|split].
    + intros k He. now apply arrays_read.
    + intros He. now apply staticgeoms_read.
    + intros He. now apply staticmaps_read.
Qed.

(** X22: the region of a model that does not read from disk.  The property
    never fails and calls nothing; it returns the geometry stored under
    region when there is one, else the box of the maps when there are maps,
    else None; it changes nothing but the log, which gets the warning of the
    empty maps in the last case. *)
Theorem region_without_reading (r : Run) :
  _read (mdl (world r)) = false ->
  exists r',
    region r =
    (Ok match ODict.get "region" (_staticgeoms (mdl (world r))) with
        | Some g => Some g
        | None =>
            if is_empty (_staticmaps (mdl (world r))) then None
            else Some (GeoDataFrame (bounds_geom (_staticmaps (mdl (world r)))))
        end, r') /\
    opt r' = opt r /\ trace r' = trace r /\
    same_but_log (mdl (world r)) (mdl (world r')) /\ fs (world r') = fs (world r).
Proof.
  intros Hrd. unfold region. unfold bind at 1.
  rewrite staticgeoms_cached by now right.
  destruct (ODict.get "region" (_staticgeoms (mdl (world r)))) as [g|].
  { exists r. repeat split. }
  unfold bind at 1.
  destruct (is_empty (_staticmaps (mdl (world r)))) eqn:E.
  - destruct r as [o t [m f]]. cbn [world mdl] in *.
    unfold staticmaps, bind, in_world, zoom, self, gets, log, modify. cbn [world opt trace mdl].
    destruct (_staticmaps m) as [|kv sm] eqn:Es; [|discriminate].
    cbn [length Nat.eqb when world opt trace mdl]. rewrite Hrd.
    cbn [world opt trace mdl on_model with_logger _staticmaps]. rewrite Es.
    cbn [length Nat.ltb Nat.leb]. eexists. split; [reflexivity|].
    cbn [opt trace world mdl fs on_model]. repeat split.
  - rewrite (staticmaps_cached r E).
    destruct (_staticmaps (mdl (world r))) as [|kv sm] eqn:Es; [discriminate|].
    cbn [length Nat.ltb Nat.leb]. exists r. repeat split.
Qed.

End Lazy.

Section BaseReaders.
Context {MC : ModelClass}.

Lemma call_attr_callable (name : string) (signature : list (string * option value))
  (impl : method_impl) (r : Run) :
  attrs name = Some (Callable signature impl) ->
  call_attr name [] [] r =
  (fst (impl [] [] (world r)),
   mkRun (opt r) (trace r ++ [EvCall name [] []]) (snd (impl [] [] (world r)))).
Proof.
  intros Ha. unfold call_attr. rewrite Ha. unfold bind, record_call, modify.
  now rewrite in_world_eq.
Qed.

Lemma read_arrays_raises (k : kind) (w : World) :
  exists w',
    (read_arrays k ;;; ret VNone) w = (Raise not_implemented, w') /\
    (is_empty (field k (mdl w)) = true -> is_empty (field k (mdl w')) = true).
Proof.
  unfold read_arrays, bind, self, gets, lift_result.
  destruct (_write (mdl w)); cbn [negb when]; unfold ret, modify.
  - eexists. split; [reflexivity | trivial].
  - eexists. split; [reflexivity|]. intros _. cbn [mdl on_model].
    now rewrite field_with_field.
Qed.

Lemma read_staticgeoms_raises (w : World) :
  exists w',
    (read_staticgeoms ;;; ret VNone) w = (Raise not_implemented, w') /\
    (is_empty (_staticgeoms (mdl w)) = true -> is_empty (_staticgeoms (mdl w')) = true).
Proof.
  unfold read_staticgeoms, bind, self, gets, lift_result.
  destruct (_write (mdl w)); cbn [negb when]; unfold ret, modify.
  - eexists. split; [reflexivity | trivial].
  - eexists. split; [reflexivity|]. reflexivity.
Qed.

Lemma read_staticmaps_raises (w : World) :
  exists w',
    (read_staticmaps ;;; ret VNone) w = (Raise not_implemented, w') /\
    (is_empty (_staticmaps (mdl w)) = true -> is_empty (_staticmaps (mdl w')) = true).
Proof.
  unfold read_staticmaps, bind, self, gets, lift_result.
  destruct (_write (mdl w)); cbn [negb when]; unfold ret, modify.
  - eexists. split; [reflexivity | trivial].
  - eexists. split; [reflexivity|]. reflexivity.
Qed.

(** X23: a class that leaves a reader to the body of the base class.  On a
    model that reads from disk, the lazy property of an empty component
    calls that reader once and raises its NotImplementedError, and the
    component is still empty; this holds for the five components. *)
Theorem base_readers_unimplemented (r : Run) :
  _read (mdl (world r)) = true ->
  (forall k signature,
      attrs (reader k) = Some (Callable signature (fun _ _ => read_arrays k ;;; ret VNone)) ->
      is_empty (field k (mdl (world r))) = true ->
      raises (fst (arrays k r)) NotImplementedError /\
      trace (snd (arrays k r)) = trace r ++ [EvCall (reader k) [] []] /\
      is_empty (field k (mdl (world (snd (arrays k r))))) = true) /\
  (forall signature,
      attrs "read_staticgeoms" =
      Some (Callable signature (fun _ _ => read_staticgeoms ;;; ret VNone)) ->
      is_empty (_staticgeoms (mdl (world r))) = true ->
      raises (fst (staticgeoms r)) NotImplementedError /\
      trace (snd (staticgeoms r)) = trace r ++ [EvCall "read_staticgeoms" [] []] /\
      is_empty (_staticgeoms (mdl (world (snd (staticgeoms r))))) = true) /\
  (forall signature,
      attrs "read_staticmaps" =
      Some (Callable signature (fun _ _ => read_staticmaps ;;; ret VNone)) ->
      is_empty (_staticmaps (mdl (world r))) = true ->
      raises (fst (staticmaps r)) NotImplementedError /\
      trace (snd (staticmaps r)) = trace r ++ [EvCall "read_staticmaps" [] []] /\
      is_empty (_staticmaps (mdl (world (snd (staticmaps r))))) = true).
Proof.
  intros Hr. split; [|split].
  - intros k signature Ha He. rewrite (arrays_read k r He Hr).
    rewrite (call_attr_callable _ _ _ r Ha).
    destruct (read_arrays_raises k (world r)) as (w' & E & Hw'). rewrite E.
    cbn [fst snd trace world]. repeat split. now apply Hw'.
  - intros signature Ha He. rewrite (staticgeoms_read r He Hr).
    rewrite (call_attr_callable _ _ _ r Ha).
    destruct (read_staticgeoms_raises (world r)) as (w' & E & Hw'). rewrite E.
    cbn [fst snd trace world]. repeat split. now apply Hw'.
  - intros signature Ha He. rewrite (staticmaps_read r He Hr).
    rewrite (call_attr_callable _ _ _ r Ha).
    destruct (read_staticmaps_raises (world r)) as (w' & E & Hw'). rewrite E.
    cbn [fst snd trace world]. repeat split. now apply Hw'.
Qed.

End BaseReaders.

(** X21, on the demo class opened in mode r: the forcing in memory *)
Lemma lazy_properties_witness :
  arrays (MC := Demo.demo) Forcing (mkRun [] [] (Demo.loaded true false)) =
  (Ok [("precip", Demo.grid)], mkRun [] [] (Demo.loaded true false)).
Proof.
  apply (proj1 (lazy_properties (MC := Demo.demo) (mkRun [] [] (Demo.loaded true false)))
           Forcing).
  reflexivity.
Defined.

(** X22, on the demo class: a fresh model in mode w has no region *)
Lemma region_without_reading_witness :
  fst (region (MC := Demo.demo) (Demo.start false true [])) = Ok None.
Proof.
  destruct (region_without_reading (MC := Demo.demo) (Demo.start false true []) eq_refl)
    as (r' & E & _).
  rewrite E. reflexivity.
Defined.

(** X23, on a class without a reader of its own, opened in mode r *)
Lemma base_readers_unimplemented_witness :
  raises (fst (arrays (MC := Demo.plain) Forcing (Demo.start true false [])))
         NotImplementedError /\
  trace (snd (arrays (MC := Demo.plain) Forcing (Demo.start true false []))) =
  trace (Demo.start true false []) ++ [EvCall (reader Forcing) [] []] /\
  is_empty (field Forcing
              (mdl (world (snd (arrays (MC := Demo.plain) Forcing
                                  (Demo.start true false [])))))) = true.
Proof.
  apply (proj1 (base_readers_unimplemented (MC := Demo.plain) (Demo.start true false [])
                  eq_refl) Forcing []);
    reflexivity.
Defined.

(** ** Reading the configuration, absolute paths *)

Section ReadConfig.
Context {C : ModelConsts}.

Ltac eval_read_config :=
  cbv beta iota zeta delta [read_config bind ret self gets modify log root raise when
                             on_model mdl fs with_config with_config_fn with_logger
                             _root _read _write _config_fn _config _staticmaps _staticgeoms
                             _forcing _states _results logger negb orb is_ok fst snd].

(** X24: [read_config] fails only on a model that reads from disk and has
    no root, with the ValueError of the root.  Whatever its outcome it has
    set the file name when one was given and touched nothing else but the
    configuration and the log, the file system least of all.  When it
    returns, the configuration is what [configread] gives for a file that
    exists, or empty when there is no such file, and nothing of the
    configuration that was in memory is left: the result does not depend
    on it. *)
Theorem read_config_cases (config_fn : option string) (w : World) :
  is_ok (fst (read_config config_fn w)) =
  negb (_read (mdl w)) || match _root (mdl w) with Some _ => true | None => false end /\
  (is_ok (fst (read_config config_fn w)) = false ->
   raises (fst (read_config config_fn w)) ValueError) /\
  _config_fn (mdl (snd (read_config config_fn w))) =
  match config_fn with Some fn => Some fn | None => _config_fn (mdl w) end /\
  fs (snd (read_config config_fn w)) = fs w /\
  same_but_log (with_config [] (with_config_fn None (mdl (snd (read_config config_fn w)))))
               (with_config [] (with_config_fn None (mdl w))) /\
  (is_ok (fst (read_config config_fn w)) = true ->
   (_config (mdl (snd (read_config config_fn w))) = [] \/
    exists fn, isfile (fs w) fn = true /\
               _config (mdl (snd (read_config config_fn w))) = configread (fs w) fn) /\
   forall c, read_config config_fn (on_model (with_config c) w) = read_config config_fn w).
Proof.
  destruct w as [m f]. destruct m as [rt rd wr cfn cfg sm sg fo st rs lg].
  destruct config_fn as [fn|], rd; cbn [mdl _read _root negb orb].
  - destruct rt as [p|]; eval_read_config.
    + destruct (isfile f (join p fn)) eqn:E; repeat split; try discriminate; eauto.
    + repeat split; discriminate.
  - eval_read_config.
    destruct (isfile f (join (join _DATADIR _NAME) _CONF)) eqn:E;
      repeat split; try discriminate; eauto.
  - destruct rt as [p|]; eval_read_config.
    + destruct cfn as [fn|].
      * destruct (isfile f (join p fn)) eqn:E; repeat split; try discriminate; eauto.
      * repeat split; try discriminate; eauto.
    + repeat split; discriminate.
  - eval_read_config.
    destruct (isfile f (join (join _DATADIR _NAME) _CONF)) eqn:E;
      repeat split; try discriminate; eauto.
Qed.

(** X25: [get_config] with [abs_path].  What it returns is what it returns
    without, when that is not a string, so also the fallback; a string that
    starts with a slash as a path; any other string as the absolute path of
    its join with the root; and for such a string on a model without root
    it raises the ValueError of the root. *)
Theorem get_config_abs_path (keys : list string) (fallback v : value) (w : World) :
  get_config keys fallback false w = (Ok v, w) ->
  get_config keys fallback true w =
  match v with
  | VStr s =>
      if String.prefix "/" s then (Ok (VPath s), w)
      else
        match _root (mdl w) with
        | Some p => (Ok (VPath (abspath (join p s))), w)
        | None => (Raise (mkExn ValueError "Root unknown, use set_root method"), w)
        end
  | _ => (Ok v, w)
  end.
Proof.
  unfold get_config. destruct (init_last (split_keys keys)) as [[init last]|]; [|discriminate].
  unfold bind at 1. unfold self at 1, gets at 1. unfold ret at 1.
  intros H. injection H as H. unfold bind at 1. unfold self at 1, gets at 1. rewrite H.
  destruct v; try reflexivity.
  destruct (String.prefix "/" s); [reflexivity|].
  unfold root, bind, self, gets. now destruct (_root (mdl w)).
Qed.

End ReadConfig.

(** X24, on the demo class opened in mode r at a root with a configuration
    file *)
Lemma read_config_cases_witness :
  _config (mdl (snd (read_config (C := Demo.demo_consts) None
                       (mkWorld (with_root (Some "/m") true false (Demo.fresh true false))
                                (mkFS ["/m"] [("/m/model.ini", [("a", VInt 1)])]))))) = [] \/
  exists fn,
    isfile (mkFS ["/m"] [("/m/model.ini", [("a", VInt 1)])]) fn = true /\
    _config (mdl (snd (read_config (C := Demo.demo_consts) None
                         (mkWorld (with_root (Some "/m") true false (Demo.fresh true false))
                                  (mkFS ["/m"] [("/m/model.ini", [("a", VInt 1)])]))))) =
    configread (mkFS ["/m"] [("/m/model.ini", [("a", VInt 1)])]) fn.
Proof.
  apply (proj1 (proj2 (proj2 (proj2 (proj2 (proj2
           (read_config_cases (C := Demo.demo_consts) None
              (mkWorld (with_root (Some "/m") true false (Demo.fresh true false))
                       (mkFS ["/m"] [("/m/model.ini", [("a", VInt 1)])]))))))) eq_refl)).
Defined.

(** X25, on the demo class: a relative file name under the root *)
Lemma get_config_abs_path_witness :
  get_config (C := Demo.demo_consts) ["global"] VNone true
    (on_model (with_root (Some "/m") false true) Demo.configured) =
  (Ok (VPath "/m/flat"), on_model (with_root (Some "/m") false true) Demo.configured).
Proof.
  apply (get_config_abs_path (C := Demo.demo_consts) ["global"] VNone (VStr "flat")
           (on_model (with_root (Some "/m") false true) Demo.configured)).
  reflexivity.
Defined.

(** ** update on a writable model *)

Section UpdateMore.
Context {MC : ModelClass}.

(** X26: on a model that validation of the option mapping leaves writable
    [update] does not look at [model_out]: the model is updated in place,
    at the root it has, whatever output root is given. *)
Theorem update_ignores_model_out (model_out model_out' : option string) (write : bool)
  (r : Run) :
  _write (mdl (validated r)) = true ->
  update model_out write r = update model_out' write r.
Proof.
  unfold validated. intros Hw.
  destruct (_check_get_opt (opt r) (world r)) as [[o'|e] w1] eqn:Hv; cbn [snd] in Hw.
  - rewrite (check_get_opt_ok _ _ _ _ Hv) in Hv.
    now rewrite !(update_writable _ write r w1 Hv Hw).
  - now rewrite !update_unfold, Hv.
Qed.

End UpdateMore.

(** X26, on the demo class, with a model in mode w that has a region *)
Lemma update_ignores_model_out_witness :
  update (MC := Demo.demo) (Some "out") true
    (mkRun Demo.some_opt [] (Demo.loaded false true)) =
  update (MC := Demo.demo) None true (mkRun Demo.some_opt [] (Demo.loaded false true)).
Proof.
  apply (update_ignores_model_out (MC := Demo.demo) (Some "out") None true
           (mkRun Demo.some_opt [] (Demo.loaded false true))).
  reflexivity.
Defined.
